(** * intelephense-server: discovery, index coordinator and cache

    A shallow embedding of the three pieces of the server that carry
    logic of their own -- [LocalFileSystem]/[FileSearchProvider]
    (workspace.ts), [Cache] (cache.ts) and [Indexer] (server.ts) --
    followed by the properties established about them.

    Conventions.
    - JavaScript strings are [string]s (byte strings; every operation the
      server performs on them is index based and is modelled on bytes).
    - A promise is modelled by its settlement, [Outcome]: [Resolved v] or
      [Rejected e]; a synchronous [throw] inside an [async] function is a
      rejection as well.
    - Library and platform calls (fs, fast-glob, JSONStream, JSON.parse,
      the Intelephense engine) are parameters gathered in records; the
      logic written in the repository is transcribed function by function. *)

From Stdlib Require Import ZArith Ascii String List Bool Lia.
From stdpp Require Import base decidable list gmap strings.

Import ListNotations.
#[local] Set Warnings "-register-all".
Local Open Scope string_scope.
Local Open Scope list_scope.
Local Open Scope Z_scope.

(** ** JavaScript string primitives *)

Module Js.

(** Errors a settled promise can carry. *)
Inductive JsError :=
| TypeError (msg : string)
| URIError
| SyntaxError (msg : string)
| FsError (code : string).

Inductive Outcome (A : Type) :=
| Resolved (a : A)
| Rejected (e : JsError).
Arguments Resolved {A} a.
Arguments Rejected {A} e.

Definition strlen (s : string) : Z := Z.of_nat (String.length s).

(** [s[i]]; [None] is [undefined]. *)
Definition charAt (s : string) (i : nat) : option ascii := String.get i s.

Fixpoint drop_str (n : nat) (s : string) : string :=
  match n, s with
  | O, _ => s
  | S n', String _ s' => drop_str n' s'
  | S _, EmptyString => EmptyString
  end.

Fixpoint take_str (n : nat) (s : string) : string :=
  match n, s with
  | O, _ => EmptyString
  | S n', String c s' => String c (take_str n' s')
  | S _, EmptyString => EmptyString
  end.

(** [s.slice(from)] and [s.slice(from, to)] for non-negative indices. *)
Definition slice_from (s : string) (from : nat) : string := drop_str from s.
Definition slice (s : string) (from to : nat) : string :=
  take_str (to - from) (drop_str from s).

(** [s.indexOf(c, from)]; [None] is [-1]. *)
Fixpoint indexOf_aux (c : ascii) (s : string) (pos : nat) : option nat :=
  match s with
  | EmptyString => None
  | String d s' => if Ascii.eqb c d then Some pos else indexOf_aux c s' (S pos)
  end.
Definition indexOf (s : string) (c : ascii) (from : nat) : option nat :=
  indexOf_aux c (drop_str from s) from.

Definition code (c : ascii) : nat := nat_of_ascii c.

Definition isUpper (c : ascii) : bool := (65 <=? code c)%nat && (code c <=? 90)%nat.
Definition isLower (c : ascii) : bool := (97 <=? code c)%nat && (code c <=? 122)%nat.
Definition isLetter (c : ascii) : bool := isUpper c || isLower c.
Definition isDigit (c : ascii) : bool := (48 <=? code c)%nat && (code c <=? 57)%nat.

Definition toLowerCase_char (c : ascii) : ascii :=
  if isUpper c then ascii_of_nat (code c + 32) else c.

(** [s.replace(/a/g, b)] for single characters. *)
Fixpoint replace_all (a b : ascii) (s : string) : string :=
  match s with
  | EmptyString => EmptyString
  | String c s' => String (if Ascii.eqb c a then b else c) (replace_all a b s')
  end.

(** *** encodeURI / decodeURI (ECMA-262, 18.2.6), on byte strings. *)

(** uriReserved plus '#'. *)
Definition uriReservedHash (c : ascii) : bool :=
  existsb (Ascii.eqb c)
    [";"; "/"; "?"; ":"; "@"; "&"; "="; "+"; "$"; ","; "#"]%char.

(** uriUnescaped: alphanumerics and the marks. *)
Definition uriUnescaped (c : ascii) : bool :=
  isLetter c || isDigit c ||
  existsb (Ascii.eqb c) ["-"; "_"; "."; "!"; "~"; "*"; "'"; "("; ")"]%char.

(** The characters [encodeURI] copies and [decodeURI] cannot produce
    from an escape other than by leaving it escaped. *)
Definition uriUnchanged (c : ascii) : bool := uriReservedHash c || uriUnescaped c.

Definition hexDigit (n : nat) : ascii :=
  if (n <? 10)%nat then ascii_of_nat (48 + n) else ascii_of_nat (55 + n).

Definition hexValue (c : ascii) : option nat :=
  if isDigit c then Some (code c - 48)%nat
  else if (65 <=? code c)%nat && (code c <=? 70)%nat then Some (code c - 55)%nat
  else if (97 <=? code c)%nat && (code c <=? 102)%nat then Some (code c - 87)%nat
  else None.

Definition percent : ascii := "%"%char.

Fixpoint encodeURI (s : string) : string :=
  match s with
  | EmptyString => EmptyString
  | String c s' =>
      if uriUnchanged c then String c (encodeURI s')
      else String percent
             (String (hexDigit (code c / 16)) (String (hexDigit (code c mod 16))
                (encodeURI s')))
  end.

(** Number of continuation octets announced by a leading octet
    ([None]: no well-formed UTF-8 sequence starts with it -- a
    continuation octet, the leads C0 and C1 of overlong forms, a lead above
    F4 -- URIError). *)
Definition continuationCount (b : nat) : option nat :=
  if (b <? 128)%nat then Some 0%nat
  else if (b <? 194)%nat then None
  else if (b <? 224)%nat then Some 1%nat
  else if (b <? 240)%nat then Some 2%nat
  else if (b <? 245)%nat then Some 3%nat
  else None.

(** The values a well-formed sequence admits for the octet that follows
    the leading octet [lead]: no overlong form after E0 and F0, no
    surrogate after ED, nothing above U+10FFFF after F4. *)
Definition secondOctetRange (lead : nat) : nat * nat :=
  if (lead =? 224)%nat then (160, 191)%nat
  else if (lead =? 237)%nat then (128, 159)%nat
  else if (lead =? 240)%nat then (144, 191)%nat
  else if (lead =? 244)%nat then (128, 143)%nat
  else (128, 191)%nat.

(** The octet of the escape [s] starts with, if it starts with one. *)
Definition escapedOctet (s : string) : option nat :=
  match s with
  | String c (String h1 (String h2 _)) =>
      if Ascii.eqb c percent then
        match hexValue h1, hexValue h2 with
        | Some a, Some b => Some (16 * a + b)%nat
        | _, _ => None
        end
      else None
  | _ => None
  end.

(** [decodeURI]: [pending] is the number of continuation escapes still
    owed to the current multi-octet character.  An escape of an octet
    below 128 that denotes a reserved character (or '#') stays escaped.
    The octets of a multi-octet character must form a valid UTF-8
    encoding of a code point: every continuation octet lies in 80..BF, and
    the one after the lead in the range the lead admits.  [None] is a
    thrown URIError. *)
Fixpoint decodeURI_aux (pending : nat) (s : string) : option string :=
  match s with
  | EmptyString => match pending with O => Some EmptyString | S _ => None end
  | String c s1 =>
      if Ascii.eqb c percent then
        match s1 with
        | String h1 (String h2 s3) =>
            match hexValue h1, hexValue h2 with
            | Some a, Some b =>
                let o := (16 * a + b)%nat in
                match pending with
                | S p =>
                    if (128 <=? o)%nat && (o <? 192)%nat
                    then option_map (String (ascii_of_nat o)) (decodeURI_aux p s3)
                    else None
                | O =>
                    match continuationCount o with
                    | None => None
                    | Some O =>
                        if uriReservedHash (ascii_of_nat o)
                        then option_map (fun r => String c (String h1 (String h2 r)))
                               (decodeURI_aux O s3)
                        else option_map (String (ascii_of_nat o)) (decodeURI_aux O s3)
                    | Some (S k) =>
                        match escapedOctet s3 with
                        | Some second =>
                            if (fst (secondOctetRange o) <=? second)%nat
                               && (second <=? snd (secondOctetRange o))%nat
                            then option_map (String (ascii_of_nat o))
                                   (decodeURI_aux (S k) s3)
                            else None
                        | None => None
                        end
                    end
                end
            | _, _ => None
            end
        | _ => None
        end
      else
        match pending with
        | O => option_map (String c) (decodeURI_aux O s1)
        | S _ => None
        end
  end.

Definition decodeURI (s : string) : option string := decodeURI_aux O s.

End Js.

Import Js.

(** ** workspace.ts: LocalFileSystem *)

Module LocalFileSystem.

(** [SLASH_DRIVE_PATTERN = /^\/[a-zA-Z]:/] *)
Definition SLASH_DRIVE_PATTERN (s : string) : bool :=
  match s with
  | String c0 (String c1 (String c2 _)) =>
      Ascii.eqb c0 "/" && isLetter c1 && Ascii.eqb c2 ":"
  | _ => false
  end.

(** [DRIVE_PATTERN = /^[a-zA-Z]:/] *)
Definition DRIVE_PATTERN (s : string) : bool :=
  match s with
  | String c0 (String c1 _) => isLetter c0 && Ascii.eqb c1 ":"
  | _ => false
  end.

Definition startsWithSlash (s : string) : bool :=
  match s with String c _ => Ascii.eqb c "/" | _ => false end.

Definition startsWithTwoSlashes (s : string) : bool :=
  match s with
  | String c0 (String c1 _) => Ascii.eqb c0 "/" && Ascii.eqb c1 "/"
  | _ => false
  end.

(** [x[0] + x[1].toLowerCase() + x.slice(2)] *)
Definition lowerSecond (s : string) : string :=
  match s with
  | String c0 (String c1 r) => String c0 (String (toLowerCase_char c1) r)
  | _ => s
  end.

(** ['/' + x[0].toLowerCase() + x.slice(1)] *)
Definition slashLowerFirst (s : string) : string :=
  match s with
  | String c0 r => String "/" (String (toLowerCase_char c0) r)
  | EmptyString => "/"
  end.

(** [win] is [process.platform === 'win32']. *)
Definition pathToUri (win : bool) (filepath0 : string) : string :=
  if String.eqb filepath0 "" then ""
  else
    let filepath := if win then replace_all "\" "/" filepath0 else filepath0 in
    if startsWithTwoSlashes filepath then
      (* UNC path *)
      match indexOf filepath "/" 2 with
      | None => encodeURI ("file://" +:+ slice_from filepath 2 +:+ "/")
      | Some i =>
          let uriAuth := slice filepath 2 i in
          let uriPath := slice_from filepath i in
          let uriPath := if SLASH_DRIVE_PATTERN uriPath then lowerSecond uriPath else uriPath in
          encodeURI ("file://" +:+ uriAuth +:+ uriPath)
      end
    else if startsWithSlash filepath then encodeURI ("file://" +:+ filepath)
    else if DRIVE_PATTERN filepath then encodeURI ("file://" +:+ slashLowerFirst filepath)
    else "" (* relative path *).

(** [None]: [decodeURI] threw. *)
Definition uriToPath (win : bool) (uri : string) : option string :=
  match decodeURI uri with
  | None => None
  | Some filepath =>
      if negb (String.eqb (slice filepath 0 7) "file://") || (strlen filepath <? 8)
      then Some ""
      else
        let filepath := slice_from filepath 7 in
        let filepath :=
          if SLASH_DRIVE_PATTERN filepath then slice_from filepath 1
          else if negb (startsWithSlash filepath) then "//" +:+ filepath
          else filepath in
        Some (if win then replace_all "/" "\" filepath else filepath)
  end.

End LocalFileSystem.

(** ** Node's [path] (POSIX flavour) and a file-system state *)

Module Path.

(** The pieces of a path between its separators. *)
Fixpoint segments (s : string) : list string :=
  match s with
  | EmptyString => [EmptyString]
  | String c s' =>
      if Ascii.eqb c "/" then EmptyString :: segments s'
      else match segments s' with
           | [] => [String c EmptyString]
           | seg :: rest => String c seg :: rest
           end
  end.

Fixpoint joinSegments (l : list string) : string :=
  match l with
  | [] => ""
  | [x] => x
  | x :: rest => x +:+ "/" +:+ joinSegments rest
  end.

(** [normalizeString]: [acc] is the normalised prefix, last segment first. *)
Fixpoint normalizeSegments (allowAboveRoot : bool) (acc : list string) (l : list string)
  : list string :=
  match l with
  | [] => rev acc
  | seg :: rest =>
      if String.eqb seg "" || String.eqb seg "." then normalizeSegments allowAboveRoot acc rest
      else if String.eqb seg ".." then
        match acc with
        | top :: acc' =>
            if String.eqb top ".."
            then normalizeSegments allowAboveRoot (if allowAboveRoot then seg :: acc else acc) rest
            else normalizeSegments allowAboveRoot acc' rest
        | [] => normalizeSegments allowAboveRoot (if allowAboveRoot then [seg] else []) rest
        end
      else normalizeSegments allowAboveRoot (seg :: acc) rest
  end.

Definition endsWithSlash (s : string) : bool :=
  match last (segments s) with Some seg => String.eqb seg "" | None => false end.

Definition isAbsolute (s : string) : bool :=
  match s with String c _ => Ascii.eqb c "/" | _ => false end.

Definition normalize (p : string) : string :=
  if String.eqb p "" then "."
  else
    let body := joinSegments (normalizeSegments (negb (isAbsolute p)) [] (segments p)) in
    if String.eqb body "" then
      if isAbsolute p then "/" else if endsWithSlash p then "./" else "."
    else
      let body := if endsWithSlash p then body +:+ "/" else body in
      if isAbsolute p then "/" +:+ body else body.

(** [path.join(a, b)] *)
Definition join (a b : string) : string :=
  if String.eqb a "" then (if String.eqb b "" then "." else normalize b)
  else if String.eqb b "" then normalize a
  else normalize (a +:+ "/" +:+ b).

(** [p] names [q] itself or something below the directory [q]. *)
Definition within (q p : string) : bool :=
  String.eqb p q || String.prefix (q +:+ "/") p.

End Path.

Module Fs.

(** Regular files with their content, and directories. *)
Record FsState := mkFs { files : list (string * string); dirs : list string }.

Definition isFile (fs : FsState) (p : string) : bool :=
  existsb (fun e => String.eqb (fst e) p) (files fs).
Definition isDir (fs : FsState) (p : string) : bool :=
  existsb (String.eqb p) (dirs fs).

Fixpoint lookupFile (l : list (string * string)) (p : string) : option string :=
  match l with
  | [] => None
  | (q, d) :: rest => if String.eqb q p then Some d else lookupFile rest p
  end.

Inductive ReadOutcome :=
| ReadFail (code : option string)
| ReadData (data : string).

(** What a read stream opened on [p] delivers. *)
Definition createReadStream (fs : FsState) (p : string) : ReadOutcome :=
  if isDir fs p then ReadFail (Some "EISDIR")
  else match lookupFile (files fs) p with
       | Some d => ReadData d
       | None => ReadFail (Some "ENOENT")
       end.

Definition dirname (p : string) : string :=
  match rev (Path.segments p) with
  | _ :: (_ :: _) as up =>
      let d := Path.joinSegments (rev up) in
      if String.eqb d "" then "/" else d
  | _ => "."
  end.

Definition dirExists (fs : FsState) (d : string) : bool :=
  String.eqb d "." || String.eqb d "/" || isDir fs d.

(** Writing a whole file through a write stream: the error code, or the
    state after 'finish'. *)
Definition writeFile (fs : FsState) (p data : string) : string + FsState :=
  if isDir fs p then inl "EISDIR"
  else if negb (dirExists fs (dirname p)) then inl "ENOENT"
  else inr (mkFs ((p, data) :: List.filter (fun e => negb (String.eqb (fst e) p)) (files fs))
                 (dirs fs)).

(** What becomes of a write stream once its file is open: every chunk is
    written and 'finish' is emitted; or an 'error' is emitted -- by the
    stream or by the one piped into it -- when no more than the first
    [written] characters have reached the file. *)
Inductive StreamFate :=
| Finishes
| Fails (message : string) (written : nat).

(** [fs.unlink] *)
Definition unlink (fs : FsState) (p : string) : string + FsState :=
  if isDir fs p then inl "EISDIR"
  else if isFile fs p
  then inr (mkFs (List.filter (fun e => negb (String.eqb (fst e) p)) (files fs)) (dirs fs))
  else inl "ENOENT".

(** [fs.remove] of fs-extra: the entry and all below it; silent when absent. *)
Definition remove (fs : FsState) (p : string) : FsState :=
  mkFs (List.filter (fun e => negb (Path.within p (fst e))) (files fs))
       (List.filter (fun d => negb (Path.within p d)) (dirs fs)).

(** The directory [p] and each of its ancestors, nearest last. *)
Fixpoint ancestors (prefix : string) (first : bool) (segs : list string) : list string :=
  match segs with
  | [] => []
  | seg :: rest =>
      let here := if first then prefix +:+ seg else prefix +:+ "/" +:+ seg in
      here :: ancestors here false rest
  end.

Definition chain (p : string) : list string :=
  let body := Path.normalizeSegments (negb (Path.isAbsolute p)) [] (Path.segments p) in
  ancestors (if Path.isAbsolute p then "/" else "") true body.

(** [fs.ensureDir] of fs-extra ([mkdir -p]). *)
Definition ensureDir (fs : FsState) (p : string) : string + FsState :=
  if existsb (isFile fs) (chain p) then inl "ENOTDIR"
  else inr (mkFs (files fs)
                 (dirs fs ++ List.filter (fun d => negb (isDir fs d)) (chain p))).

End Fs.

(** ** cache.ts *)

Module Cache.

Import Fs.

(** JSON-compatible values, the records a cache holds. *)
Inductive Json :=
| JNull
| JBool (b : bool)
| JNum (n : Z)
| JStr (s : string)
| JArr (items : list Json)
| JObj (members : list (string * Json)).

(** The JSONStream package: [stringify('[', ',', ']')] fed with all the
    records, and [parse('*')] fed with a whole file -- the items it emits
    and, when the text is malformed, the message of its 'error' event. *)
Record JSONStream := {
  stringify : list Json -> string;
  parse : string -> list Json * option string
}.

Record Cache := mkCache { dir : string }.

Definition pathFromKey (c : Cache) (key : string) : string :=
  Path.join (dir c) (key +:+ ".json").

(** The promise returned by [put] and the file system after it settled.
    [fs.createWriteStream] creates or truncates the file when it opens it;
    when it cannot open it, nothing is written and the 'error' of the
    write stream rejects the promise.  Once the file is open the promise
    is resolved on 'finish', with the whole text in the file, or rejected
    on an 'error' of either stream, with the file holding what was written
    until then. *)
Definition put (js : JSONStream) (c : Cache) (key : string) (data : list Json)
           (fate : StreamFate) (fs : FsState) : Outcome unit * FsState :=
  let file := pathFromKey c key in
  let text := stringify js data in
  match fate with
  | Finishes =>
      match writeFile fs file text with
      | inr fs' => (Resolved tt, fs')
      | inl code => (Rejected (FsError code), fs)
      end
  | Fails message written =>
      match writeFile fs file (take_str written text) with
      | inr fs' => (Rejected (FsError message), fs')
      | inl code => (Rejected (FsError code), fs)
      end
  end.

(** The handlers of [get], applied to what the read stream delivers: an
    'error' event with its [code], or the whole content of the file, which
    is piped through the parser.  (The parameter [useStream] of [get] is
    never read.) *)
Definition get_of (js : JSONStream) (r : ReadOutcome) : Outcome (list Json) :=
  match r with
  | ReadFail code =>
      if negb (bool_decide (code = Some "ENOENT"))
      then Rejected (FsError (default "" code))
      else Resolved []
  | ReadData d =>
      match parse js d with
      | (items, None) => Resolved items
      | (_, Some msg) => Rejected (SyntaxError msg)
      end
  end.

Definition get (js : JSONStream) (c : Cache) (key : string) (fs : FsState)
  : Outcome (list Json) :=
  get_of js (createReadStream fs (pathFromKey c key)).

Definition del (c : Cache) (key : string) (fs : FsState) : Outcome unit * FsState :=
  match unlink fs (pathFromKey c key) with
  | inr fs' => (Resolved tt, fs')
  | inl code => (Rejected (FsError code), fs)
  end.

Definition dispose (c : Cache) (fs : FsState) : Outcome unit * FsState :=
  (Resolved tt, remove fs (pathFromKey c (dir c))).

(** [Cache.create]: [None] is [undefined]. *)
Definition create (path : string) (fs : FsState) : option Cache * FsState :=
  match ensureDir fs path with
  | inr fs' => (Some (mkCache path), fs')
  | inl _ => (None, fs)
  end.

End Cache.

(** ** Observable actions and asynchronous computations *)

(** [TextDocumentItem] as built by [Workspace.getDocument]. *)
Record TextDocumentItem := mkDoc {
  doc_uri : string;
  languageId : string;
  text : string;
  version : Z
}.

(** What workspace.ts does to the outside: log lines, file reads and
    glob searches. *)
Inductive IoEvent :=
| LogWarn (msg : string)
| FsReadFile (path : string)
| FgSearch (patterns : list string) (cwd : string) (ignore : list string) (matchBase : bool).

(** What the indexer does: its own log lines and whatever the workspace
    layer did on its behalf ([Io]), calls into the engine and calls into
    the workspace layer. *)
Inductive Event :=
| Io (e : IoEvent)
| EngKnownDocuments
| EngDiscoverSymbols (doc : option TextDocumentItem)
| EngForget (uri : string)
| WsFindFiles (associations exclude : list string) (useComposerJson : bool)
| WsFilterFiles (uris associations exclude : list string) (useComposerJson : bool)
| WsGetDocument (uri : string).

(** An asynchronous computation over mutable state [S] with actions in
    [E]: how it settles, the state it leaves and the actions it performed,
    in order. *)
Definition Async (E S A : Type) : Type := S -> Outcome A * S * list E.

Definition ret {E S A} (a : A) : Async E S A := fun s => (Resolved a, s, []).
Definition throw {E S A} (e : JsError) : Async E S A := fun s => (Rejected e, s, []).
Definition emit {E S} (ev : E) : Async E S unit := fun s => (Resolved tt, s, [ev]).
Definition getState {E S} : Async E S S := fun s => (Resolved s, s, []).
Definition modify {E S} (f : S -> S) : Async E S unit := fun s => (Resolved tt, f s, []).

Definition bind {E S A B} (m : Async E S A) (f : A -> Async E S B) : Async E S B :=
  fun s =>
    match m s with
    | (Resolved a, s1, e1) =>
        let '(r, s2, e2) := f a s1 in (r, s2, e1 ++ e2)
    | (Rejected e, s1, e1) => (Rejected e, s1, e1)
    end.

(** A settled call of the workspace layer, seen from a computation with
    state. *)
Definition stateless {S A} (r : Outcome A * list IoEvent) : Async Event S A :=
  fun s => (fst r, s, map Io (snd r)).

(** A computation run from a given state, without the state it leaves. *)
Definition settle {E S A} (m : Async E S A) (s : S) : Outcome A * list E :=
  let '(r, _, evs) := m s in (r, evs).

Declare Scope async_scope.
Delimit Scope async_scope with async.
Notation "'let*' x ':=' m 'in' k" := (bind m (fun x => k))
  (at level 10, x name, m at level 100, k at level 200) : async_scope.
Notation "'let*' ' p ':=' m 'in' k" := (bind m (fun x => match x with p => k end))
  (at level 10, p pattern, m at level 100, k at level 200) : async_scope.
Notation "'exec' m 'then' k" := (bind m (fun _ => k))
  (at level 10, m at level 100, k at level 200) : async_scope.
Local Open Scope async_scope.

(** ** A JavaScript [Set] of strings: insertion ordered, no repetition *)

Module JsSet.

Definition t := list string.

Definition has (s : t) (x : string) : bool := existsb (String.eqb x) s.
Definition add (s : t) (x : string) : t := if has s x then s else s ++ [x].
Definition delete (s : t) (x : string) : t :=
  List.filter (fun y => negb (String.eqb x y)) s.
(** [new Set(array)] *)
Definition ofArray (l : list string) : t := fold_left add l [].
(** [Array.from(set)] *)
Definition toArray (s : t) : list string := s.
Definition size (s : t) : nat := length s.

End JsSet.

(** ** workspace.ts: data, platform, FileSearchProvider and Workspace *)

Record FileInfo := mkFileInfo { uri : string; modified : Z; size : Z }.

Record Folder := mkFolder { folder_uri : string; folder_name : string }.

(** An entry reported by fast-glob with [stats: true]. *)
Record FastGlobEntry := mkEntry { path : string; mtime : Z; entry_size : Z }.

(** The two dependency tables of a composer manifest, by their keys
    ([None]: the property is absent or falsy). *)
Record Composer := mkComposer {
  require : option (list string);
  require_dev : option (list string)
}.

(** What workspace.ts takes from Node and its packages.
    - [fs_readFile p]: the data, or the error [code] of the rejection;
    - [fg_async patterns cwd ignore matchBase]: the entries found, or
      [None] when the search rejects;
    - [parseComposer data]: [JSON.parse] and the reading of the two
      properties, [None] when that throws. *)
Record Platform := {
  win32 : bool;
  fs_readFile : string -> string + option string;
  fg_async : list string -> string -> list string -> bool -> option (list FastGlobEntry);
  parseComposer : string -> option Composer
}.

Definition VENDOR_TESTS_GLOB : string := "**/{test,tests,Test,Tests}/**".

Definition uriScheme (u : string) : string :=
  match indexOf u ":" 0 with
  | Some colonPos => slice u 0 colonPos
  | None => ""
  end.

(** [schemeFileSystemProvider(scheme)] is [LocalFileSystem] or [undefined]. *)
Definition schemeFileSystemProvider (scheme : string) : bool := String.eqb scheme "file".

Definition errorText (code : option string) : string :=
  match code with Some c => "Error: " +:+ c | None => "Error" end.

(** [LocalFileSystem.readFile]: a [URIError] of [uriToPath] is thrown
    before any promise exists; otherwise the promise of [fs.readFile]. *)
Definition LocalFileSystem_readFile {S} (pf : Platform) (u : string)
  : Async IoEvent S (string + option string) :=
  match LocalFileSystem.uriToPath (win32 pf) u with
  | None => throw URIError
  | Some p => exec emit (FsReadFile p) then ret (fs_readFile pf p)
  end.

(** The receiver [this] of a function body.  The functions of the
    namespace [FileSearchProvider] are declared with [function] and applied
    as [f(...)] in a strict-mode module, so inside them [this] is
    [undefined] -- [None] here -- and reading a property of it throws a
    [TypeError].  [Some r] is a receiver object carrying a [uri]. *)
Record Receiver := mkReceiver { this_uri : string }.

Definition noReceiver : JsError := TypeError "Cannot read property 'uri' of undefined".

Module FileSearchProvider.

(** The guard set shared by one discovery pass. *)
Definition Guard := JsSet.t.

Definition isFileGlob (glob : string) : bool :=
  match indexOf glob "/" 0 with Some _ => false | None => true end.

(** [packages.filter(v => ...)]: keeps the names not yet in the guard and
    adds them to it. *)
Fixpoint claimPackages (packages : list string) (guard : Guard)
  : list string * Guard :=
  match packages with
  | [] => ([], guard)
  | v :: rest =>
      if JsSet.has guard v then claimPackages rest guard
      else let '(kept, g) := claimPackages rest (JsSet.add guard v) in (v :: kept, g)
  end.

Definition vendorGlobs (packages associations : list string) : Async IoEvent Guard (list string) :=
  fun guard =>
    let bracedFilePattern :=
      "{" +:+ String.concat "," (List.filter isFileGlob associations) +:+ "}" in
    let '(kept, g) := claimPackages packages guard in
    (Resolved (map (fun v => v +:+ "/**/" +:+ bracedFilePattern) kept), g, []).

Definition readComposerPackages {S} (pf : Platform) (composerJsonUri : string)
  : Async IoEvent S (list string) :=
  if negb (schemeFileSystemProvider (uriScheme composerJsonUri)) then ret []
  else
    let* r := LocalFileSystem_readFile pf composerJsonUri in
    match r with
    | inl data =>
        match parseComposer pf data with
        | Some composer =>
            ret (default [] (require composer) ++ default [] (require_dev composer))
        | None => exec emit (LogWarn "SyntaxError") then ret []
        end
    | inr code =>
        if negb (bool_decide (code = Some "ENOENT"))
        then exec emit (LogWarn (errorText code)) then ret []
        else ret []
    end.

Definition findFilesTransform (pf : Platform) (entry : FastGlobEntry) : FileInfo :=
  mkFileInfo (LocalFileSystem.pathToUri (win32 pf) (path entry)) (mtime entry) (entry_size entry).

(** [fg.async(patterns, {stats, cwd, ignore, matchBase, transform}).catch(...)] *)
Definition search {S} (pf : Platform) (patterns : list string) (cwd : string)
           (ignore : list string) (matchBase : bool) : Async IoEvent S (list FileInfo) :=
  exec emit (FgSearch patterns cwd ignore matchBase) then
  match fg_async pf patterns cwd ignore matchBase with
  | Some entries => ret (map (findFilesTransform pf) entries)
  | None => exec emit (LogWarn "Error") then ret []
  end.

Definition findFilesInFolder (pf : Platform) (this : option Receiver)
           (folderUri : string) (associations exclude : list string)
           (useComposerJson : bool) : Async IoEvent Guard (list FileInfo) :=
  if negb (String.eqb (uriScheme folderUri) "file") then ret []
  else
    match this with
    | None => throw noReceiver
    | Some r =>
        match LocalFileSystem.uriToPath (win32 pf) (this_uri r) with
        | None => throw URIError
        | Some cwd =>
            let ignore := if useComposerJson then exclude ++ ["vendor/**"] else exclude in
            let* vendorFiles :=
              (if useComposerJson then
                 let* packages := readComposerPackages pf (folderUri +:+ "composer.json") in
                 if (length packages <? 1)%nat then ret []
                 else
                   let* globs := vendorGlobs packages associations in
                   search pf globs (Path.join cwd "vendor") [VENDOR_TESTS_GLOB] false
               else ret []) in
            let* srcFiles := search pf associations cwd ignore true in
            ret (vendorFiles ++ srcFiles)
        end
    end.

(** The loop of [findFiles]: each folder through [findFilesInFolder],
    applied as a plain function. *)
Fixpoint findFiles_from (pf : Platform) (folders : list Folder)
         (associations exclude : list string) (useComposerJson : bool)
  : Async IoEvent Guard (list FileInfo) :=
  match folders with
  | [] => ret []
  | f :: rest =>
      let* found :=
        findFilesInFolder pf None (folder_uri f) associations exclude useComposerJson in
      let* more := findFiles_from pf rest associations exclude useComposerJson in
      ret (found ++ more)
  end.

Definition findFiles (pf : Platform) (folders : list Folder)
           (associations exclude : list string) (useComposerJson : bool)
  : Outcome (list FileInfo) * list IoEvent :=
  settle (findFiles_from pf folders associations exclude useComposerJson) (JsSet.ofArray []).

End FileSearchProvider.

Module Workspace.

(** The object [folders], as its entries in key order. *)
Definition Folders := list Folder.

Definition endsWith (s : string) (c : ascii) : bool :=
  match rev (list_ascii_of_string s) with
  | d :: _ => Ascii.eqb c d
  | [] => false
  end.

Fixpoint assign (fs : Folders) (f : Folder) : Folders :=
  match fs with
  | [] => [f]
  | g :: rest =>
      if String.eqb (folder_uri g) (folder_uri f) then f :: rest else g :: assign rest f
  end.

Definition addFolder (folder : Folder) (fs : Folders) : Folders :=
  let folder :=
    if endsWith (folder_uri folder) "/" then folder
    else mkFolder (folder_uri folder +:+ "/") (folder_name folder) in
  assign fs folder.

Definition removeFolder (folder : Folder) (fs : Folders) : Folders :=
  List.filter (fun g => negb (String.eqb (folder_uri g) (folder_uri folder))) fs.

Definition folderArray (fs : Folders) : list Folder := fs.

Definition findFiles (pf : Platform) (fs : Folders) (associations exclude : list string)
           (useComposerJson : bool) : Outcome (list FileInfo) * list IoEvent :=
  FileSearchProvider.findFiles pf (folderArray fs) associations exclude useComposerJson.

Definition getDocument {S} (pf : Platform) (u : string)
  : Async IoEvent S (option TextDocumentItem) :=
  if negb (schemeFileSystemProvider (uriScheme u)) then ret None
  else
    let* r := LocalFileSystem_readFile pf u in
    match r with
    | inl data => ret (Some (mkDoc u "php" data 0))
    | inr code => exec emit (LogWarn (errorText code)) then ret None
    end.

End Workspace.

(** ** server.ts: the Indexer namespace *)

Record IndexResult := mkResult {
  totalFileCount : nat;
  indexedFileCount : nat;
  forgottenFileCount : nat;
  symbolCount : Z;
  (** [false] stands for the property being absent; the code only ever
      sets it to [true].  ([elapsed], a wall-clock reading, is left out.) *)
  wasCancelled : bool
}.

(** The settings the indexer reads through [getConfigValue]. *)
Record ServerConfig := mkConfig {
  files_maxSize : option Z;
  files_associations : option (list string);
  files_exclude : option (list string);
  indexer_useComposerJson : option bool
}.

(** [Intelephense.knownDocuments()] *)
Record KnownDocs := mkKnown { documents : list string; timestamp : Z }.

(** The engine, as far as the indexer consumes it. *)
Record Engine := {
  knownDocuments : KnownDocs;
  discoverSymbols : option TextDocumentItem -> Z
}.

(** The three functions of [Workspace] the indexer awaits, each with the
    settlement of its promise and the actions it performed. *)
Record WorkspaceApi := {
  ws_findFiles : list string -> list string -> bool -> Outcome (list FileInfo) * list IoEvent;
  ws_filterFiles :
    list string -> list string -> list string -> bool -> Outcome (list FileInfo) * list IoEvent;
  ws_getDocument : string -> Outcome (option TextDocumentItem) * list IoEvent
}.

Module Indexer.

(** Module-level state of server.ts seen by the indexer.
    - [indexing]: the [CancellationTokenSource] held by the variable of
      that name, by identity; [None] is [undefined];
    - [sources]: for every source created so far, in order of creation,
      whether [cancel()] was called on it; a source is identified by its
      position;
    - [config]: the variable [config];
    - [interrupts]: for each coming suspension of the running function,
      what another handler does to this state meanwhile. *)
Inductive Interruption :=
| NothingHappens
| CancelIndexingCalled
| RestartRequested
| ConfigurationChanged (settings : ServerConfig).

Record State := mkState {
  indexing : option nat;
  sources : list bool;
  config : option ServerConfig;
  interrupts : list Interruption
}.

Definition isIndexing (s : State) : bool :=
  match indexing s with Some _ => true | None => false end.

Definition getConfigValue {T} (field : ServerConfig -> option T) (defaultValue : T)
           (cfg : option ServerConfig) : T :=
  match cfg with
  | Some c => default defaultValue (field c)
  | None => defaultValue
  end.

Definition cancelIndexing_now (s : State) : State :=
  match indexing s with
  | None => s
  | Some src => mkState None (<[src := true]> (sources s)) (config s) (interrupts s)
  end.

Definition cancelIndexing : Async Event State unit := modify cancelIndexing_now.

(** [token.isCancellationRequested] *)
Definition isCancellationRequested (token : nat) (s : State) : bool :=
  default false (sources s !! token).

(** [indexing = new CancellationTokenSource(); token = indexing.token] *)
Definition newTokenSource : Async Event State nat :=
  fun s =>
    (Resolved (length (sources s)),
     mkState (Some (length (sources s))) (sources s ++ [false]) (config s) (interrupts s),
     []).

(** [associations = getConfigValue('files.associations', []);
     associations.push('*.php')]: the array of the configuration itself
    is extended when there is one. *)
Definition associationsWithPhp : Async Event State (list string) :=
  fun s =>
    match config s with
    | Some c =>
        match files_associations c with
        | Some l =>
            let l' := l ++ ["*.php"] in
            (Resolved l',
             mkState (indexing s) (sources s)
               (Some (mkConfig (files_maxSize c) (Some l') (files_exclude c)
                        (indexer_useComposerJson c)))
               (interrupts s),
             [])
        | None => (Resolved ["*.php"], s, [])
        end
    | None => (Resolved ["*.php"], s, [])
    end.

(** The state a computation leaves. *)
Definition stateAfter {A} (m : Async Event State A) (s : State) : State := snd (fst (m s)).

(** What a handler running during a suspension does to the state:
    - a call of [cancelIndexing()];
    - [onDidChangeWorkspaceFolders] calling [indexWorkspace(true)], as far
      as that call gets before it is suspended itself: the active run is
      cancelled, a new token source is installed, the associations of the
      configuration are extended;
    - [onDidChangeConfiguration] assigning [config]. *)
Definition interruption (i : Interruption) (s : State) : State :=
  match i with
  | NothingHappens => s
  | CancelIndexingCalled => cancelIndexing_now s
  | RestartRequested =>
      stateAfter associationsWithPhp (stateAfter newTokenSource (cancelIndexing_now s))
  | ConfigurationChanged settings =>
      mkState (indexing s) (sources s) (Some settings) (interrupts s)
  end.

(** The running function is suspended; other handlers may run. *)
Definition suspend : Async Event State unit :=
  fun s =>
    match interrupts s with
    | [] => (Resolved tt, s, [])
    | i :: rest =>
        (Resolved tt,
         interruption i (mkState (indexing s) (sources s) (config s) rest), [])
    end.

(** [await p] *)
Definition await {A} (p : Async Event State A) : Async Event State A :=
  let* a := p in exec suspend then ret a.

Definition forget (u : string) : Async Event State unit := emit (EngForget u).

Definition discover (eng : Engine) (doc : option TextDocumentItem) : Async Event State Z :=
  exec emit (EngDiscoverSymbols doc) then ret (discoverSymbols eng doc).

Definition getDocument (ws : WorkspaceApi) (u : string)
  : Async Event State (option TextDocumentItem) :=
  exec emit (WsGetDocument u) then stateless (ws_getDocument ws u).

Fixpoint forgetFiles (uriArray : list string) : Async Event State unit :=
  match uriArray with
  | [] => ret tt
  | u :: rest => exec await (forget u) then forgetFiles rest
  end.

(** Lines 528-532: read the document and hand it to the engine. *)
Definition readAndDiscover (ws : WorkspaceApi) (eng : Engine) (file : FileInfo)
           (result : IndexResult) : Async Event State IndexResult :=
  let* doc := await (getDocument ws (uri file)) in
  match doc with
  | Some d =>
      let* n := await (discover eng (Some d)) in
      ret (mkResult (totalFileCount result) (S (indexedFileCount result))
             (forgottenFileCount result) (symbolCount result + n) (wasCancelled result))
  | None => ret result
  end.

Definition overMaxWarning (u : string) : string :=
  u +:+ " not opened -- over max file size.".

(** The [for] loop of [indexWorkspace] over the files still to visit. *)
Fixpoint walk (ws : WorkspaceApi) (eng : Engine) (token : nat)
         (timestamp maxFileSize : Z) (files : list FileInfo)
         (known : JsSet.t) (result : IndexResult)
  : Async Event State (JsSet.t * IndexResult) :=
  match files with
  | [] => ret (known, result)
  | file :: rest =>
      let* s := getState in
      if isCancellationRequested token s then ret (known, result)
      else if JsSet.has known (uri file) then
        let known := JsSet.delete known (uri file) in
        if modified file <? timestamp
        then walk ws eng token timestamp maxFileSize rest known result
        else
          let* result := readAndDiscover ws eng file result in
          walk ws eng token timestamp maxFileSize rest known result
      else if size file >? maxFileSize then
        exec emit (Io (LogWarn (overMaxWarning (uri file)))) then
        walk ws eng token timestamp maxFileSize rest known result
      else
        let* result := readAndDiscover ws eng file result in
        walk ws eng token timestamp maxFileSize rest known result
  end.

Definition emptyResult : IndexResult := mkResult 0 0 0 0 false.

Definition markCancelled (r : IndexResult) : IndexResult :=
  mkResult (totalFileCount r) (indexedFileCount r) (forgottenFileCount r) (symbolCount r) true.

(** Lines 498-544: a run, from the creation of its token source on. *)
Definition run (ws : WorkspaceApi) (eng : Engine) (result : IndexResult)
  : Async Event State IndexResult :=
  let* token := newTokenSource in
  exec emit EngKnownDocuments then
  let knownDocs := knownDocuments eng in
  let known := JsSet.ofArray (documents knownDocs) in
  let* s := getState in
  let maxFileSize := getConfigValue files_maxSize 1000000 (config s) in
  let* associations := associationsWithPhp in
  let* s := getState in
  let exclude := getConfigValue files_exclude [] (config s) in
  let useComposerJson := getConfigValue indexer_useComposerJson true (config s) in
  let patterns := JsSet.toArray (JsSet.ofArray associations) in
  let* files :=
    await (exec emit (WsFindFiles patterns exclude useComposerJson) then
           stateless (ws_findFiles ws patterns exclude useComposerJson)) in
  let* '(known, result) :=
    walk ws eng token (timestamp knownDocs) maxFileSize files known result in
  let result :=
    mkResult (totalFileCount result) (indexedFileCount result) (JsSet.size known)
      (symbolCount result) (wasCancelled result) in
  let* s := getState in
  exec (if negb (isCancellationRequested token s) && (0 <? forgottenFileCount result)%nat
        then await (forgetFiles (JsSet.toArray known))
        else ret tt) then
  let* s := getState in
  ret (if isCancellationRequested token s then markCancelled result else result).

Definition indexWorkspace (ws : WorkspaceApi) (eng : Engine) (restartIfInProgress : bool)
  : Async Event State IndexResult :=
  let result := emptyResult in
  let* s := getState in
  if isIndexing s then
    if negb restartIfInProgress then ret (markCancelled result)
    else exec cancelIndexing then run ws eng result
  else run ws eng result.

(** The loop of [indexFiles]. *)
Fixpoint indexEach (ws : WorkspaceApi) (eng : Engine) (maxFileSize : Z)
         (files : list FileInfo) : Async Event State unit :=
  match files with
  | [] => ret tt
  | file :: rest =>
      exec (if size file <=? maxFileSize then
              let* doc := await (getDocument ws (uri file)) in
              exec await (discover eng doc) then ret tt
            else ret tt) then
      indexEach ws eng maxFileSize rest
  end.

Definition indexFiles (ws : WorkspaceApi) (eng : Engine) (uriArray : list string)
  : Async Event State unit :=
  let* s := getState in
  let maxFileSize := getConfigValue files_maxSize 1000000 (config s) in
  let associations := getConfigValue files_associations ["*.php"] (config s) in
  let exclude := getConfigValue files_exclude [] (config s) in
  let useComposerJson := getConfigValue indexer_useComposerJson true (config s) in
  let* files :=
    await (exec emit (WsFilterFiles uriArray associations exclude useComposerJson) then
           stateless (ws_filterFiles ws uriArray associations exclude useComposerJson)) in
  indexEach ws eng maxFileSize files.

End Indexer.

(** ** The server's wiring and notions used to state properties *)

(** The workspace layer as server.ts reaches it: [Workspace.findFiles] and
    [Workspace.getDocument] over the platform and the registered folders.
    ([Workspace.filterFiles] rests on micromatch and stays a parameter.) *)
Definition serverWorkspace (pf : Platform) (folders : Workspace.Folders)
           (filterFiles : list string -> list string -> list string -> bool ->
                          Outcome (list FileInfo) * list IoEvent)
  : WorkspaceApi :=
  {| ws_findFiles := Workspace.findFiles pf folders;
     ws_filterFiles := filterFiles;
     ws_getDocument := fun u => settle (Workspace.getDocument pf u) tt |}.

(** The call of [Workspace.findFiles] a run makes under configuration [cfg]. *)
Definition discovery (ws : WorkspaceApi) (cfg : option ServerConfig)
  : Outcome (list FileInfo) * list IoEvent :=
  let associations := Indexer.getConfigValue files_associations [] cfg ++ ["*.php"] in
  ws_findFiles ws (JsSet.toArray (JsSet.ofArray associations))
    (Indexer.getConfigValue files_exclude [] cfg)
    (Indexer.getConfigValue indexer_useComposerJson true cfg).

(** The uris the engine was told to forget, in order. *)
Fixpoint forgotten (evs : list Event) : list string :=
  match evs with
  | [] => []
  | EngForget u :: rest => u :: forgotten rest
  | _ :: rest => forgotten rest
  end.

(** The uris read through [Workspace.getDocument], in order. *)
Fixpoint documentsRead (evs : list Event) : list string :=
  match evs with
  | [] => []
  | WsGetDocument u :: rest => u :: documentsRead rest
  | _ :: rest => documentsRead rest
  end.

(** The documents submitted to [Intelephense.discoverSymbols], in order. *)
Fixpoint submitted (evs : list Event) : list (option TextDocumentItem) :=
  match evs with
  | [] => []
  | EngDiscoverSymbols d :: rest => d :: submitted rest
  | _ :: rest => submitted rest
  end.

Fixpoint allChars (f : ascii -> bool) (s : string) : bool :=
  match s with
  | EmptyString => true
  | String c s' => f c && allChars f s'
  end.

(** A relation between the state before a computation, the state after it
    and the actions in between, that every run of the computation obeys. *)
Definition respects {E S A} (R : S -> S -> list E -> Prop) (m : Async E S A) : Prop :=
  forall s r s' evs, m s = (r, s', evs) -> R s s' evs.

(** Cancellation requests persist, and the state only moves when some
    other handler gets to run. *)
Definition persistent (s s' : Indexer.State) (evs : list Event) : Prop :=
  (forall t, Indexer.isCancellationRequested t s = true ->
             Indexer.isCancellationRequested t s' = true)
  /\ (Indexer.interrupts s = [] -> s' = s).

(** The same, and moreover nothing is forgotten. *)
Definition calm (s s' : Indexer.State) (evs : list Event) : Prop :=
  persistent s s' evs /\ forgotten evs = [].

(** Every document read satisfies [P]. *)
Definition readsOnly (P : string -> Prop) (s s' : Indexer.State) (evs : list Event) : Prop :=
  Forall P (documentsRead evs).

(** What [indexWorkspace] lets through: a file within the ceiling, or one
    the engine knew at the start of the run. *)
Definition admitted (maxFileSize : Z) (files : list FileInfo) (known : JsSet.t)
           (u : string) : Prop :=
  exists file, file ∈ files /\ uri file = u /\ (size file <= maxFileSize \/ u ∈ known).

(** ** Concrete worlds *)

Module Scenario.

Import Indexer.

Definition idle : State := mkState None [] None [].

(** A platform holding the listed files and nothing else; the glob
    search is given separately. *)
Definition platformOf (stored : list (string * string))
           (fg : list string -> string -> list string -> bool -> option (list FastGlobEntry))
           (parser : string -> option Composer) : Platform :=
  {| win32 := false;
     fs_readFile := fun p =>
       match Fs.lookupFile stored p with
       | Some d => inl d
       | None => inr (Some "ENOENT")
       end;
     fg_async := fg;
     parseComposer := parser |}.

Definition noFilter (_ _ _ : list string) (_ : bool)
  : Outcome (list FileInfo) * list IoEvent := (Resolved [], []).

(** One file, already known to the engine, changed at the snapshot
    instant and one byte over the default ceiling. *)
Definition bigFile : FileInfo := mkFileInfo "file:///w/big.php" 100 1000001.
Definition bigPlatform : Platform :=
  platformOf [("/w/big.php", "<?php")] (fun _ _ _ _ => Some []) (fun _ => None).
Definition bigWorkspace : WorkspaceApi :=
  {| ws_findFiles := fun _ _ _ => (Resolved [bigFile], []);
     ws_filterFiles := noFilter;
     ws_getDocument := fun u => settle (Workspace.getDocument bigPlatform u) tt |}.
Definition bigEngine : Engine :=
  {| knownDocuments := mkKnown ["file:///w/big.php"] 100;
     discoverSymbols := fun _ => 7 |}.

(** A workspace layer whose discovery finds nothing. *)
Definition emptyWorkspace : WorkspaceApi :=
  {| ws_findFiles := fun _ _ _ => (Resolved [], []);
     ws_filterFiles := noFilter;
     ws_getDocument := fun _ => (Resolved None, []) |}.
Definition freshEngine : Engine :=
  {| knownDocuments := mkKnown [] 0; discoverSymbols := fun _ => 0 |}.

(** Discovery finds a.php (new) and b.php (known, unchanged); the engine
    also knows gone.php and old.php, which discovery no longer finds. *)
Definition diffWorkspace : WorkspaceApi :=
  {| ws_findFiles := fun _ _ _ =>
       (Resolved [mkFileInfo "file:///w/a.php" 50 10; mkFileInfo "file:///w/b.php" 20 10], []);
     ws_filterFiles := noFilter;
     ws_getDocument := fun u => (Resolved (Some (mkDoc u "php" "<?php" 0)), []) |}.
Definition diffEngine : Engine :=
  {| knownDocuments :=
       mkKnown ["file:///w/gone.php"; "file:///w/b.php"; "file:///w/old.php"] 30;
     discoverSymbols := fun _ => 3 |}.

(** One folder /w without composer.json holding a.php and b.php. *)
Definition twoFiles (patterns : list string) (cwd : string) (ignore : list string)
           (matchBase : bool) : option (list FastGlobEntry) :=
  if String.eqb cwd "/w/"
  then Some [mkEntry "/w/a.php" 10 120; mkEntry "/w/b.php" 11 340]
  else Some [].
Definition twoFilePlatform : Platform :=
  platformOf [("/w/a.php", "<?php a"); ("/w/b.php", "<?php bb")] twoFiles (fun _ => None).
Definition twoFileFolders : Workspace.Folders :=
  Workspace.addFolder (mkFolder "file:///w" "w") [].
(** An engine that knows nothing and reports one symbol per character. *)
Definition countingEngine : Engine :=
  {| knownDocuments := mkKnown [] 0;
     discoverSymbols := fun doc =>
       match doc with
       | Some d => Z.of_nat (String.length (text d))
       | None => 0
       end |}.
(** The workspace layer over the same platform, were [findFilesInFolder]
    applied with the folder as its receiver. *)
Definition boundWorkspace : WorkspaceApi :=
  {| ws_findFiles := fun associations exclude useComposerJson =>
       settle (FileSearchProvider.findFilesInFolder twoFilePlatform
                 (Some (mkReceiver "file:///w/")) "file:///w/" associations exclude
                 useComposerJson) (JsSet.ofArray []);
     ws_filterFiles := noFilter;
     ws_getDocument := fun u => settle (Workspace.getDocument twoFilePlatform u) tt |}.

(** A stand-in for JSONStream that handles the empty array only. *)
Definition emptyArrayCodec : Cache.JSONStream :=
  {| Cache.stringify := fun _ => "[]";
     Cache.parse := fun d =>
       if String.eqb d "[]" then ([], None) else ([], Some "Invalid JSON") |}.

Definition tmpCache : Cache.Cache := Cache.mkCache "/tmp/c".
Definition tmpFs : Fs.FsState := Fs.mkFs [] ["/tmp"; "/tmp/c"].

End Scenario.

(** ** Further notions: characters, paths and uris *)

(** A character of the ASCII range. *)
Definition isAsciiChar (c : ascii) : bool := (code c <? 128)%nat.

Definition notChar (d : ascii) (c : ascii) : bool := negb (Ascii.eqb c d).

(** [x[0].toLowerCase() + x.slice(1)] *)
Definition lowerFirst (s : string) : string :=
  match s with
  | String c r => String (toLowerCase_char c) r
  | EmptyString => EmptyString
  end.

(** ** Further notions: the folder table *)

(** The folder as [addFolder] stores it. *)
Definition storedFolder (folder : Folder) : Folder :=
  if Workspace.endsWith (folder_uri folder) "/" then folder
  else mkFolder (folder_uri folder +:+ "/") (folder_name folder).

(** The body of the [onDidChangeWorkspaceFolders] handler, as far as the
    folder table goes: the added folders are registered, then the removed
    ones dropped. *)
Definition changeWorkspaceFolders (added removed : list Folder) (fs : Workspace.Folders)
  : Workspace.Folders :=
  fold_left (fun acc f => Workspace.removeFolder f acc) removed
    (fold_left (fun acc f => Workspace.addFolder f acc) added fs).

(** The folder table after [onInitialize] registered [initial] and a
    series of change notifications arrived. *)
Definition folderTable (initial : list Folder) (changes : list (list Folder * list Folder))
  : Workspace.Folders :=
  fold_left (fun acc ch => changeWorkspaceFolders (fst ch) (snd ch) acc) changes
    (fold_left (fun acc f => Workspace.addFolder f acc) initial []).

(** Every uri ends with a slash and no uri occurs twice. *)
Definition tableInvariant (fs : Workspace.Folders) : Prop :=
  Forall (fun g => Workspace.endsWith (folder_uri g) "/" = true) fs
  /\ NoDup (map folder_uri fs).

(** ** Further notions: discovery *)

(** The glob [vendorGlobs] builds for one package. *)
Definition vendorGlob (associations : list string) (package : string) : string :=
  package +:+ "/**/" +:+
  ("{" +:+ String.concat "," (List.filter FileSearchProvider.isFileGlob associations) +:+ "}").

(** ** Further notions: the indexer's actions *)

(** The symbol counts the engine returns for the documents submitted. *)
Definition symbolsOf (eng : Engine) (docs : list (option TextDocumentItem)) : Z :=
  fold_right (fun d acc => discoverSymbols eng d + acc) 0 docs.

(** What [Workspace.getDocument] resolves to for [u]. *)
Definition documentAt (ws : WorkspaceApi) (u : string) : option TextDocumentItem :=
  match fst (ws_getDocument ws u) with
  | Resolved d => d
  | Rejected _ => None
  end.

(** The files [indexFiles] lets through. *)
Definition withinCeiling (maxFileSize : Z) (files : list FileInfo) : list FileInfo :=
  List.filter (fun f => size f <=? maxFileSize) files.

(** What the loop of [indexWorkspace] lets through: a file within the
    ceiling, or one the engine knew at the start of the run that is not
    older than the engine's snapshot. *)
Definition admittedAt (maxFileSize timestamp : Z) (files : list FileInfo) (known : JsSet.t)
           (u : string) : Prop :=
  exists file, file ∈ files /\ uri file = u
               /\ (size file <= maxFileSize \/ (u ∈ known /\ timestamp <= modified file)).

(** Cancellation requests are never withdrawn. *)
Definition cancellationsKept (s s' : Indexer.State) (evs : list Event) : Prop :=
  forall t, Indexer.isCancellationRequested t s = true ->
            Indexer.isCancellationRequested t s' = true.

(** ** Further worlds *)

Module Cases.

Import Indexer.

(** The filter lets three changed files through: a.php, which can be
    read; gone.php, which cannot; and huge.php, over the default ceiling. *)
Definition changedFiles : list FileInfo :=
  [mkFileInfo "file:///w/a.php" 50 10; mkFileInfo "file:///w/gone.php" 51 10;
   mkFileInfo "file:///w/huge.php" 52 1000001].
Definition watchedWorkspace : WorkspaceApi :=
  {| ws_findFiles := fun _ _ _ => (Resolved [], []);
     ws_filterFiles := fun _ _ _ _ => (Resolved changedFiles, []);
     ws_getDocument := fun u =>
       if String.eqb u "file:///w/a.php"
       then (Resolved (Some (mkDoc u "php" "<?php" 0)), [])
       else (Resolved None, [LogWarn "ENOENT"]) |}.

(** Discovery finds exactly the two files the engine knows, both older
    than its snapshot. *)
Definition settledWorkspace : WorkspaceApi :=
  {| ws_findFiles := fun _ _ _ =>
       (Resolved [mkFileInfo "file:///w/a.php" 10 10; mkFileInfo "file:///w/b.php" 20 10], []);
     ws_filterFiles := Scenario.noFilter;
     ws_getDocument := fun u => (Resolved (Some (mkDoc u "php" "<?php" 0)), []) |}.
Definition settledEngine : Engine :=
  {| knownDocuments := mkKnown ["file:///w/b.php"; "file:///w/a.php"] 30;
     discoverSymbols := fun _ => 3 |}.

(** A JSON codec for arrays of the atoms null, true, false and the
    integers, in the layout of [stringify('[', ',', ']')]. *)
Fixpoint decimal_aux (fuel n : nat) (acc : string) : string :=
  match fuel with
  | O => acc
  | S fuel' =>
      let acc' := String (ascii_of_nat (48 + n mod 10)) acc in
      if (n <? 10)%nat then acc' else decimal_aux fuel' (n / 10) acc'
  end.
Definition decimal (n : nat) : string := decimal_aux (S n) n "".

Definition atomText (j : Cache.Json) : string :=
  match j with
  | Cache.JBool true => "true"
  | Cache.JBool false => "false"
  | Cache.JNum n =>
      if 0 <=? n then decimal (Z.to_nat n) else "-" +:+ decimal (Z.to_nat (- n))
  | _ => "null"
  end.

Fixpoint naturalOf (s : string) (acc : nat) : option nat :=
  match s with
  | EmptyString => Some acc
  | String c rest =>
      if isDigit c then naturalOf rest (10 * acc + (code c - 48))%nat else None
  end.

Definition atomOf (s : string) : option Cache.Json :=
  if String.eqb s "null" then Some Cache.JNull
  else if String.eqb s "true" then Some (Cache.JBool true)
  else if String.eqb s "false" then Some (Cache.JBool false)
  else match s with
       | EmptyString => None
       | String c rest =>
           if Ascii.eqb c "-"
           then match rest with
                | EmptyString => None
                | _ => option_map (fun n => Cache.JNum (- Z.of_nat n)) (naturalOf rest 0)
                end
           else option_map (fun n => Cache.JNum (Z.of_nat n)) (naturalOf s 0)
       end.

(** The texts between the commas of what follows the opening bracket. *)
Fixpoint fields (s cur : string) : option (list string) :=
  match s with
  | EmptyString => None
  | String c rest =>
      if Ascii.eqb c "]" then (if String.eqb rest "" then Some [cur] else None)
      else if Ascii.eqb c "," then option_map (cons cur) (fields rest "")
      else fields rest (cur +:+ String c "")
  end.

Fixpoint atomsOf (texts : list string) : option (list Cache.Json) :=
  match texts with
  | [] => Some []
  | t :: rest =>
      match atomOf t, atomsOf rest with
      | Some j, Some js => Some (j :: js)
      | _, _ => None
      end
  end.

Definition atomCodec : Cache.JSONStream :=
  {| Cache.stringify := fun items => "[" +:+ String.concat "," (map atomText items) +:+ "]";
     Cache.parse := fun d =>
       match d with
       | String c rest =>
           if Ascii.eqb c "[" then
             match fields rest "" with
             | Some [EmptyString] => ([], None)
             | Some texts =>
                 match atomsOf texts with
                 | Some items => (items, None)
                 | None => ([], Some "Invalid JSON")
                 end
             | None => ([], Some "Invalid JSON")
             end
           else ([], Some "Invalid JSON")
       | EmptyString => ([], None)
       end |}.

(** A run is active under the first token source. *)
Definition busy : State := mkState (Some 0%nat) [false] None [].

(** Nothing is active and the client configured one association. *)
Definition configured : State :=
  mkState None [] (Some (mkConfig None (Some ["*.inc"]) None None)) [].

(** Nothing is active; [cancelIndexing] is called during the first
    suspension of whatever runs next. *)
Definition cancelledEarly : State := mkState None [] None [CancelIndexingCalled].

End Cases.

(** ** server.ts: hash32 and cacheDir *)

Module Server.

(** [x | 0]: the signed 32-bit integer congruent to [x]. *)
Definition toInt32 (x : Z) : Z := (x + 2 ^ 31) mod 2 ^ 32 - 2 ^ 31.

(** [a << n] *)
Definition shl (a n : Z) : Z := toInt32 (Z.shiftl (toInt32 a) n).

(** [text.charCodeAt(i)] for every [i], each character of the text being
    one code unit. *)
Definition charCodes (text : string) : list Z :=
  map (fun c => Z.of_nat (code c)) (list_ascii_of_string text).

(** The loop of [hash32] over the code units still to come. *)
Fixpoint hash32_loop (hash : Z) (units : list Z) : Z :=
  match units with
  | [] => hash
  | chr :: rest => hash32_loop (toInt32 ((shl hash 5 - hash) + chr)) rest
  end.

Definition hash32 (text : string) : Z := hash32_loop 0 (charCodes text).

Definition hexLower (d : Z) : ascii :=
  if d <? 10 then ascii_of_nat (48 + Z.to_nat d) else ascii_of_nat (87 + Z.to_nat d).

Fixpoint toString16_aux (fuel : nat) (n : Z) (acc : string) : string :=
  match fuel with
  | O => acc
  | S fuel' =>
      let acc' := String (hexLower (n mod 16)) acc in
      if n <? 16 then acc' else toString16_aux fuel' (n / 16) acc'
  end.

(** [n.toString(16)] for an integer [n >= 0]. *)
Definition toString16 (n : Z) : string := toString16_aux (S (Z.to_nat (Z.log2 n))) n "".

Definition cacheDir (folders : list Folder) : string :=
  let concat := fold_left (fun last current => last +:+ folder_uri current) folders "" in
  toString16 (Z.abs (hash32 concat)).

End Server.

(** The polynomial over the code units with base 31, as an unbounded
    integer. *)
Definition polynomial31 (units : list Z) : Z :=
  fold_left (fun h chr => 31 * h + chr) units 0.

(** The number a string of hexadecimal digits denotes ([None]: some
    character is no such digit). *)
Fixpoint hexNumber_from (acc : Z) (s : string) : option Z :=
  match s with
  | EmptyString => Some acc
  | String c rest =>
      match hexValue c with
      | Some d => hexNumber_from (16 * acc + Z.of_nat d) rest
      | None => None
      end
  end.
Definition hexNumber (s : string) : option Z := hexNumber_from 0 s.

Definition isLowerHexDigit (c : ascii) : bool :=
  isDigit c || ((97 <=? code c)%nat && (code c <=? 102)%nat).

(** * Properties *)
(** ** LocalFileSystem: uri and path conversions *)

Section UriRoundTrip.

Import LocalFileSystem.

Lemma unchanged_is_not_percent (c : ascii) :
  uriUnchanged c = true -> Ascii.eqb c percent = false.
Proof.
  intros H. destruct (Ascii.eqb_spec c percent) as [->|]; [|reflexivity].
  vm_compute in H. discriminate H.
Qed.

Lemma encodeURI_unchanged (s : string) :
  allChars uriUnchanged s = true -> encodeURI s = s.
Proof.
  induction s as [|c s IH]; simpl; [reflexivity|].
  intros [Hc Hs]%andb_true_iff. rewrite Hc. f_equal. auto.
Qed.

Lemma decodeURI_unchanged (s : string) :
  allChars uriUnchanged s = true -> decodeURI s = Some s.
Proof.
  unfold decodeURI. induction s as [|c s IH]; simpl; [reflexivity|].
  intros [Hc Hs]%andb_true_iff.
  rewrite (unchanged_is_not_percent c Hc), (IH Hs). reflexivity.
Qed.

Lemma file_prefix_unchanged (p : string) :
  allChars uriUnchanged p = true -> allChars uriUnchanged ("file://" +:+ p) = true.
Proof. intros H. simpl. exact H. Qed.

Lemma pathToUri_absolute (p : string) :
  startsWithSlash p = true -> startsWithTwoSlashes p = false ->
  pathToUri false p = encodeURI ("file://" +:+ p).
Proof.
  intros H1 H2. unfold pathToUri. destruct p as [|c p]; [discriminate H1|].
  simpl String.eqb. cbv iota. rewrite H2, H1. reflexivity.
Qed.

Lemma uriToPath_file (p : string) :
  allChars uriUnchanged p = true ->
  startsWithSlash p = true ->
  uriToPath false ("file://" +:+ p) =
    Some (if SLASH_DRIVE_PATTERN p then slice_from p 1 else p).
Proof.
  intros Hp Hs. unfold uriToPath.
  rewrite (decodeURI_unchanged _ (file_prefix_unchanged p Hp)).
  destruct p as [|c p]; [discriminate Hs|].
  replace (strlen ("file://" +:+ String c p) <? 8) with false.
  2:{ symmetry. apply Z.ltb_ge. unfold strlen. simpl String.length. lia. }
  change (slice ("file://" +:+ String c p) 0 7) with "file://".
  change (slice_from ("file://" +:+ String c p) 7) with (String c p).
  simpl negb. simpl orb. cbv iota.
  simpl in Hs. rewrite Hs. simpl negb. cbv iota.
  destruct (SLASH_DRIVE_PATTERN (String c p)); reflexivity.
Qed.

End UriRoundTrip.

(** C10, as stated, fails: "/c:/x" is a non-empty absolute POSIX path that
    starts with one slash only and consists of characters [encodeURI] and
    [decodeURI] leave alone, yet [uriToPath (pathToUri "/c:/x")] is
    "c:/x": the slash before what looks like a drive letter is dropped on
    every platform. *)
Lemma C10_round_trip_fails_on_slash_drive :
  ~ (forall p : string,
       p <> "" ->
       LocalFileSystem.startsWithSlash p = true ->
       LocalFileSystem.startsWithTwoSlashes p = false ->
       allChars uriUnchanged p = true ->
       LocalFileSystem.uriToPath false (LocalFileSystem.pathToUri false p) = Some p).
Proof.
  intros H. specialize (H "/c:/x").
  assert (Hx : LocalFileSystem.uriToPath false (LocalFileSystem.pathToUri false "/c:/x")
               = Some "c:/x") by (vm_compute; reflexivity).
  rewrite Hx in H.
  assert (Hc : Some "c:/x" = Some "/c:/x") by (apply H; [discriminate | reflexivity ..]).
  discriminate Hc.
Qed.

(** C10, amended: on a non-Windows platform, for every non-empty absolute
    POSIX path [p] that begins with '/' but not '//', does not begin with
    '/', a letter and ':' and contains only characters left unchanged by
    [encodeURI] and [decodeURI], [uriToPath (pathToUri p) = p]; and
    [pathToUri] of a relative path (no leading '/', no leading drive
    letter) is the empty string. *)
Theorem C10_uri_round_trip :
  (forall p : string,
      p <> "" ->
      LocalFileSystem.startsWithSlash p = true ->
      LocalFileSystem.startsWithTwoSlashes p = false ->
      LocalFileSystem.SLASH_DRIVE_PATTERN p = false ->
      allChars uriUnchanged p = true ->
      LocalFileSystem.uriToPath false (LocalFileSystem.pathToUri false p) = Some p)
  /\
  (forall p : string,
      LocalFileSystem.startsWithSlash p = false ->
      LocalFileSystem.DRIVE_PATTERN p = false ->
      LocalFileSystem.pathToUri false p = "").
Proof.
  split.
  - intros p _ Hs Hss Hd Hu.
    rewrite (pathToUri_absolute p Hs Hss).
    rewrite (encodeURI_unchanged _ (file_prefix_unchanged p Hu)).
    rewrite (uriToPath_file p Hu Hs), Hd. reflexivity.
  - intros p Hs Hd. unfold LocalFileSystem.pathToUri.
    destruct p as [|c p]; [reflexivity|].
    simpl String.eqb. cbv iota.
    replace (LocalFileSystem.startsWithTwoSlashes (String c p)) with false.
    2:{ symmetry. destruct p; simpl in *; [reflexivity|]. rewrite Hs. reflexivity. }
    rewrite Hs, Hd. reflexivity.
Qed.

Lemma C10_uri_round_trip_witness :
  LocalFileSystem.uriToPath false (LocalFileSystem.pathToUri false "/home/dev/app/index.php")
    = Some "/home/dev/app/index.php"
  /\ LocalFileSystem.pathToUri false "src/index.php" = "".
Proof.
  destruct C10_uri_round_trip as [Habs Hrel]. split.
  - apply Habs; [discriminate | reflexivity ..].
  - apply Hrel; reflexivity.
Defined.

(** ** Cache *)

Section CacheFacts.

Import Fs Cache.

Lemma lookupFile_absent (l : list (string * string)) (p : string) :
  existsb (fun e => String.eqb (fst e) p) l = false -> lookupFile l p = None.
Proof.
  induction l as [|[q d] l IH]; simpl; [reflexivity|].
  intros [Hq Hl]%orb_false_iff. rewrite Hq. auto.
Qed.

Lemma createReadStream_missing (fs : FsState) (p : string) :
  isFile fs p = false -> isDir fs p = false ->
  createReadStream fs p = ReadFail (Some "ENOENT").
Proof.
  intros Hf Hd. unfold createReadStream. rewrite Hd.
  rewrite (lookupFile_absent _ _ Hf). reflexivity.
Qed.

Lemma isFile_after_write (fs fs' : FsState) (p data : string) :
  writeFile fs p data = inr fs' -> isFile fs' p = true.
Proof.
  unfold writeFile. destruct (isDir fs p); [discriminate|].
  destruct (negb (dirExists fs (dirname p))); [discriminate|].
  intros [= <-]. unfold isFile. simpl. rewrite String.eqb_refl. reflexivity.
Qed.

Lemma dirs_after_write (fs fs' : FsState) (p data : string) :
  writeFile fs p data = inr fs' -> dirs fs' = dirs fs.
Proof.
  unfold writeFile. destruct (isDir fs p); [discriminate|].
  destruct (negb (dirExists fs (dirname p))); [discriminate|].
  intros [= <-]. reflexivity.
Qed.

Lemma existsb_filter_keep {A} (f g : A -> bool) (l : list A) :
  (forall x, f x = true -> g x = true) ->
  existsb f (List.filter g l) = existsb f l.
Proof.
  intros Hfg. induction l as [|x l IH]; simpl; [reflexivity|].
  destruct (g x) eqn:Hg; simpl.
  - rewrite IH. reflexivity.
  - rewrite IH. destruct (f x) eqn:Hf; [|reflexivity].
    rewrite (Hfg x Hf) in Hg. discriminate Hg.
Qed.

(** [fs.remove q] leaves alone whatever is not [q] or below it. *)
Lemma isFile_after_remove (fs : FsState) (q p : string) :
  Path.within q p = false -> isFile (remove fs q) p = isFile fs p.
Proof.
  intros Hout. unfold isFile, remove. simpl.
  apply existsb_filter_keep. intros [x d] Hx. simpl in *.
  apply String.eqb_eq in Hx. subst x. rewrite Hout. reflexivity.
Qed.

Lemma isDir_after_remove (fs : FsState) (q p : string) :
  Path.within q p = false -> isDir (remove fs q) p = isDir fs p.
Proof.
  intros Hout. unfold isDir, remove. simpl.
  apply existsb_filter_keep. intros x Hx.
  apply String.eqb_eq in Hx. subst x. rewrite Hout. reflexivity.
Qed.

End CacheFacts.

(** C8 (the code departs from it): [dispose] removes the path
    [pathFromKey dir] -- the directory name taken as a key, that is
    [dir/dir.json] -- and not the directory.  Hence a backing file written
    through [put] is still there after [dispose], and so is the directory,
    unless they happen to lie at or below that path. *)
Theorem C8_dispose_keeps_directory_and_files :
  forall (js : Cache.JSONStream) (c : Cache.Cache) (key : string)
         (data : list Cache.Json) (fate : Fs.StreamFate) (fs fs1 : Fs.FsState),
    Fs.isDir fs (Cache.dir c) = true ->
    Cache.put js c key data fate fs = (Resolved tt, fs1) ->
    Path.within (Cache.pathFromKey c (Cache.dir c)) (Cache.pathFromKey c key) = false ->
    Path.within (Cache.pathFromKey c (Cache.dir c)) (Cache.dir c) = false ->
    Fs.isFile (snd (Cache.dispose c fs1)) (Cache.pathFromKey c key) = true
    /\ Fs.isDir (snd (Cache.dispose c fs1)) (Cache.dir c) = true.
Proof.
  intros js c key data fate fs fs1 Hdir Hput Hkey Hself.
  unfold Cache.put in Hput.
  destruct fate as [|message written].
  2:{ destruct (Fs.writeFile fs (Cache.pathFromKey c key)
                  (take_str written (Cache.stringify js data)));
        discriminate Hput. }
  destruct (Fs.writeFile fs (Cache.pathFromKey c key) (Cache.stringify js data))
    as [code|fs'] eqn:Hw; [discriminate Hput|].
  injection Hput as <-. unfold Cache.dispose. simpl snd. split.
  - rewrite (isFile_after_remove _ _ _ Hkey). exact (isFile_after_write _ _ _ _ Hw).
  - rewrite (isDir_after_remove _ _ _ Hself). unfold Fs.isDir.
    rewrite (dirs_after_write _ _ _ _ Hw). exact Hdir.
Qed.

Lemma C8_dispose_keeps_directory_and_files_witness :
  Fs.isFile
    (snd (Cache.dispose Scenario.tmpCache
            (snd (Cache.put Scenario.emptyArrayCodec Scenario.tmpCache "k" []
                    Fs.Finishes Scenario.tmpFs))))
    "/tmp/c/k.json" = true
  /\ Fs.isDir
       (snd (Cache.dispose Scenario.tmpCache
               (snd (Cache.put Scenario.emptyArrayCodec Scenario.tmpCache "k" []
                       Fs.Finishes Scenario.tmpFs))))
       "/tmp/c" = true.
Proof.
  apply (C8_dispose_keeps_directory_and_files Scenario.emptyArrayCodec Scenario.tmpCache "k"
           [] Fs.Finishes Scenario.tmpFs); reflexivity.
Defined.

(** C9: [get] on a key whose backing file does not exist resolves to the
    empty sequence; a read error with any other code, and a parse error,
    reject the promise. *)
Theorem C9_get_missing_is_empty_other_errors_fail :
  forall (js : Cache.JSONStream) (c : Cache.Cache) (key : string) (fs : Fs.FsState),
    (Fs.isFile fs (Cache.pathFromKey c key) = false ->
     Fs.isDir fs (Cache.pathFromKey c key) = false ->
     Cache.get js c key fs = Resolved [])
    /\ (forall code : option string,
           Fs.createReadStream fs (Cache.pathFromKey c key) = Fs.ReadFail code ->
           code <> Some "ENOENT" ->
           exists e, Cache.get js c key fs = Rejected e)
    /\ (forall (d : string) (items : list Cache.Json) (msg : string),
           Fs.createReadStream fs (Cache.pathFromKey c key) = Fs.ReadData d ->
           Cache.parse js d = (items, Some msg) ->
           exists e, Cache.get js c key fs = Rejected e).
Proof.
  intros js c key fs. unfold Cache.get. repeat split.
  - intros Hf Hd. rewrite (createReadStream_missing _ _ Hf Hd). reflexivity.
  - intros code -> Hne. simpl. rewrite bool_decide_eq_false_2 by exact Hne.
    simpl. eauto.
  - intros d items msg -> Hp. simpl. rewrite Hp. eauto.
Qed.

Lemma C9_get_missing_is_empty_other_errors_fail_witness :
  Cache.get Scenario.emptyArrayCodec Scenario.tmpCache "never-written" Scenario.tmpFs
    = Resolved []
  /\ (exists e,
         Cache.get Scenario.emptyArrayCodec Scenario.tmpCache "d"
           (Fs.mkFs [] ["/tmp"; "/tmp/c"; "/tmp/c/d.json"]) = Rejected e)
  /\ (exists e,
         Cache.get Scenario.emptyArrayCodec Scenario.tmpCache "k"
           (Fs.mkFs [("/tmp/c/k.json", "[1,")] ["/tmp"; "/tmp/c"]) = Rejected e).
Proof.
  split; [|split].
  - apply (C9_get_missing_is_empty_other_errors_fail Scenario.emptyArrayCodec
             Scenario.tmpCache "never-written" Scenario.tmpFs); reflexivity.
  - apply (proj1 (proj2 (C9_get_missing_is_empty_other_errors_fail Scenario.emptyArrayCodec
             Scenario.tmpCache "d" (Fs.mkFs [] ["/tmp"; "/tmp/c"; "/tmp/c/d.json"])))
             (Some "EISDIR")); [reflexivity | discriminate].
  - apply (proj2 (proj2 (C9_get_missing_is_empty_other_errors_fail Scenario.emptyArrayCodec
             Scenario.tmpCache "k"
             (Fs.mkFs [("/tmp/c/k.json", "[1,")] ["/tmp"; "/tmp/c"])))
             "[1," [] "Invalid JSON"); reflexivity.
Defined.

(** ** Reasoning about asynchronous computations *)

Section AsyncLaws.

Context {E S : Type}.

Lemma bind_inv {A B} (m : Async E S A) (f : A -> Async E S B) s r s' evs :
  bind m f s = (r, s', evs) ->
  (exists a s1 e1 e2,
      m s = (Resolved a, s1, e1) /\ f a s1 = (r, s', e2) /\ evs = e1 ++ e2)
  \/ (exists e, m s = (Rejected e, s', evs) /\ r = Rejected e).
Proof.
  unfold bind. destruct (m s) as [[[a|e] s1] e1].
  - destruct (f a s1) as [[r2 s2] e2] eqn:Hf. intros [= <- <- <-].
    left. exists a, s1, e1, e2. auto.
  - intros [= <- <- <-]. right. eauto.
Qed.

Lemma bind_resolved {A B} (m : Async E S A) (f : A -> Async E S B) s b s' evs :
  bind m f s = (Resolved b, s', evs) ->
  exists a s1 e1 e2,
    m s = (Resolved a, s1, e1) /\ f a s1 = (Resolved b, s', e2) /\ evs = e1 ++ e2.
Proof.
  intros H. apply bind_inv in H as [H|(e & _ & He)]; [exact H | discriminate He].
Qed.

Variable R : S -> S -> list E -> Prop.
Hypothesis R_refl : forall s, R s s [].
Hypothesis R_trans :
  forall s s1 s2 e1 e2, R s s1 e1 -> R s1 s2 e2 -> R s s2 (e1 ++ e2).

Lemma respects_ret {A} (a : A) : respects R (ret a).
Proof. intros s r s' evs [= <- <- <-]. apply R_refl. Qed.

Lemma respects_throw {A} (e : JsError) : respects R (@throw E S A e).
Proof. intros s r s' evs [= <- <- <-]. apply R_refl. Qed.

Lemma respects_getState : respects R (@getState E S).
Proof. intros s r s' evs [= <- <- <-]. apply R_refl. Qed.

Lemma respects_bind {A B} (m : Async E S A) (f : A -> Async E S B) :
  respects R m -> (forall a, respects R (f a)) -> respects R (bind m f).
Proof.
  intros Hm Hf s r s' evs H.
  apply bind_inv in H as [(a & s1 & e1 & e2 & H1 & H2 & ->)|(e & H1 & _)].
  - eapply R_trans; [eapply Hm | eapply Hf]; eassumption.
  - eapply Hm; eassumption.
Qed.

End AsyncLaws.

(** ** The indexer: cancellation is never undone *)

Section IndexerFacts.

Import Indexer.

Variable ws : WorkspaceApi.
Variable eng : Engine.

Lemma forgotten_app (a b : list Event) : forgotten (a ++ b) = forgotten a ++ forgotten b.
Proof.
  induction a as [|[] a IH]; simpl; auto. rewrite IH. reflexivity.
Qed.

Lemma forgotten_io (l : list IoEvent) : forgotten (map Io l) = [].
Proof. induction l; simpl; auto. Qed.

Lemma cancelled_iff (t : nat) (s : State) :
  isCancellationRequested t s = true <-> sources s !! t = Some true.
Proof.
  unfold isCancellationRequested. destruct (sources s !! t) as [[]|]; simpl; split;
    intros H; congruence.
Qed.

Lemma cancelIndexing_now_keeps (t : nat) (s : State) :
  isCancellationRequested t s = true ->
  isCancellationRequested t (cancelIndexing_now s) = true.
Proof.
  rewrite !cancelled_iff. unfold cancelIndexing_now.
  destruct (indexing s) as [src|]; [|auto]. simpl. intros H.
  destruct (decide (src = t)) as [->|Hne].
  - rewrite list_lookup_insert_eq; [reflexivity|]. eapply lookup_lt_Some; eassumption.
  - rewrite list_lookup_insert_ne by exact Hne. exact H.
Qed.

Lemma persistent_refl s : persistent s s [].
Proof. split; auto. Qed.

Lemma persistent_trans s s1 s2 e1 e2 :
  persistent s s1 e1 -> persistent s1 s2 e2 -> persistent s s2 (e1 ++ e2).
Proof.
  intros [H1 Q1] [H2 Q2]. split; [auto|].
  intros Hs. specialize (Q1 Hs). subst s1. auto.
Qed.

Lemma calm_refl s : calm s s [].
Proof. split; [apply persistent_refl | reflexivity]. Qed.

Lemma calm_trans s s1 s2 e1 e2 : calm s s1 e1 -> calm s1 s2 e2 -> calm s s2 (e1 ++ e2).
Proof.
  intros [H1 F1] [H2 F2]. split; [eapply persistent_trans; eassumption|].
  rewrite forgotten_app, F1, F2. reflexivity.
Qed.

Lemma calm_persistent {A} (m : Async Event State A) :
  respects calm m -> respects persistent m.
Proof. intros H s r s' evs Hm. exact (proj1 (H s r s' evs Hm)). Qed.

Lemma newTokenSource_keeps (t : nat) (s : State) :
  isCancellationRequested t s = true ->
  isCancellationRequested t (stateAfter newTokenSource s) = true.
Proof.
  rewrite !cancelled_iff. unfold stateAfter, newTokenSource. simpl. intros H.
  rewrite lookup_app_l; [exact H|]. eapply lookup_lt_Some; eassumption.
Qed.

Lemma associationsWithPhp_keeps (t : nat) (s : State) :
  isCancellationRequested t (stateAfter associationsWithPhp s)
  = isCancellationRequested t s.
Proof.
  unfold stateAfter, associationsWithPhp, isCancellationRequested.
  destruct (config s) as [c|]; [|reflexivity].
  destruct (files_associations c); reflexivity.
Qed.

Lemma interruption_keeps (i : Interruption) (t : nat) (s : State) :
  isCancellationRequested t s = true ->
  isCancellationRequested t (interruption i s) = true.
Proof.
  intros H. destruct i; simpl.
  - exact H.
  - apply cancelIndexing_now_keeps. exact H.
  - rewrite associationsWithPhp_keeps.
    apply newTokenSource_keeps, cancelIndexing_now_keeps. exact H.
  - exact H.
Qed.

Lemma suspend_calm : respects calm suspend.
Proof.
  intros s r s' evs. unfold suspend.
  destruct (interrupts s) as [|i rest] eqn:Hi; intros [= <- <- <-].
  - split; [split; auto | reflexivity].
  - split; [split | reflexivity].
    + intros t H. apply interruption_keeps. exact H.
    + intros Hs. rewrite Hs in Hi. discriminate Hi.
Qed.

Lemma await_calm {A} (p : Async Event State A) : respects calm p -> respects calm (await p).
Proof.
  intros Hp. unfold await.
  apply respects_bind; [exact calm_trans | exact Hp | intros a].
  apply respects_bind; [exact calm_trans | exact suspend_calm | intros ?].
  apply respects_ret. exact calm_refl.
Qed.

Lemma stateless_calm {A} (r : Outcome A * list IoEvent) : respects calm (stateless r).
Proof.
  intros s r0 s' evs [= <- <- <-]. split; [apply persistent_refl|]. apply forgotten_io.
Qed.

Lemma emit_calm (ev : Event) :
  forgotten [ev] = [] -> respects calm (emit ev).
Proof. intros Hev s r s' evs [= <- <- <-]. split; [apply persistent_refl | exact Hev]. Qed.

Lemma getDocument_calm u : respects calm (getDocument ws u).
Proof.
  unfold getDocument.
  apply respects_bind; [exact calm_trans | | intros ?].
  - apply emit_calm. reflexivity.
  - apply stateless_calm.
Qed.

Lemma discover_calm doc : respects calm (discover eng doc).
Proof.
  unfold discover.
  apply respects_bind; [exact calm_trans | | intros ?].
  - apply emit_calm. reflexivity.
  - apply respects_ret. exact calm_refl.
Qed.

Lemma readAndDiscover_calm file result : respects calm (readAndDiscover ws eng file result).
Proof.
  unfold readAndDiscover.
  apply respects_bind; [exact calm_trans | | intros [d|]].
  - apply await_calm, getDocument_calm.
  - apply respects_bind; [exact calm_trans | | intros n].
    + apply await_calm, discover_calm.
    + apply respects_ret. exact calm_refl.
  - apply respects_ret. exact calm_refl.
Qed.

Lemma walk_calm token timestamp maxFileSize files :
  forall known result,
    respects calm (walk ws eng token timestamp maxFileSize files known result).
Proof.
  induction files as [|file rest IH]; intros known result; simpl.
  - apply respects_ret. exact calm_refl.
  - apply respects_bind; [exact calm_trans | | intros s0].
    { apply respects_getState. exact calm_refl. }
    destruct (isCancellationRequested token s0).
    { apply respects_ret. exact calm_refl. }
    destruct (JsSet.has known (uri file)).
    + destruct (modified file <? timestamp); [apply IH|].
      apply respects_bind; [exact calm_trans | | intros r1].
      * apply readAndDiscover_calm.
      * apply IH.
    + destruct (size file >? maxFileSize).
      * apply respects_bind; [exact calm_trans | | intros ?].
        -- apply emit_calm. reflexivity.
        -- apply IH.
      * apply respects_bind; [exact calm_trans | | intros r1].
        -- apply readAndDiscover_calm.
        -- apply IH.
Qed.

Lemma forgetFiles_persistent uris : respects persistent (forgetFiles uris).
Proof.
  induction uris as [|u rest IH]; simpl.
  - apply respects_ret. exact persistent_refl.
  - apply respects_bind; [exact persistent_trans | | intros ?].
    + unfold await, forget.
      apply respects_bind; [exact persistent_trans | | intros ?].
      * intros s r s' evs H. injection H as _ <- _. split; auto.
      * apply respects_bind; [exact persistent_trans | | intros ?].
        -- apply calm_persistent, suspend_calm.
        -- apply respects_ret. exact persistent_refl.
    + exact IH.
Qed.

End IndexerFacts.

(** ** JavaScript sets against mathematical sets *)

Section JsSetFacts.

Lemma has_true (s : JsSet.t) (x : string) : JsSet.has s x = true <-> x ∈ s.
Proof.
  unfold JsSet.has. rewrite existsb_exists, list_elem_of_In. split.
  - intros (y & Hy & ->%String.eqb_eq). exact Hy.
  - intros H. exists x. split; [exact H | apply String.eqb_refl].
Qed.

Lemma has_false (s : JsSet.t) (x : string) : JsSet.has s x = false <-> x ∉ s.
Proof.
  rewrite <- has_true. destruct (JsSet.has s x); split; intros H; congruence.
Qed.

Lemma elem_of_add (s : JsSet.t) (x y : string) : y ∈ JsSet.add s x <-> y ∈ s \/ y = x.
Proof.
  unfold JsSet.add. destruct (JsSet.has s x) eqn:H.
  - apply has_true in H. split; [auto | intros [?| ->]; assumption].
  - rewrite elem_of_app, list_elem_of_singleton. reflexivity.
Qed.

Lemma NoDup_add (s : JsSet.t) (x : string) : NoDup s -> NoDup (JsSet.add s x).
Proof.
  intros Hs. unfold JsSet.add. destruct (JsSet.has s x) eqn:H; [exact Hs|].
  apply has_false in H. apply NoDup_app. split; [exact Hs|]. split.
  - intros y Hy ->%list_elem_of_singleton. contradiction.
  - apply NoDup_singleton.
Qed.

Lemma fold_add_spec (l : list string) :
  forall acc : JsSet.t,
    NoDup acc ->
    NoDup (fold_left JsSet.add l acc)
    /\ forall y, y ∈ fold_left JsSet.add l acc <-> y ∈ acc \/ y ∈ l.
Proof.
  induction l as [|x l IH]; intros acc Hacc; simpl.
  - split; [exact Hacc|]. intros y. rewrite elem_of_nil. tauto.
  - destruct (IH (JsSet.add acc x) (NoDup_add acc x Hacc)) as [Hnd Hel].
    split; [exact Hnd|]. intros y. rewrite Hel, elem_of_add, elem_of_cons. tauto.
Qed.

Lemma NoDup_ofArray (l : list string) : NoDup (JsSet.ofArray l).
Proof. apply fold_add_spec. apply NoDup_nil_2. Qed.

Lemma elem_of_ofArray (l : list string) (y : string) : y ∈ JsSet.ofArray l <-> y ∈ l.
Proof.
  unfold JsSet.ofArray.
  rewrite (proj2 (fold_add_spec l [] (NoDup_nil_2)) y), elem_of_nil. tauto.
Qed.

Lemma elem_of_delete (s : JsSet.t) (x y : string) :
  y ∈ JsSet.delete s x <-> y ∈ s /\ y <> x.
Proof.
  unfold JsSet.delete. rewrite !list_elem_of_In, filter_In, negb_true_iff.
  rewrite String.eqb_neq. split; intros [H1 H2]; split; auto.
Qed.

Lemma NoDup_delete (s : JsSet.t) (x : string) : NoDup s -> NoDup (JsSet.delete s x).
Proof.
  intros H. unfold JsSet.delete. apply NoDup_ListNoDup, List.NoDup_filter.
  apply NoDup_ListNoDup. exact H.
Qed.

Lemma delete_absent (s : JsSet.t) (x : string) :
  JsSet.has s x = false -> JsSet.delete s x = s.
Proof.
  intros H. apply has_false in H. unfold JsSet.delete.
  induction s as [|y s IH]; simpl; [reflexivity|].
  destruct (String.eqb_spec x y) as [->|Hne].
  - exfalso. apply H. left.
  - simpl. f_equal. apply IH. intros Hin. apply H. right. exact Hin.
Qed.

(** What is left of a set once every discovered uri was deleted from it. *)
Lemma fold_delete_spec (uris : list string) :
  forall s : JsSet.t,
    NoDup s ->
    NoDup (fold_left JsSet.delete uris s)
    /\ forall y, y ∈ fold_left JsSet.delete uris s <-> y ∈ s /\ y ∉ uris.
Proof.
  induction uris as [|x uris IH]; intros s Hs; simpl.
  - split; [exact Hs|]. intros y. rewrite elem_of_nil. tauto.
  - destruct (IH (JsSet.delete s x) (NoDup_delete s x Hs)) as [Hnd Hel].
    split; [exact Hnd|]. intros y.
    rewrite Hel, elem_of_delete, not_elem_of_cons. tauto.
Qed.

Lemma remaining_known (docs uris : list string) :
  let K : gset string := list_to_set docs in
  let D : gset string := list_to_set uris in
  let left := fold_left JsSet.delete uris (JsSet.ofArray docs) in
  NoDup left /\ list_to_set left = K ∖ D /\ length left = base.size (K ∖ D).
Proof.
  intros K D left.
  destruct (fold_delete_spec uris (JsSet.ofArray docs) (NoDup_ofArray docs)) as [Hnd Hel].
  assert (Hset : list_to_set left = K ∖ D).
  { apply set_eq. intros y. subst K D left.
    rewrite elem_of_list_to_set, Hel, elem_of_difference, !elem_of_list_to_set.
    rewrite elem_of_ofArray. reflexivity. }
  split; [exact Hnd|]. split; [exact Hset|].
  rewrite <- Hset. symmetry. apply size_list_to_set. exact Hnd.
Qed.

End JsSetFacts.

(** ** The indexer: what a run that was not cancelled has done *)

Section IndexerRun.

Import Indexer.

Variable ws : WorkspaceApi.
Variable eng : Engine.

(** When the token is still clear after the loop, the loop has visited
    every discovered file. *)
Lemma walk_complete token timestamp maxFileSize files :
  forall known result s known' result' s' evs,
    walk ws eng token timestamp maxFileSize files known result s
      = (Resolved (known', result'), s', evs) ->
    isCancellationRequested token s' = false ->
    known' = fold_left JsSet.delete (map uri files) known.
Proof.
  induction files as [|file rest IH];
    intros known result s known' result' s' evs Hw Hnc; simpl in Hw.
  - unfold ret in Hw. injection Hw as <- _ _ _. reflexivity.
  - apply bind_resolved in Hw as (s0 & s1 & e1 & e2 & Hg & Hk & ->).
    unfold getState in Hg. injection Hg as <- <- <-.
    destruct (isCancellationRequested token s) eqn:Hc.
    + unfold ret in Hk. injection Hk as _ _ <- _. congruence.
    + simpl. destruct (JsSet.has known (uri file)) eqn:Hhas.
      * destruct (modified file <? timestamp).
        -- exact (IH _ _ _ _ _ _ _ Hk Hnc).
        -- apply bind_resolved in Hk as (r1 & s2 & e3 & e4 & Hr & Hk & ->).
           exact (IH _ _ _ _ _ _ _ Hk Hnc).
      * rewrite (delete_absent known (uri file) Hhas).
        destruct (size file >? maxFileSize).
        -- apply bind_resolved in Hk as (r1 & s2 & e3 & e4 & Hr & Hk & ->).
           exact (IH _ _ _ _ _ _ _ Hk Hnc).
        -- apply bind_resolved in Hk as (r1 & s2 & e3 & e4 & Hr & Hk & ->).
           exact (IH _ _ _ _ _ _ _ Hk Hnc).
Qed.

Lemma forgetFiles_events uris :
  forall s r s' evs,
    forgetFiles uris s = (r, s', evs) -> r = Resolved tt /\ evs = map EngForget uris.
Proof.
  induction uris as [|u rest IH]; intros s r s' evs H; simpl in H.
  - unfold ret in H. injection H as <- _ <-. auto.
  - unfold await, forget, emit, suspend, bind, ret in H.
    destruct (interrupts s) as [|b l]; simpl in H.
    + destruct (forgetFiles rest s) as [[r2 s2] e2] eqn:Hrest.
      injection H as <- _ <-. destruct (IH _ _ _ _ Hrest) as [-> ->]. auto.
    + match type of H with
      | context [forgetFiles rest ?st] =>
          destruct (forgetFiles rest st) as [[r2 s2] e2] eqn:Hrest
      end.
      injection H as <- _ <-. destruct (IH _ _ _ _ Hrest) as [-> ->]. auto.
Qed.

Lemma forgotten_forgets (uris : list string) : forgotten (map EngForget uris) = uris.
Proof. induction uris as [|u l IH]; simpl; [reflexivity|]. rewrite IH. reflexivity. Qed.

(** The configuration seen by the discovery call of a run is the one the
    run started with, up to the pattern appended to its associations. *)
Lemma associationsWithPhp_spec (s : State) :
  exists s1,
    associationsWithPhp s
      = (Resolved (getConfigValue files_associations [] (config s) ++ ["*.php"]), s1, [])
    /\ sources s1 = sources s /\ indexing s1 = indexing s /\ interrupts s1 = interrupts s
    /\ getConfigValue files_exclude [] (config s1) = getConfigValue files_exclude [] (config s)
    /\ getConfigValue indexer_useComposerJson true (config s1)
       = getConfigValue indexer_useComposerJson true (config s)
    /\ getConfigValue files_maxSize 1000000 (config s1)
       = getConfigValue files_maxSize 1000000 (config s).
Proof.
  unfold associationsWithPhp. destruct (config s) as [c|] eqn:Hc.
  - destruct (files_associations c) as [l|] eqn:Hl.
    + eexists. split; [simpl; rewrite Hl; reflexivity|]. simpl. auto 10.
    + exists s. rewrite Hc. simpl. rewrite Hl. auto 10.
  - exists s. rewrite Hc. simpl. auto 10.
Qed.

Lemma suspend_inv (s s' : State) (r : Outcome unit) (evs : list Event) :
  suspend s = (r, s', evs) ->
  r = Resolved tt /\ evs = [] /\ (interrupts s = [] -> s' = s).
Proof.
  unfold suspend. destruct (interrupts s) as [|b l]; intros [= <- <- <-]; auto.
  repeat split; auto. discriminate.
Qed.

(** A run, taken apart: the discovery call, the loop, the forget pass. *)
Lemma run_inv (result r : IndexResult) (s s' : State) (evs : list Event) :
  run ws eng result s = (Resolved r, s', evs) ->
  exists (files : list FileInfo) (e0 : list IoEvent) (s0 sa sb : State)
         (known' : JsSet.t) (result' : IndexResult) (ewalk eforget : list Event),
    let token := length (sources s) in
    let counted :=
      mkResult (totalFileCount result') (indexedFileCount result') (JsSet.size known')
        (symbolCount result') (wasCancelled result') in
    discovery ws (config s) = (Resolved files, e0)
    /\ indexing s0 = Some token
    /\ sources s0 = sources s ++ [false]
    /\ interrupts s0 = interrupts s
    /\ (exists ev, suspend s0 = (Resolved tt, sa, ev))
    /\ walk ws eng token (timestamp (knownDocuments eng))
         (getConfigValue files_maxSize 1000000 (config s)) files
         (JsSet.ofArray (documents (knownDocuments eng))) result sa
       = (Resolved (known', result'), sb, ewalk)
    /\ (if negb (isCancellationRequested token sb) && (0 <? JsSet.size known')%nat
        then await (forgetFiles (JsSet.toArray known'))
        else ret tt) sb = (Resolved tt, s', eforget)
    /\ r = (if isCancellationRequested token s' then markCancelled counted else counted)
    /\ evs = [EngKnownDocuments] ++
               ([WsFindFiles
                   (JsSet.toArray (JsSet.ofArray
                      (getConfigValue files_associations [] (config s) ++ ["*.php"])))
                   (getConfigValue files_exclude [] (config s))
                   (getConfigValue indexer_useComposerJson true (config s))]
                ++ map Io e0) ++ ewalk ++ eforget.
Proof.
  intros H. unfold run in H.
  apply bind_resolved in H as (token & s1 & x1 & e2 & Hnew & H & ->).
  unfold newTokenSource in Hnew. injection Hnew as <- <- <-.
  apply bind_resolved in H as ([] & s2 & x2 & e3 & Hemit & H & ->).
  unfold emit in Hemit. injection Hemit as <- <-.
  apply bind_resolved in H as (s3 & s4 & x3 & e4 & Hget & H & ->).
  unfold getState in Hget. injection Hget as <- <- <-.
  apply bind_resolved in H as (assoc & s5 & x4 & e5 & Hassoc & H & ->).
  match type of Hassoc with
  | associationsWithPhp ?st = _ =>
      destruct (associationsWithPhp_spec st)
        as (s5' & Hspec & Hsrc & Hidx & Hint & Hexcl & Huse & Hmax)
  end.
  rewrite Hspec in Hassoc. injection Hassoc as <- <- <-. simpl in Hexcl, Huse, Hmax.
  apply bind_resolved in H as (s6 & s7 & x5 & e6 & Hget & H & ->).
  unfold getState in Hget. injection Hget as <- <- <-.
  rewrite Hexcl, Huse in H.
  apply bind_resolved in H as (files & sa & x6 & e7 & Hfind & H & ->).
  unfold await in Hfind.
  apply bind_resolved in Hfind as (files' & s8 & x7 & e8 & Hcall & Hsusp & ->).
  apply bind_resolved in Hcall as ([] & s9 & x8 & e9 & Hemit & Hcall & ->).
  unfold emit in Hemit. injection Hemit as <- <-.
  unfold stateless in Hcall.
  destruct (ws_findFiles ws _ _ _) as [found e0] eqn:Hdisc in Hcall.
  simpl in Hcall. injection Hcall as -> <- <-.
  apply bind_resolved in Hsusp as ([] & s10 & x9 & e10 & Hsusp & Hret & ->).
  unfold ret in Hret. injection Hret as <- <- <-.
  apply bind_resolved in H as ([known' result'] & sb & ewalk & e11 & Hwalk & H & ->).
  apply bind_resolved in H as (s11 & s12 & x10 & e12 & Hget & H & ->).
  unfold getState in Hget. injection Hget as <- <- <-.
  apply bind_resolved in H as ([] & s13 & eforget & e13 & Hforget & H & ->).
  apply bind_resolved in H as (s14 & s15 & x11 & e14 & Hget & H & ->).
  unfold getState in Hget. injection Hget as <- <- <-.
  unfold ret in H. injection H as <- <- <-.
  exists files', e0, s5', s10, sb, known', result', ewalk, eforget.
  destruct (suspend_inv _ _ _ _ Hsusp) as (_ & -> & _).
  simpl. repeat split; try assumption; eauto.
  rewrite ?app_nil_r, <- ?List.app_assoc. reflexivity.
Qed.

Lemma readAndDiscover_keeps file result s r s' evs :
  readAndDiscover ws eng file result s = (Resolved r, s', evs) ->
  totalFileCount r = totalFileCount result /\ wasCancelled r = wasCancelled result.
Proof.
  unfold readAndDiscover. intros H.
  apply bind_resolved in H as ([d|] & s1 & e1 & e2 & _ & H & _).
  - apply bind_resolved in H as (n & s2 & e3 & e4 & _ & H & _).
    unfold ret in H. injection H as <- _ _. auto.
  - unfold ret in H. injection H as <- _ _. auto.
Qed.

(** The loop never touches [totalFileCount] (nor [wasCancelled]). *)
Lemma walk_keeps token timestamp maxFileSize files :
  forall known result s known' result' s' evs,
    walk ws eng token timestamp maxFileSize files known result s
      = (Resolved (known', result'), s', evs) ->
    totalFileCount result' = totalFileCount result
    /\ wasCancelled result' = wasCancelled result.
Proof.
  induction files as [|file rest IH];
    intros known result s known' result' s' evs Hw; simpl in Hw.
  - unfold ret in Hw. injection Hw as _ <- _ _. auto.
  - apply bind_resolved in Hw as (s0 & s1 & e1 & e2 & Hg & Hk & ->).
    unfold getState in Hg. injection Hg as <- <- <-.
    destruct (isCancellationRequested token s).
    { unfold ret in Hk. injection Hk as _ <- _ _. auto. }
    assert (Hread :
      forall kn,
        (let* result0 := readAndDiscover ws eng file result
         in walk ws eng token timestamp maxFileSize rest kn result0) s
          = (Resolved (known', result'), s', e2) ->
        totalFileCount result' = totalFileCount result
        /\ wasCancelled result' = wasCancelled result).
    { intros kn Hb.
      apply bind_resolved in Hb as (r1 & s2 & e3 & e4 & Hr & Hb & _).
      destruct (readAndDiscover_keeps _ _ _ _ _ _ Hr) as [<- <-].
      exact (IH _ _ _ _ _ _ _ Hb). }
    destruct (JsSet.has known (uri file)).
    + destruct (modified file <? timestamp); [exact (IH _ _ _ _ _ _ _ Hk)|].
      exact (Hread _ Hk).
    + destruct (size file >? maxFileSize); [|exact (Hread _ Hk)].
      apply bind_resolved in Hk as (r1 & s2 & e3 & e4 & _ & Hk & _).
      exact (IH _ _ _ _ _ _ _ Hk).
Qed.

(** The forget pass of a run that ends with its token clear. *)
Lemma forget_pass token known' sb s' eforget :
  (if negb (isCancellationRequested token sb) && (0 <? JsSet.size known')%nat
   then await (forgetFiles (JsSet.toArray known'))
   else ret tt) sb = (Resolved tt, s', eforget) ->
  isCancellationRequested token s' = false ->
  isCancellationRequested token sb = false
  /\ (eforget = map EngForget known' \/ (eforget = [] /\ known' = [])).
Proof.
  intros H Hclear.
  destruct (isCancellationRequested token sb) eqn:Hsb; simpl in H.
  - unfold ret in H. injection H as <- _. congruence.
  - split; [reflexivity|].
    destruct (0 <? JsSet.size known')%nat eqn:Hsize.
    + unfold await in H.
      apply bind_resolved in H as ([] & s1 & e1 & e2 & Hf & H & ->).
      apply bind_resolved in H as ([] & s2 & e3 & e4 & Hs & H & ->).
      destruct (suspend_inv _ _ _ _ Hs) as (_ & -> & _).
      unfold ret in H. injection H as _ <-.
      destruct (forgetFiles_events _ _ _ _ _ Hf) as [_ ->].
      left. simpl. rewrite app_nil_r. reflexivity.
    + unfold ret in H. injection H as _ <-.
      apply Nat.ltb_ge in Hsize. unfold JsSet.size in Hsize.
      right. destruct known'; [auto | simpl in Hsize; lia].
Qed.

Lemma run_uncancelled (result r : IndexResult) (s s' : State) (evs : list Event)
      (files : list FileInfo) :
  run ws eng result s = (Resolved r, s', evs) ->
  wasCancelled r = false ->
  fst (discovery ws (config s)) = Resolved files ->
  let left :=
    fold_left JsSet.delete (map uri files) (JsSet.ofArray (documents (knownDocuments eng))) in
  forgottenFileCount r = length left /\ forgotten evs = left.
Proof.
  intros Hrun Hflag Hfiles left.
  destruct (run_inv _ _ _ _ _ Hrun)
    as (files' & e0 & s0 & sa & sb & known' & result' & ewalk & eforget & Hinv).
  simpl in Hinv.
  destruct Hinv as (Hdisc & _ & _ & _ & _ & Hwalk & Hforget & Hr & Hevs).
  rewrite Hdisc in Hfiles. simpl in Hfiles. injection Hfiles as ->.
  destruct (isCancellationRequested (length (sources s)) s') eqn:Hend.
  { rewrite Hr in Hflag. discriminate Hflag. }
  destruct (forget_pass _ _ _ _ _ Hforget Hend) as [Hsb Hforgot].
  pose proof (walk_complete _ _ _ _ _ _ _ _ _ _ _ Hwalk Hsb) as Hknown.
  destruct (walk_calm ws eng _ _ _ _ _ _ _ _ _ _ Hwalk) as [_ Hquiet].
  subst r evs. simpl. split.
  - unfold JsSet.size. rewrite Hknown. reflexivity.
  - rewrite !forgotten_app, forgotten_io, Hquiet. simpl.
    destruct Hforgot as [-> | [-> Hnil]].
    + rewrite forgotten_forgets. exact Hknown.
    + simpl. rewrite Hnil in Hknown. exact Hknown.
Qed.

Lemma run_total (result r : IndexResult) (s s' : State) (evs : list Event) :
  run ws eng result s = (Resolved r, s', evs) ->
  totalFileCount r = totalFileCount result.
Proof.
  intros Hrun.
  destruct (run_inv _ _ _ _ _ Hrun)
    as (files' & e0 & s0 & sa & sb & known' & result' & ewalk & eforget & Hinv).
  simpl in Hinv.
  destruct Hinv as (_ & _ & _ & _ & _ & Hwalk & _ & Hr & _).
  destruct (walk_keeps _ _ _ _ _ _ _ _ _ _ _ Hwalk) as [Htot _].
  subst r. destruct (isCancellationRequested _ _); simpl; exact Htot.
Qed.

(** Without interference a run leaves [indexing] holding its own source. *)
Lemma run_leaves_indexing (result r : IndexResult) (s s' : State) (evs : list Event) :
  run ws eng result s = (Resolved r, s', evs) ->
  interrupts s = [] ->
  indexing s' = Some (length (sources s)).
Proof.
  intros Hrun Hquiet.
  destruct (run_inv _ _ _ _ _ Hrun)
    as (files' & e0 & s0 & sa & sb & known' & result' & ewalk & eforget & Hinv).
  simpl in Hinv.
  destruct Hinv as (_ & Hidx & _ & Hint & [ev Hsusp] & Hwalk & Hforget & _ & _).
  rewrite Hquiet in Hint.
  destruct (suspend_inv _ _ _ _ Hsusp) as (_ & _ & Hsame).
  specialize (Hsame Hint). subst sa.
  destruct (walk_calm ws eng _ _ _ _ _ _ _ _ _ _ Hwalk) as [[_ Hstill] _].
  specialize (Hstill Hint). subst sb.
  assert (Hs' : s' = s0).
  { destruct (negb _ && _) in Hforget.
    - assert (Hp : respects persistent (await (forgetFiles (JsSet.toArray known')))).
      { unfold await.
        apply respects_bind; [exact persistent_trans | apply forgetFiles_persistent | intros ?].
        apply respects_bind;
          [exact persistent_trans | apply calm_persistent, suspend_calm | intros ?].
        apply respects_ret. exact persistent_refl. }
      exact (proj2 (Hp _ _ _ _ Hforget) Hint).
    - unfold ret in Hforget. injection Hforget as <- _. reflexivity. }
  subst s'. exact Hidx.
Qed.

End IndexerRun.

(** C3: a run of [indexWorkspace] that returns without the cancellation
    flag reports [forgottenFileCount = |K \ D|] and has told the engine to
    forget exactly the uris of [K \ D], each once -- [K] the documents of
    the engine's snapshot, [D] the uris of the discovered files. *)
Theorem C3_forgets_known_minus_discovered :
  forall (ws : WorkspaceApi) (eng : Engine) (restartIfInProgress : bool)
         (s s' : Indexer.State) (r : IndexResult) (evs : list Event)
         (files : list FileInfo),
    Indexer.indexWorkspace ws eng restartIfInProgress s = (Resolved r, s', evs) ->
    wasCancelled r = false ->
    fst (discovery ws (Indexer.config s)) = Resolved files ->
    let K : gset string := list_to_set (documents (knownDocuments eng)) in
    let D : gset string := list_to_set (map uri files) in
    forgottenFileCount r = base.size (K ∖ D)
    /\ NoDup (forgotten evs)
    /\ list_to_set (forgotten evs) = K ∖ D.
Proof.
  intros ws eng restart s s' r evs files Hrun Hflag Hfiles K D.
  destruct (remaining_known (documents (knownDocuments eng)) (map uri files))
    as (Hnd & Hset & Hlen).
  assert (Hgoal :
    forgottenFileCount r
      = length (fold_left JsSet.delete (map uri files)
                  (JsSet.ofArray (documents (knownDocuments eng))))
    /\ forgotten evs
       = fold_left JsSet.delete (map uri files)
           (JsSet.ofArray (documents (knownDocuments eng)))).
  { unfold Indexer.indexWorkspace in Hrun.
    apply bind_resolved in Hrun as (s0 & s1 & e1 & e2 & Hg & Hrun & ->).
    unfold getState in Hg. injection Hg as <- <- <-.
    destruct (Indexer.isIndexing s) eqn:Hactive.
    - destruct restart; simpl in Hrun.
      + apply bind_resolved in Hrun as ([] & s2 & e3 & e4 & Hc & Hrun & ->).
        unfold Indexer.cancelIndexing, modify in Hc. injection Hc as <- <-.
        simpl. apply (run_uncancelled ws eng _ _ _ _ _ files Hrun Hflag).
        unfold Indexer.cancelIndexing_now. destruct (Indexer.indexing s); exact Hfiles.
      + unfold ret in Hrun. injection Hrun as <- _ _. discriminate Hflag.
    - simpl. exact (run_uncancelled ws eng _ _ _ _ _ files Hrun Hflag Hfiles). }
  destruct Hgoal as [Hcount Hforgot]. rewrite Hcount, Hforgot. auto.
Qed.

Lemma C3_forgets_known_minus_discovered_witness :
  let K : gset string :=
    list_to_set ["file:///w/gone.php"; "file:///w/b.php"; "file:///w/old.php"] in
  let D : gset string := list_to_set ["file:///w/a.php"; "file:///w/b.php"] in
  2%nat = base.size (K ∖ D)
  /\ NoDup ["file:///w/gone.php"; "file:///w/old.php"]
  /\ list_to_set ["file:///w/gone.php"; "file:///w/old.php"] = K ∖ D.
Proof.
  exact (C3_forgets_known_minus_discovered Scenario.diffWorkspace Scenario.diffEngine false
           Scenario.idle _ _ _
           [mkFileInfo "file:///w/a.php" 50 10; mkFileInfo "file:///w/b.php" 20 10]
           eq_refl eq_refl eq_refl).
Defined.

(** A run cancelled while its first document is being read: the walk stops
    at the next file, the flag is set and no forget pass takes place. *)
Example cancelled_run_forgets_nothing :
  let '(r, s', evs) :=
    Indexer.indexWorkspace Scenario.diffWorkspace Scenario.diffEngine false
      (Indexer.mkState None [] None [Indexer.NothingHappens; Indexer.CancelIndexingCalled]) in
  r = Resolved (mkResult 0 1 3 3 true)
  /\ documentsRead evs = ["file:///w/a.php"]
  /\ forgotten evs = []
  /\ Indexer.isIndexing s' = false.
Proof. repeat split. Qed.

Lemma indexWorkspace_declines (ws : WorkspaceApi) (eng : Engine) (s : Indexer.State) :
  Indexer.isIndexing s = true ->
  Indexer.indexWorkspace ws eng false s
  = (Resolved (Indexer.markCancelled Indexer.emptyResult), s, []).
Proof.
  intros Hactive.
  unfold Indexer.indexWorkspace, bind, getState. rewrite Hactive. reflexivity.
Qed.

(** C7: while a run is active, [indexWorkspace(false)] returns at once a
    result with [wasCancelled = true] and every counter at zero; it performs
    no action at all (no engine query, no discovery, no read, nothing
    submitted or forgotten) and leaves the state, the active run's token
    source included, as it was. *)
Theorem C7_decline_is_immediate_and_inert :
  forall (ws : WorkspaceApi) (eng : Engine) (s : Indexer.State),
    Indexer.isIndexing s = true ->
    Indexer.indexWorkspace ws eng false s = (Resolved (mkResult 0 0 0 0 true), s, []).
Proof.
  intros ws eng s Hactive. exact (indexWorkspace_declines ws eng s Hactive).
Qed.

Lemma C7_decline_is_immediate_and_inert_witness :
  Indexer.indexWorkspace Scenario.diffWorkspace Scenario.diffEngine false
    (Indexer.mkState (Some 0%nat) [false] None
       [Indexer.CancelIndexingCalled; Indexer.RestartRequested])
  = (Resolved (mkResult 0 0 0 0 true),
     Indexer.mkState (Some 0%nat) [false] None
       [Indexer.CancelIndexingCalled; Indexer.RestartRequested], []).
Proof.
  apply C7_decline_is_immediate_and_inert. reflexivity.
Defined.

(** C2 (the code departs from it): nothing in [indexWorkspace] resets
    [indexing] once the walk is over.  After a run that nobody interfered
    with has returned its result, [indexing] still holds the run's token
    source, and a following [indexWorkspace(false)] takes the decline path. *)
Theorem C2_finished_run_stays_active :
  forall (ws : WorkspaceApi) (eng : Engine) (restartIfInProgress : bool)
         (s s' : Indexer.State) (r : IndexResult) (evs : list Event),
    Indexer.isIndexing s = false \/ restartIfInProgress = true ->
    Indexer.interrupts s = [] ->
    Indexer.indexWorkspace ws eng restartIfInProgress s = (Resolved r, s', evs) ->
    Indexer.isIndexing s' = true
    /\ forall (ws' : WorkspaceApi) (eng' : Engine),
         Indexer.indexWorkspace ws' eng' false s'
         = (Resolved (Indexer.markCancelled Indexer.emptyResult), s', []).
Proof.
  intros ws eng restart s s' r evs Hstart Hquiet Hrun.
  assert (Hactive : Indexer.isIndexing s' = true).
  { unfold Indexer.indexWorkspace in Hrun.
    apply bind_resolved in Hrun as (s0 & s1 & e1 & e2 & Hg & Hrun & ->).
    unfold getState in Hg. injection Hg as <- <- <-.
    unfold Indexer.isIndexing at 1.
    destruct (Indexer.isIndexing s) eqn:Hs.
    - destruct Hstart as [Hstart | ->]; [discriminate Hstart|]. simpl in Hrun.
      apply bind_resolved in Hrun as ([] & s2 & e3 & e4 & Hc & Hrun & _).
      unfold Indexer.cancelIndexing, modify in Hc. injection Hc as <- _.
      rewrite (run_leaves_indexing ws eng _ _ _ _ _ Hrun); [reflexivity|].
      unfold Indexer.cancelIndexing_now. destruct (Indexer.indexing s); exact Hquiet.
    - rewrite (run_leaves_indexing ws eng _ _ _ _ _ Hrun Hquiet). reflexivity. }
  split; [exact Hactive|]. intros ws' eng'.
  exact (indexWorkspace_declines ws' eng' s' Hactive).
Qed.

Lemma C2_finished_run_stays_active_witness :
  exists (r : IndexResult) (s' : Indexer.State) (evs : list Event),
    Indexer.indexWorkspace Scenario.emptyWorkspace Scenario.freshEngine false Scenario.idle
      = (Resolved r, s', evs)
    /\ wasCancelled r = false
    /\ Indexer.isIndexing s' = true
    /\ Indexer.indexWorkspace Scenario.emptyWorkspace Scenario.freshEngine false s'
       = (Resolved (mkResult 0 0 0 0 true), s', []).
Proof.
  eexists. eexists. eexists.
  split; [reflexivity|]. split; [reflexivity|].
  destruct (C2_finished_run_stays_active Scenario.emptyWorkspace Scenario.freshEngine false
              Scenario.idle _ _ _ (or_introl eq_refl) eq_refl eq_refl) as [Hactive Hnext].
  split; [exact Hactive|]. exact (Hnext Scenario.emptyWorkspace Scenario.freshEngine).
Defined.

(** ** The indexer: which documents are read and submitted *)

Section IndexerReads.

Import Indexer.

Variable ws : WorkspaceApi.
Variable eng : Engine.

Lemma documentsRead_app (a b : list Event) :
  documentsRead (a ++ b) = documentsRead a ++ documentsRead b.
Proof. induction a as [|[] a IH]; simpl; auto. rewrite IH. reflexivity. Qed.

Lemma submitted_app (a b : list Event) : submitted (a ++ b) = submitted a ++ submitted b.
Proof. induction a as [|[] a IH]; simpl; auto. rewrite IH. reflexivity. Qed.

Lemma documentsRead_io (l : list IoEvent) : documentsRead (map Io l) = [].
Proof. induction l; simpl; auto. Qed.

Lemma submitted_io (l : list IoEvent) : submitted (map Io l) = [].
Proof. induction l; simpl; auto. Qed.

Lemma documentsRead_forgets (l : list string) : documentsRead (map EngForget l) = [].
Proof. induction l; simpl; auto. Qed.

Lemma submitted_forgets (l : list string) : submitted (map EngForget l) = [].
Proof. induction l; simpl; auto. Qed.

(** Lines 528-532, taken apart. *)
Lemma readAndDiscover_inv file result s r s' evs :
  readAndDiscover ws eng file result s = (Resolved r, s', evs) ->
  exists (doc : option TextDocumentItem) (eg : list IoEvent),
    ws_getDocument ws (uri file) = (Resolved doc, eg)
    /\ evs = [WsGetDocument (uri file)] ++ map Io eg ++
              match doc with
              | Some d => [EngDiscoverSymbols (Some d)]
              | None => []
              end
    /\ r = match doc with
           | Some d =>
               mkResult (totalFileCount result) (S (indexedFileCount result))
                 (forgottenFileCount result)
                 (symbolCount result + discoverSymbols eng (Some d)) (wasCancelled result)
           | None => result
           end.
Proof.
  unfold readAndDiscover. intros H.
  apply bind_resolved in H as (doc & s1 & e1 & e2 & Hget & H & ->).
  unfold await in Hget.
  apply bind_resolved in Hget as (doc' & s2 & e3 & e4 & Hget & Hs & ->).
  apply bind_resolved in Hs as ([] & s3 & e5 & e6 & Hs & Hret & ->).
  destruct (suspend_inv _ _ _ _ Hs) as (_ & -> & _).
  unfold ret in Hret. injection Hret as <- <- <-.
  unfold getDocument in Hget.
  apply bind_resolved in Hget as ([] & s4 & e7 & e8 & Hemit & Hget & ->).
  unfold emit in Hemit. injection Hemit as <- <-.
  unfold stateless in Hget.
  destruct (ws_getDocument ws (uri file)) as [out eg]. simpl in Hget.
  injection Hget as -> <- <-.
  exists doc', eg. split; [reflexivity|].
  destruct doc' as [d|].
  - apply bind_resolved in H as (n & s5 & e9 & e10 & Hd & H & ->).
    unfold ret in H. injection H as <- _ <-.
    unfold await in Hd.
    apply bind_resolved in Hd as (n' & s6 & e11 & e12 & Hd & Hs2 & ->).
    apply bind_resolved in Hs2 as ([] & s7 & e13 & e14 & Hs2 & Hret & ->).
    destruct (suspend_inv _ _ _ _ Hs2) as (_ & -> & _).
    unfold ret in Hret. injection Hret as <- _ <-.
    unfold discover in Hd.
    apply bind_resolved in Hd as ([] & s8 & e15 & e16 & Hemit & Hd & ->).
    unfold emit in Hemit. injection Hemit as _ <-.
    unfold ret in Hd. injection Hd as <- _ <-.
    simpl. split; [|reflexivity].
    rewrite ?app_nil_r, <- ?List.app_assoc. reflexivity.
  - unfold ret in H. injection H as <- _ <-. simpl. split; [|reflexivity].
    rewrite ?app_nil_r. reflexivity.
Qed.

Lemma fresh_token_is_clear (s s0 : State) :
  sources s0 = sources s ++ [false] ->
  isCancellationRequested (length (sources s)) s0 = false.
Proof.
  intros H. unfold isCancellationRequested. rewrite H, list_lookup_middle by reflexivity.
  reflexivity.
Qed.

(** A run over a single discovered file that the engine already knows
    and whose modification time is not before the snapshot. *)
Lemma run_reads_known_changed_file (result r : IndexResult) (s s' : State)
      (evs : list Event) (file : FileInfo) (e0 : list IoEvent) :
  run ws eng result s = (Resolved r, s', evs) ->
  interrupts s = [] ->
  discovery ws (config s) = (Resolved [file], e0) ->
  uri file ∈ documents (knownDocuments eng) ->
  timestamp (knownDocuments eng) <= modified file ->
  documentsRead evs = [uri file]
  /\ forall d, fst (ws_getDocument ws (uri file)) = Resolved (Some d) ->
               submitted evs = [Some d] /\ indexedFileCount r = S (indexedFileCount result).
Proof.
  intros Hrun Hquiet Hfile Hknown Hchanged.
  destruct (run_inv ws eng _ _ _ _ _ Hrun)
    as (files' & e0' & s0 & sa & sb & known' & result' & ewalk & eforget & Hinv).
  simpl in Hinv.
  destruct Hinv as (Hdisc & Hidx & Hsrc & Hint & [ev Hsusp] & Hwalk & Hforget & Hr & Hevs).
  rewrite Hfile in Hdisc. injection Hdisc as <- <-.
  rewrite Hquiet in Hint.
  destruct (suspend_inv _ _ _ _ Hsusp) as (_ & _ & Hsame).
  specialize (Hsame Hint). subst sa.
  simpl in Hwalk.
  apply bind_resolved in Hwalk as (s1 & s2 & e1 & e2 & Hg & Hwalk & ->).
  unfold getState in Hg. injection Hg as <- <- <-.
  rewrite (fresh_token_is_clear s s0 Hsrc) in Hwalk.
  assert (Hhas : JsSet.has (JsSet.ofArray (documents (knownDocuments eng))) (uri file) = true).
  { apply has_true, elem_of_ofArray. exact Hknown. }
  rewrite Hhas in Hwalk.
  assert (Hnot : (modified file <? timestamp (knownDocuments eng)) = false)
    by (apply Z.ltb_ge; exact Hchanged).
  rewrite Hnot in Hwalk.
  apply bind_resolved in Hwalk as (r1 & s3 & e3 & e4 & Hread & Hend & ->).
  unfold ret in Hend. injection Hend as <- <- <- <-.
  destruct (readAndDiscover_inv _ _ _ _ _ _ Hread) as (doc & eg & Hdoc & -> & ->).
  assert (Hpass :
    documentsRead eforget = [] /\ submitted eforget = []).
  { destruct (negb _ && _) in Hforget.
    - unfold await in Hforget.
      apply bind_resolved in Hforget as ([] & s4 & e5 & e6 & Hf & Hs & ->).
      apply bind_resolved in Hs as ([] & s5 & e7 & e8 & Hs & Hret & ->).
      destruct (suspend_inv _ _ _ _ Hs) as (_ & -> & _).
      unfold ret in Hret. injection Hret as _ <-.
      destruct (forgetFiles_events _ _ _ _ _ Hf) as [_ ->].
      rewrite !documentsRead_app, !submitted_app, documentsRead_forgets, submitted_forgets.
      auto.
    - unfold ret in Hforget. injection Hforget as _ <-. auto. }
  destruct Hpass as [Hpr Hps]. subst evs. split.
  - repeat first [rewrite documentsRead_app | rewrite documentsRead_io | progress simpl].
    rewrite Hpr. destruct doc; reflexivity.
  - intros d Hd. rewrite Hdoc in Hd. simpl in Hd. injection Hd as ->. split.
    + repeat first [rewrite submitted_app | rewrite submitted_io | progress simpl].
      rewrite Hps. reflexivity.
    + subst r. destruct (isCancellationRequested _ _); reflexivity.
Qed.

(** A run over two discovered files, both new to an engine that knows
    nothing, within the ceiling and readable. *)
Lemma run_indexes_two_new_files (result r : IndexResult) (s s' : State)
      (evs : list Event) (f1 f2 : FileInfo) (d1 d2 : TextDocumentItem)
      (e0 : list IoEvent) :
  run ws eng result s = (Resolved r, s', evs) ->
  interrupts s = [] ->
  discovery ws (config s) = (Resolved [f1; f2], e0) ->
  documents (knownDocuments eng) = [] ->
  size f1 <= getConfigValue files_maxSize 1000000 (config s) ->
  size f2 <= getConfigValue files_maxSize 1000000 (config s) ->
  fst (ws_getDocument ws (uri f1)) = Resolved (Some d1) ->
  fst (ws_getDocument ws (uri f2)) = Resolved (Some d2) ->
  indexedFileCount r = S (S (indexedFileCount result))
  /\ forgottenFileCount r = 0%nat
  /\ wasCancelled r = wasCancelled result
  /\ symbolCount r
     = symbolCount result + discoverSymbols eng (Some d1) + discoverSymbols eng (Some d2).
Proof.
  intros Hrun Hquiet Hfiles Hnone Hs1 Hs2 Hd1 Hd2.
  destruct (run_inv ws eng _ _ _ _ _ Hrun)
    as (files' & e0' & s0 & sa & sb & known' & result' & ewalk & eforget & Hinv).
  simpl in Hinv.
  destruct Hinv as (Hdisc & Hidx & Hsrc & Hint & [ev Hsusp] & Hwalk & Hforget & Hr & Hevs).
  rewrite Hfiles in Hdisc. injection Hdisc as <- <-.
  rewrite Hquiet in Hint.
  destruct (suspend_inv _ _ _ _ Hsusp) as (_ & _ & Hsame).
  specialize (Hsame Hint). subst sa.
  pose proof (fresh_token_is_clear s s0 Hsrc) as Hclear.
  rewrite Hnone in Hwalk. simpl in Hwalk.
  assert (Hg1 : (size f1 >? getConfigValue files_maxSize 1000000 (config s)) = false)
    by (rewrite Z.gtb_ltb; apply Z.ltb_ge; exact Hs1).
  assert (Hg2 : (size f2 >? getConfigValue files_maxSize 1000000 (config s)) = false)
    by (rewrite Z.gtb_ltb; apply Z.ltb_ge; exact Hs2).
  (* first file *)
  apply bind_resolved in Hwalk as (x1 & x2 & e1 & e2 & Hg & Hwalk & ->).
  unfold getState in Hg. injection Hg as <- <- <-.
  rewrite Hclear, Hg1 in Hwalk.
  apply bind_resolved in Hwalk as (r1 & s1 & e3 & e4 & Hread1 & Hwalk & ->).
  destruct (readAndDiscover_calm ws eng _ _ _ _ _ _ Hread1) as [[_ Hstill] _].
  specialize (Hstill Hint). subst s1.
  destruct (readAndDiscover_inv _ _ _ _ _ _ Hread1) as (doc1 & eg1 & Hdoc1 & _ & ->).
  rewrite Hdoc1 in Hd1. simpl in Hd1. injection Hd1 as ->.
  (* second file *)
  apply bind_resolved in Hwalk as (x3 & x4 & e5 & e6 & Hg & Hwalk & ->).
  unfold getState in Hg. injection Hg as <- <- <-.
  rewrite Hclear, Hg2 in Hwalk.
  apply bind_resolved in Hwalk as (r2 & s2 & e7 & e8 & Hread2 & Hwalk & ->).
  destruct (readAndDiscover_calm ws eng _ _ _ _ _ _ Hread2) as [[_ Hstill] _].
  specialize (Hstill Hint). subst s2.
  destruct (readAndDiscover_inv _ _ _ _ _ _ Hread2) as (doc2 & eg2 & Hdoc2 & _ & ->).
  rewrite Hdoc2 in Hd2. simpl in Hd2. injection Hd2 as ->.
  unfold ret in Hwalk. injection Hwalk as <- <- <- _.
  (* nothing to forget, nothing cancelled *)
  rewrite Hclear in Hforget. simpl in Hforget.
  unfold ret in Hforget. injection Hforget as <- _.
  rewrite Hclear in Hr. subst r. simpl. auto.
Qed.

End IndexerReads.

(** ** The indexer: where the size ceiling is enforced *)

Section SizeCeiling.

Import Indexer.

Variable ws : WorkspaceApi.
Variable eng : Engine.

Lemma readsOnly_refl P s : readsOnly P s s [].
Proof. apply Forall_nil_2. Qed.

Lemma readsOnly_trans P s s1 s2 e1 e2 :
  readsOnly P s s1 e1 -> readsOnly P s1 s2 e2 -> readsOnly P s s2 (e1 ++ e2).
Proof.
  unfold readsOnly. intros H1 H2. rewrite documentsRead_app. apply Forall_app. auto.
Qed.

Lemma readsOnly_weaken {A} (P Q : string -> Prop) (m : Async Event State A) :
  (forall u, P u -> Q u) -> respects (readsOnly P) m -> respects (readsOnly Q) m.
Proof.
  intros HPQ Hm s r s' evs H. specialize (Hm s r s' evs H).
  unfold readsOnly in *. eapply Forall_impl; eassumption.
Qed.

Lemma readsOnly_silent {A} P (m : Async Event State A) :
  (forall s r s' evs, m s = (r, s', evs) -> documentsRead evs = []) ->
  respects (readsOnly P) m.
Proof.
  intros Hm s r s' evs H. unfold readsOnly. rewrite (Hm s r s' evs H). apply Forall_nil_2.
Qed.

Lemma suspend_readsOnly P : respects (readsOnly P) suspend.
Proof.
  apply readsOnly_silent. intros s r s' evs H.
  destruct (suspend_inv _ _ _ _ H) as (_ & -> & _). reflexivity.
Qed.

Lemma await_readsOnly {A} P (p : Async Event State A) :
  respects (readsOnly P) p -> respects (readsOnly P) (await p).
Proof.
  intros Hp. unfold await.
  apply respects_bind; [apply readsOnly_trans | exact Hp | intros a].
  apply respects_bind; [apply readsOnly_trans | apply suspend_readsOnly | intros ?].
  apply respects_ret. apply readsOnly_refl.
Qed.

Lemma getDocument_readsOnly (P : string -> Prop) u :
  P u -> respects (readsOnly P) (getDocument ws u).
Proof.
  intros Hu s r s' evs H. unfold getDocument, bind, emit, stateless in H.
  injection H as _ _ <-. unfold readsOnly. simpl. rewrite documentsRead_io.
  apply Forall_cons. split; [exact Hu | apply Forall_nil_2].
Qed.

Lemma discover_readsOnly P doc : respects (readsOnly P) (discover eng doc).
Proof.
  apply readsOnly_silent. intros s r s' evs H.
  unfold discover, bind, emit, ret in H. injection H as _ _ <-. reflexivity.
Qed.

Lemma readAndDiscover_readsOnly (P : string -> Prop) file result :
  P (uri file) -> respects (readsOnly P) (readAndDiscover ws eng file result).
Proof.
  intros Hu. unfold readAndDiscover.
  apply respects_bind; [apply readsOnly_trans | | intros [d|]].
  - apply await_readsOnly, getDocument_readsOnly. exact Hu.
  - apply respects_bind; [apply readsOnly_trans | | intros n].
    + apply await_readsOnly, discover_readsOnly.
    + apply respects_ret. apply readsOnly_refl.
  - apply respects_ret. apply readsOnly_refl.
Qed.

Lemma admitted_later maxFileSize file rest (known known' : JsSet.t) u :
  (forall x, x ∈ known' -> x ∈ known) ->
  admitted maxFileSize rest known' u -> admitted maxFileSize (file :: rest) known u.
Proof.
  intros Hsub (f & Hin & Hu & Hok). exists f. split; [right; exact Hin|].
  split; [exact Hu|]. destruct Hok as [?|?]; auto.
Qed.

Lemma walk_reads_admitted token timestamp maxFileSize files :
  forall known result,
    respects (readsOnly (admitted maxFileSize files known))
      (walk ws eng token timestamp maxFileSize files known result).
Proof.
  induction files as [|file rest IH]; intros known result; simpl.
  - apply respects_ret. apply readsOnly_refl.
  - apply respects_bind; [apply readsOnly_trans | | intros s0].
    { apply respects_getState. apply readsOnly_refl. }
    destruct (isCancellationRequested token s0).
    { apply respects_ret. apply readsOnly_refl. }
    assert (Hdel : forall x, x ∈ JsSet.delete known (uri file) -> x ∈ known).
    { intros x [Hx _]%elem_of_delete. exact Hx. }
    destruct (JsSet.has known (uri file)) eqn:Hhas.
    + apply has_true in Hhas.
      assert (Hrest : forall r1,
        respects (readsOnly (admitted maxFileSize (file :: rest) known))
          (walk ws eng token timestamp maxFileSize rest
             (JsSet.delete known (uri file)) r1)).
      { intros r1. eapply readsOnly_weaken; [|apply IH].
        intros u. apply admitted_later. exact Hdel. }
      destruct (modified file <? timestamp); [apply Hrest|].
      apply respects_bind; [apply readsOnly_trans | | intros r1; apply Hrest].
      apply readAndDiscover_readsOnly. exists file.
      split; [left|]. auto.
    + assert (Hrest : forall r1,
        respects (readsOnly (admitted maxFileSize (file :: rest) known))
          (walk ws eng token timestamp maxFileSize rest known r1)).
      { intros r1. eapply readsOnly_weaken; [|apply IH].
        intros u. apply admitted_later. auto. }
      destruct (size file >? maxFileSize) eqn:Hsize.
      * apply respects_bind; [apply readsOnly_trans | | intros ?; apply Hrest].
        apply readsOnly_silent. intros s r s' evs H.
        unfold emit in H. injection H as _ _ <-. reflexivity.
      * apply respects_bind; [apply readsOnly_trans | | intros r1; apply Hrest].
        apply readAndDiscover_readsOnly. exists file.
        split; [left|]. split; [reflexivity|]. left.
        rewrite Z.gtb_ltb in Hsize. apply Z.ltb_ge in Hsize. exact Hsize.
Qed.

(** [indexFiles] tests every file: it reads none above the ceiling. *)
Lemma indexEach_reads_within_ceiling maxFileSize files :
  respects
    (readsOnly (fun u => exists file, file ∈ files /\ uri file = u /\ size file <= maxFileSize))
    (indexEach ws eng maxFileSize files).
Proof.
  induction files as [|file rest IH]; simpl.
  - apply respects_ret. apply readsOnly_refl.
  - apply respects_bind; [apply readsOnly_trans | | intros ?].
    + destruct (size file <=? maxFileSize) eqn:Hsize.
      * apply Z.leb_le in Hsize.
        apply respects_bind; [apply readsOnly_trans | | intros doc].
        -- apply await_readsOnly, getDocument_readsOnly. exists file.
           split; [left|]. auto.
        -- apply respects_bind; [apply readsOnly_trans | | intros ?].
           ++ apply await_readsOnly, discover_readsOnly.
           ++ apply respects_ret. apply readsOnly_refl.
      * apply respects_ret. apply readsOnly_refl.
    + eapply readsOnly_weaken; [|exact IH].
      intros u (f & Hin & Hu & Hok). exists f. split; [right; exact Hin | auto].
Qed.

End SizeCeiling.

(** ** Discovery *)

Section DiscoveryFacts.

Import FileSearchProvider.

Variable pf : Platform.

(** Applied as a plain function, [findFilesInFolder] gets past its scheme
    test only to throw on [this.uri]. *)
Lemma findFilesInFolder_plain_call folderUri associations exclude useComposerJson guard :
  findFilesInFolder pf None folderUri associations exclude useComposerJson guard
  = if String.eqb (uriScheme folderUri) "file"
    then (Rejected noReceiver, guard, [])
    else (Resolved [], guard, []).
Proof.
  unfold findFilesInFolder. destruct (String.eqb (uriScheme folderUri) "file"); reflexivity.
Qed.

Lemma findFiles_from_local folders associations exclude useComposerJson :
  Exists (fun f => uriScheme (folder_uri f) = "file") folders ->
  forall guard,
    findFiles_from pf folders associations exclude useComposerJson guard
    = (Rejected noReceiver, guard, []).
Proof.
  induction folders as [|f rest IH]; intros Hex guard.
  - inversion Hex.
  - simpl. unfold bind. rewrite findFilesInFolder_plain_call.
    destruct (String.eqb_spec (uriScheme (folder_uri f)) "file") as [Heq|Hne].
    + reflexivity.
    + apply Exists_cons in Hex as [Hhd|Htl]; [contradiction|].
      rewrite (IH Htl guard). reflexivity.
Qed.

Lemma Workspace_findFiles_local folders associations exclude useComposerJson :
  Exists (fun f => uriScheme (folder_uri f) = "file") (Workspace.folderArray folders) ->
  Workspace.findFiles pf folders associations exclude useComposerJson
  = (Rejected noReceiver, []).
Proof.
  intros Hex. unfold Workspace.findFiles, findFiles, settle.
  rewrite (findFiles_from_local _ _ _ _ Hex). reflexivity.
Qed.

End DiscoveryFacts.

(** C4 (the code departs from it): [findFilesInFolder] computes its search
    directory from [this.uri], and [findFiles] applies it as a plain
    function, so for a folder of the local scheme it throws before any
    search.  With such a folder registered, [indexWorkspace] rejects with
    that [TypeError]: no [IndexResult] is returned, nothing is read and
    nothing is submitted. *)
Theorem C4_local_folder_makes_indexWorkspace_reject :
  forall (pf : Platform) (folders : Workspace.Folders)
         (filterFiles : list string -> list string -> list string -> bool ->
                        Outcome (list FileInfo) * list IoEvent)
         (eng : Engine) (s : Indexer.State),
    Exists (fun f => uriScheme (folder_uri f) = "file") (Workspace.folderArray folders) ->
    Indexer.isIndexing s = false ->
    exists (s' : Indexer.State) (evs : list Event),
      Indexer.indexWorkspace (serverWorkspace pf folders filterFiles) eng false s
      = (Rejected (TypeError "Cannot read property 'uri' of undefined"), s', evs)
      /\ documentsRead evs = [] /\ submitted evs = [].
Proof.
  intros pf folders filterFiles eng s Hlocal Hidle.
  unfold Indexer.indexWorkspace. unfold bind at 1. unfold getState at 1.
  rewrite Hidle. unfold Indexer.run.
  unfold bind at 1. unfold Indexer.newTokenSource at 1.
  unfold bind at 1. unfold emit at 1.
  unfold bind at 1. unfold getState at 1.
  unfold bind at 1.
  match goal with
  | |- context [Indexer.associationsWithPhp ?st] =>
      destruct (associationsWithPhp_spec st) as (s1 & -> & _)
  end.
  unfold bind at 1. unfold getState at 1.
  unfold bind at 1. unfold Indexer.await at 1.
  unfold bind at 1. unfold bind at 1. unfold emit at 1.
  unfold stateless, serverWorkspace. simpl ws_findFiles.
  rewrite (Workspace_findFiles_local pf folders _ _ _ Hlocal). simpl.
  eexists. eexists. split; [reflexivity|]. split; reflexivity.
Qed.

Lemma C4_local_folder_makes_indexWorkspace_reject_witness :
  fs_readFile Scenario.twoFilePlatform "/w/composer.json" = inr (Some "ENOENT")
  /\ fg_async Scenario.twoFilePlatform ["*.php"] "/w/" ["vendor/**"] true
     = Some [mkEntry "/w/a.php" 10 120; mkEntry "/w/b.php" 11 340]
  /\ exists (s' : Indexer.State) (evs : list Event),
       Indexer.indexWorkspace
         (serverWorkspace Scenario.twoFilePlatform Scenario.twoFileFolders Scenario.noFilter)
         Scenario.freshEngine false Scenario.idle
       = (Rejected (TypeError "Cannot read property 'uri' of undefined"), s', evs)
       /\ documentsRead evs = [] /\ submitted evs = [].
Proof.
  split; [reflexivity|]. split; [reflexivity|].
  apply C4_local_folder_makes_indexWorkspace_reject.
  - apply Exists_cons_hd. reflexivity.
  - reflexivity.
Defined.

(** Were [findFilesInFolder] applied with the folder as its receiver, the
    folder of that scenario would yield its two files and the run would
    return what the scenario expects: two files indexed, none forgotten, no
    cancellation flag, the sum of the two symbol counts. *)
Example bound_receiver_indexes_both_files :
  fst (discovery Scenario.boundWorkspace None)
  = Resolved [mkFileInfo "file:///w/a.php" 10 120; mkFileInfo "file:///w/b.php" 11 340]
  /\ fst (fst (Indexer.indexWorkspace Scenario.boundWorkspace Scenario.countingEngine false
                 Scenario.idle))
     = Resolved (mkResult 0 2 0 (7 + 8) false).
Proof. split; reflexivity. Qed.

(** ** Uris: schemes and round trips beyond the unescaped characters *)

Section UriFacts.

Import LocalFileSystem.

Lemma indexOf_aux_shift (c : ascii) (s : string) (pos : nat) :
  indexOf_aux c s (S pos) = option_map S (indexOf_aux c s pos).
Proof.
  revert pos. induction s as [|d s IH]; intros pos; simpl; [reflexivity|].
  destruct (Ascii.eqb c d); [reflexivity | apply IH].
Qed.

Lemma indexOf_aux_app_found (c : ascii) (s t : string) (pos : nat) :
  allChars (notChar c) s = true ->
  indexOf_aux c (s +:+ String c t) pos = Some (pos + String.length s)%nat.
Proof.
  revert pos. induction s as [|d s IH]; intros pos; simpl.
  - intros _. rewrite Ascii.eqb_refl. f_equal. lia.
  - intros [Hd Hs]%andb_true_iff. unfold notChar in Hd.
    apply negb_true_iff in Hd. rewrite Ascii.eqb_sym, Hd.
    rewrite (IH (S pos) Hs). f_equal. lia.
Qed.

Lemma indexOf_aux_absent (c : ascii) (s : string) (pos : nat) :
  allChars (notChar c) s = true -> indexOf_aux c s pos = None.
Proof.
  revert pos. induction s as [|d s IH]; intros pos; simpl; [reflexivity|].
  intros [Hd Hs]%andb_true_iff. unfold notChar in Hd.
  apply negb_true_iff in Hd. rewrite Ascii.eqb_sym, Hd. auto.
Qed.

Lemma indexOf_aux_found_prefix (c : ascii) (s : string) :
  forall pos i,
    indexOf_aux c s pos = Some i ->
    (pos <= i)%nat /\ allChars (notChar c) (take_str (i - pos) s) = true.
Proof.
  induction s as [|d s IH]; intros pos i; simpl; [discriminate|].
  destruct (Ascii.eqb c d) eqn:Hcd.
  - intros [= <-]. rewrite Nat.sub_diag. simpl. auto.
  - intros H. destruct (IH _ _ H) as [Hle Hall]. split; [lia|].
    replace (i - pos)%nat with (S (i - S pos)) by lia. simpl.
    rewrite Hall. unfold notChar. rewrite Ascii.eqb_sym, Hcd. reflexivity.
Qed.

Lemma take_str_app (s t : string) : take_str (String.length s) (s +:+ t) = s.
Proof. induction s as [|c s IH]; simpl; [destruct t; reflexivity | f_equal; exact IH]. Qed.

Lemma drop_str_app (s t : string) : drop_str (String.length s) (s +:+ t) = t.
Proof. induction s as [|c s IH]; simpl; [reflexivity | exact IH]. Qed.

Lemma allChars_app (f : ascii -> bool) (s t : string) :
  allChars f (s +:+ t) = allChars f s && allChars f t.
Proof.
  induction s as [|c s IH]; simpl; [reflexivity|]. rewrite IH, andb_assoc. reflexivity.
Qed.

(** [encodeURI] followed by [decodeURI] gives back any ASCII string. *)
Lemma decode_encode_char (c : ascii) (rest : string) :
  isAsciiChar c = true ->
  decodeURI_aux 0 (encodeURI (String c rest))
  = option_map (String c) (decodeURI_aux 0 (encodeURI rest)).
Proof.
  intros Hc.
  destruct c as [[] [] [] [] [] [] [] []];
    try discriminate Hc; reflexivity.
Qed.

Lemma decode_encode_ascii (s : string) :
  allChars isAsciiChar s = true -> decodeURI (encodeURI s) = Some s.
Proof.
  unfold decodeURI. induction s as [|c s IH]; [reflexivity|].
  simpl allChars. intros [Hc Hs]%andb_true_iff.
  rewrite (decode_encode_char c s Hc), (IH Hs). reflexivity.
Qed.

Lemma encodeURI_app (s t : string) : encodeURI (s +:+ t) = encodeURI s +:+ encodeURI t.
Proof.
  induction s as [|c s IH]; simpl; [reflexivity|].
  destruct (uriUnchanged c); simpl; rewrite IH; reflexivity.
Qed.

(** [uriToPath] on a uri that decodes to file:// followed by [rest]. *)
Lemma uriToPath_decoded (win : bool) (u rest : string) :
  decodeURI u = Some ("file://" +:+ rest) ->
  rest <> "" ->
  uriToPath win u =
    Some (let filepath :=
            if SLASH_DRIVE_PATTERN rest then slice_from rest 1
            else if negb (startsWithSlash rest) then "//" +:+ rest
            else rest in
          if win then replace_all "/" "\" filepath else filepath).
Proof.
  intros Hdec Hne. unfold uriToPath. rewrite Hdec.
  destruct rest as [|c rest]; [contradiction|].
  replace (strlen ("file://" +:+ String c rest) <? 8) with false.
  2:{ symmetry. apply Z.ltb_ge. unfold strlen. simpl String.length. lia. }
  reflexivity.
Qed.

Lemma posix_round_trip_ascii (p : string) :
  allChars isAsciiChar p = true ->
  startsWithSlash p = true ->
  startsWithTwoSlashes p = false ->
  SLASH_DRIVE_PATTERN p = false ->
  uriToPath false (pathToUri false p) = Some p.
Proof.
  intros Hascii Hs Hss Hd.
  rewrite (pathToUri_absolute p Hs Hss).
  assert (Hdec : decodeURI (encodeURI ("file://" +:+ p)) = Some ("file://" +:+ p)).
  { apply decode_encode_ascii. rewrite allChars_app, Hascii. reflexivity. }
  assert (Hne : p <> "") by (destruct p; [discriminate Hs | discriminate]).
  rewrite (uriToPath_decoded false _ p Hdec Hne). cbv zeta.
  rewrite Hd, Hs. reflexivity.
Qed.

Lemma pathToUri_relative (p : string) :
  startsWithSlash p = false -> DRIVE_PATTERN p = false -> pathToUri false p = "".
Proof.
  intros Hs Hd. unfold pathToUri.
  destruct p as [|c p]; [reflexivity|].
  simpl String.eqb. cbv iota.
  replace (startsWithTwoSlashes (String c p)) with false.
  2:{ symmetry. destruct p; simpl in *; [reflexivity|]. rewrite Hs. reflexivity. }
  rewrite Hs, Hd. reflexivity.
Qed.

End UriFacts.

(** X1.  [uriScheme] gives back the scheme of [scheme:rest]; what it
    returns never contains a colon, and it is empty for a string without
    one. *)
Theorem uriScheme_reads_the_scheme :
  (forall scheme rest : string,
      allChars (notChar ":") scheme = true ->
      uriScheme (scheme +:+ ":" +:+ rest) = scheme)
  /\ (forall u : string, allChars (notChar ":") (uriScheme u) = true)
  /\ (forall u : string, allChars (notChar ":") u = true -> uriScheme u = "").
Proof.
  split; [|split].
  - intros scheme rest Hs. unfold uriScheme, indexOf. simpl drop_str.
    change (scheme +:+ ":" +:+ rest) with (scheme +:+ String ":" rest).
    rewrite (indexOf_aux_app_found ":" scheme rest 0 Hs). simpl.
    unfold slice. simpl drop_str. rewrite Nat.sub_0_r. apply take_str_app.
  - intros u. unfold uriScheme, indexOf. simpl drop_str.
    destruct (indexOf_aux ":" u 0) as [i|] eqn:Hi; [|reflexivity].
    destruct (indexOf_aux_found_prefix _ _ _ _ Hi) as [_ Hall].
    unfold slice. simpl drop_str. exact Hall.
  - intros u Hu. unfold uriScheme, indexOf. simpl drop_str.
    rewrite (indexOf_aux_absent ":" u 0 Hu). reflexivity.
Qed.

Lemma uriScheme_reads_the_scheme_witness :
  uriScheme "file:///w/a.php" = "file" /\ uriScheme "relative/path" = "".
Proof.
  destruct uriScheme_reads_the_scheme as (Hscheme & _ & Hnone). split.
  - apply (Hscheme "file" "///w/a.php"). reflexivity.
  - apply Hnone. reflexivity.
Defined.

(** X2.  Whatever the platform and the path, [pathToUri] returns either
    the empty string or a uri that starts with file:// -- one whose scheme
    [uriScheme] reads as "file", so that it finds the local provider. *)
Theorem pathToUri_is_empty_or_local :
  forall (win : bool) (p : string),
    LocalFileSystem.pathToUri win p = ""
    \/ ((exists rest, LocalFileSystem.pathToUri win p = "file://" +:+ rest)
        /\ schemeFileSystemProvider (uriScheme (LocalFileSystem.pathToUri win p)) = true).
Proof.
  intros win p. unfold LocalFileSystem.pathToUri.
  destruct (String.eqb p ""); [left; reflexivity|].
  set (q := if win then replace_all "\" "/" p else p).
  assert (Hfile : forall x,
    (exists rest, encodeURI ("file://" +:+ x) = "file://" +:+ rest)
    /\ schemeFileSystemProvider (uriScheme (encodeURI ("file://" +:+ x))) = true).
  { intros x. split; [exists (encodeURI x)|]; reflexivity. }
  destruct (LocalFileSystem.startsWithTwoSlashes q).
  - destruct (indexOf q "/" 2); right; apply Hfile.
  - destruct (LocalFileSystem.startsWithSlash q); [right; apply Hfile|].
    destruct (LocalFileSystem.DRIVE_PATTERN q); [right; apply Hfile | left; reflexivity].
Qed.

(** X3.  On a non-Windows platform [uriToPath (pathToUri p) = p] for every
    absolute path [p] made of ASCII characters -- those that [encodeURI]
    escapes, such as spaces and '%', included -- that starts with a single
    slash and not with a slash, a letter and a colon. *)
Theorem posix_round_trip_through_escapes :
  forall p : string,
    allChars isAsciiChar p = true ->
    LocalFileSystem.startsWithSlash p = true ->
    LocalFileSystem.startsWithTwoSlashes p = false ->
    LocalFileSystem.SLASH_DRIVE_PATTERN p = false ->
    LocalFileSystem.uriToPath false (LocalFileSystem.pathToUri false p) = Some p.
Proof.
  intros p Hascii Hs Hss Hd. exact (posix_round_trip_ascii p Hascii Hs Hss Hd).
Qed.

Lemma posix_round_trip_through_escapes_witness :
  LocalFileSystem.pathToUri false "/home/my projects/100%/a[1].php"
  = "file:///home/my%20projects/100%25/a%5B1%5D.php"
  /\ LocalFileSystem.uriToPath false
       (LocalFileSystem.pathToUri false "/home/my projects/100%/a[1].php")
     = Some "/home/my projects/100%/a[1].php".
Proof.
  split; [reflexivity|].
  apply posix_round_trip_through_escapes; reflexivity.
Defined.

Section DriveAndUnc.

Import LocalFileSystem.

Lemma letter_facts (c : ascii) :
  isLetter c = true ->
  isAsciiChar c = true
  /\ Ascii.eqb c "\" = false /\ Ascii.eqb c "/" = false
  /\ isLetter (toLowerCase_char c) = true
  /\ isAsciiChar (toLowerCase_char c) = true
  /\ Ascii.eqb (toLowerCase_char c) "/" = false.
Proof.
  intros H. destruct c as [[] [] [] [] [] [] [] []];
    try discriminate H; repeat split.
Qed.

Lemma replace_all_ascii (a b : ascii) (s : string) :
  isAsciiChar b = true -> allChars isAsciiChar s = true ->
  allChars isAsciiChar (replace_all a b s) = true.
Proof.
  intros Hb. induction s as [|c s IH]; simpl; [reflexivity|].
  intros [Hc Hs]%andb_true_iff. rewrite (IH Hs).
  destruct (Ascii.eqb c a); [rewrite Hb | rewrite Hc]; reflexivity.
Qed.

Lemma replace_back (s : string) :
  replace_all "/" "\" (replace_all "\" "/" s) = replace_all "/" "\" s.
Proof.
  induction s as [|c s IH]; simpl; [reflexivity|]. rewrite IH. f_equal.
  destruct (Ascii.eqb_spec c "\") as [->|Hn]; [reflexivity|].
  reflexivity.
Qed.

End DriveAndUnc.

(** X4.  On Windows, a drive path of ASCII characters comes back from
    [uriToPath (pathToUri p)] with its drive letter in lower case and every
    slash turned into a backslash, and otherwise unchanged: C:\x/y returns
    as c:\x\y. *)
Theorem windows_drive_round_trip_normalises :
  forall p : string,
    allChars isAsciiChar p = true ->
    LocalFileSystem.DRIVE_PATTERN p = true ->
    LocalFileSystem.uriToPath true (LocalFileSystem.pathToUri true p)
    = Some (replace_all "/" "\" (lowerFirst p)).
Proof.
  intros p Hascii Hdrive.
  destruct p as [|c0 [|c1 r]]; try discriminate Hdrive.
  simpl in Hdrive. apply andb_true_iff in Hdrive as [Hletter Hcolon].
  apply Ascii.eqb_eq in Hcolon. subst c1.
  destruct (letter_facts c0 Hletter) as (Ha0 & Hbs & Hsl & Hll & Hla & Hlsl).
  simpl in Hascii. apply andb_true_iff in Hascii as [_ Hr].
  assert (Hr' : allChars isAsciiChar (replace_all "\" "/" r) = true)
    by (apply replace_all_ascii; [reflexivity | exact Hr]).
  assert (Huri :
    LocalFileSystem.pathToUri true (String c0 (String ":" r))
    = encodeURI ("file://" +:+
                 String "/" (String (toLowerCase_char c0)
                               (String ":" (replace_all "\" "/" r))))).
  { unfold LocalFileSystem.pathToUri. simpl String.eqb. cbv iota.
    simpl replace_all. rewrite Hbs.
    unfold LocalFileSystem.startsWithTwoSlashes, LocalFileSystem.startsWithSlash,
      LocalFileSystem.DRIVE_PATTERN.
    rewrite Hsl, Hletter. reflexivity. }
  rewrite Huri.
  rewrite (uriToPath_decoded true _
             (String "/" (String (toLowerCase_char c0)
                            (String ":" (replace_all "\" "/" r))))).
  - cbv zeta. unfold LocalFileSystem.SLASH_DRIVE_PATTERN.
    rewrite Hll. simpl. rewrite replace_back. reflexivity.
  - apply decode_encode_ascii. simpl. rewrite Hla, Hr'. reflexivity.
  - discriminate.
Qed.

Lemma windows_drive_round_trip_normalises_witness :
  LocalFileSystem.pathToUri true "C:\Users\dev/app\index.php"
  = "file:///c:/Users/dev/app/index.php"
  /\ LocalFileSystem.uriToPath true
       (LocalFileSystem.pathToUri true "C:\Users\dev/app\index.php")
     = Some "c:\Users\dev\app\index.php".
Proof.
  split; [reflexivity|].
  apply (windows_drive_round_trip_normalises "C:\Users\dev/app\index.php"); reflexivity.
Defined.

(** X5.  On a non-Windows platform a UNC path //host/rest of ASCII
    characters, with a non-empty host and a path part that does not start
    with a slash, a letter and a colon, is mapped to file://host/rest and
    comes back unchanged from [uriToPath]. *)
Theorem unc_round_trip :
  forall host rest : string,
    host <> "" ->
    allChars (notChar "/") host = true ->
    allChars isAsciiChar host = true ->
    allChars isAsciiChar rest = true ->
    LocalFileSystem.SLASH_DRIVE_PATTERN ("/" +:+ rest) = false ->
    LocalFileSystem.pathToUri false ("//" +:+ host +:+ "/" +:+ rest)
    = encodeURI ("file://" +:+ host +:+ "/" +:+ rest)
    /\ LocalFileSystem.uriToPath false
         (LocalFileSystem.pathToUri false ("//" +:+ host +:+ "/" +:+ rest))
       = Some ("//" +:+ host +:+ "/" +:+ rest).
Proof.
  intros host rest Hne Hnoslash Hah Har Hdrive.
  assert (Huri :
    LocalFileSystem.pathToUri false ("//" +:+ host +:+ "/" +:+ rest)
    = encodeURI ("file://" +:+ host +:+ "/" +:+ rest)).
  { unfold LocalFileSystem.pathToUri.
    change ("//" +:+ host +:+ "/" +:+ rest)
      with (String "/" (String "/" (host +:+ String "/" rest))).
    simpl String.eqb. cbv iota. simpl LocalFileSystem.startsWithTwoSlashes. cbv iota.
    unfold indexOf. simpl drop_str.
    rewrite (indexOf_aux_app_found "/" host rest 2 Hnoslash).
    unfold slice, slice_from.
    replace (2 + String.length host - 2)%nat with (String.length host) by lia.
    simpl drop_str. rewrite take_str_app, drop_str_app.
    change (String "/" rest) with ("/" +:+ rest). rewrite Hdrive. reflexivity. }
  split; [exact Huri|]. rewrite Huri.
  destruct host as [|h host]; [contradiction|].
  simpl in Hnoslash. apply andb_true_iff in Hnoslash as [Hh _].
  unfold notChar in Hh. apply negb_true_iff in Hh.
  rewrite (uriToPath_decoded false _ (String h host +:+ "/" +:+ rest)).
  - cbv zeta.
    assert (Hsd : LocalFileSystem.SLASH_DRIVE_PATTERN (String h host +:+ "/" +:+ rest) = false).
    { unfold LocalFileSystem.SLASH_DRIVE_PATTERN. simpl. rewrite Hh.
      destruct (host +:+ "/" +:+ rest) as [|c1 [|c2 r]]; reflexivity. }
    rewrite Hsd. simpl LocalFileSystem.startsWithSlash. rewrite Hh. reflexivity.
  - apply decode_encode_ascii.
    change ("file://" +:+ String h host +:+ "/" +:+ rest)
      with ("file://" +:+ (String h host +:+ String "/" rest)).
    rewrite !allChars_app. simpl allChars at 1.
    rewrite Hah. simpl. exact Har.
  - discriminate.
Qed.

Lemma unc_round_trip_witness :
  LocalFileSystem.pathToUri false "//fileserver/share/my app/a.php"
  = "file://fileserver/share/my%20app/a.php"
  /\ LocalFileSystem.uriToPath false
       (LocalFileSystem.pathToUri false "//fileserver/share/my app/a.php")
     = Some "//fileserver/share/my app/a.php".
Proof.
  destruct (unc_round_trip "fileserver" "share/my app/a.php") as [Huri Hback];
    try reflexivity; [discriminate|].
  split; [exact Huri | exact Hback].
Defined.

(** ** The folder table *)

Section FolderTable.

Import Workspace.

Lemma list_ascii_app (s t : string) :
  list_ascii_of_string (s +:+ t) = list_ascii_of_string s ++ list_ascii_of_string t.
Proof. induction s as [|c s IH]; simpl; [reflexivity | rewrite IH; reflexivity]. Qed.

Lemma endsWith_appended (s : string) (c : ascii) : endsWith (s +:+ String c "") c = true.
Proof.
  unfold endsWith. rewrite list_ascii_app, rev_app_distr. simpl. apply Ascii.eqb_refl.
Qed.

Lemma storedFolder_ends_with_slash (folder : Folder) :
  endsWith (folder_uri (storedFolder folder)) "/" = true.
Proof.
  unfold storedFolder. destruct (endsWith (folder_uri folder) "/") eqn:H; [exact H|].
  simpl. apply endsWith_appended.
Qed.

Lemma addFolder_assigns (folder : Folder) (fs : Folders) :
  addFolder folder fs = assign fs (storedFolder folder).
Proof. reflexivity. Qed.

Lemma assign_uris (fs : Folders) (f : Folder) :
  forall u, u ∈ map folder_uri (assign fs f) <-> u ∈ map folder_uri fs \/ u = folder_uri f.
Proof.
  induction fs as [|g fs IH]; intros u; simpl.
  - rewrite list_elem_of_singleton, elem_of_nil. tauto.
  - destruct (String.eqb_spec (folder_uri g) (folder_uri f)) as [Heq|Hne]; simpl.
    + rewrite !elem_of_cons, Heq. tauto.
    + rewrite !elem_of_cons, IH. tauto.
Qed.

Lemma assign_invariant (fs : Folders) (f : Folder) :
  endsWith (folder_uri f) "/" = true -> tableInvariant fs -> tableInvariant (assign fs f).
Proof.
  intros Hf [Hall Hnd]. split.
  - induction Hall as [|g fs Hg Hall IH]; simpl.
    + apply Forall_cons. split; [exact Hf | apply Forall_nil_2].
    + destruct (String.eqb (folder_uri g) (folder_uri f)).
      * apply Forall_cons. split; [exact Hf | exact Hall].
      * apply Forall_cons. split; [exact Hg|]. apply IH.
        simpl in Hnd. apply NoDup_cons in Hnd as [_ Hnd]. exact Hnd.
  - clear Hall. induction fs as [|g fs IH]; simpl.
    + apply NoDup_singleton.
    + simpl in Hnd. apply NoDup_cons in Hnd as [Hg Hnd].
      destruct (String.eqb_spec (folder_uri g) (folder_uri f)) as [Heq|Hne]; simpl.
      * apply NoDup_cons. split; [rewrite <- Heq; exact Hg | exact Hnd].
      * apply NoDup_cons. split; [|apply IH; exact Hnd].
        rewrite assign_uris. intros [Hin|Heq]; [contradiction | congruence].
Qed.

Lemma addFolder_invariant (folder : Folder) (fs : Folders) :
  tableInvariant fs -> tableInvariant (addFolder folder fs).
Proof.
  intros H. rewrite addFolder_assigns. apply assign_invariant; [|exact H].
  apply storedFolder_ends_with_slash.
Qed.

Lemma removeFolder_sublist (folder : Folder) (fs : Folders) :
  sublist (removeFolder folder fs) fs.
Proof.
  unfold removeFolder. induction fs as [|g fs IH]; simpl; [constructor|].
  destruct (negb _); [apply sublist_skip | apply sublist_cons]; exact IH.
Qed.

Lemma removeFolder_invariant (folder : Folder) (fs : Folders) :
  tableInvariant fs -> tableInvariant (removeFolder folder fs).
Proof.
  intros [Hall Hnd]. pose proof (removeFolder_sublist folder fs) as Hsub. split.
  - rewrite Forall_forall in *. intros g Hg. apply Hall.
    eapply elem_of_sublist; eassumption.
  - eapply sublist_NoDup; [exact Hnd|].
    change (map folder_uri) with (fmap (M:=list) folder_uri).
    apply fmap_sublist. exact Hsub.
Qed.

Lemma fold_add_invariant (added : list Folder) :
  forall fs, tableInvariant fs ->
             tableInvariant (fold_left (fun acc f => addFolder f acc) added fs).
Proof.
  induction added as [|f added IH]; intros fs H; simpl; [exact H|].
  apply IH, addFolder_invariant, H.
Qed.

Lemma fold_remove_invariant (removed : list Folder) :
  forall fs, tableInvariant fs ->
             tableInvariant (fold_left (fun acc f => removeFolder f acc) removed fs).
Proof.
  induction removed as [|f removed IH]; intros fs H; simpl; [exact H|].
  apply IH, removeFolder_invariant, H.
Qed.

Lemma removeFolder_absent (folder : Folder) (fs : Folders) :
  folder_uri folder ∉ map folder_uri fs -> removeFolder folder fs = fs.
Proof.
  unfold removeFolder. induction fs as [|g fs IH]; simpl; [reflexivity|].
  intros Hnot. apply not_elem_of_cons in Hnot as [Hne Hnot].
  destruct (String.eqb_spec (folder_uri g) (folder_uri folder)) as [Heq|_].
  - congruence.
  - simpl. f_equal. apply IH. exact Hnot.
Qed.

End FolderTable.

(** X6.  Whatever folders are registered at start-up and whatever
    change notifications follow, every uri in the folder table ends with a
    slash and no uri is registered twice. *)
Theorem folder_table_keeps_its_invariant :
  forall (initial : list Folder) (changes : list (list Folder * list Folder)),
    tableInvariant (folderTable initial changes).
Proof.
  intros initial changes. unfold folderTable.
  assert (Hstart : tableInvariant (fold_left (fun acc f => Workspace.addFolder f acc) initial [])).
  { apply fold_add_invariant. split; [apply Forall_nil_2 | apply NoDup_nil_2]. }
  revert Hstart. generalize (fold_left (fun acc f => Workspace.addFolder f acc) initial []).
  induction changes as [|[added removed] changes IH]; intros fs H; simpl; [exact H|].
  apply IH. unfold changeWorkspaceFolders. simpl.
  apply fold_remove_invariant, fold_add_invariant, H.
Qed.

(** X7.  [removeFolder] compares the uri as it is given: on a table
    that keeps its invariant, removing a folder whose uri does not end with
    a slash removes nothing -- in particular not the folder [addFolder]
    stored for that very uri. *)
Theorem removeFolder_without_slash_removes_nothing :
  forall (fs : Workspace.Folders) (folder : Folder),
    tableInvariant fs ->
    Workspace.endsWith (folder_uri folder) "/" = false ->
    Workspace.removeFolder folder fs = fs
    /\ Workspace.removeFolder folder (Workspace.addFolder folder fs)
       = Workspace.addFolder folder fs.
Proof.
  assert (Hgen : forall fs folder,
    tableInvariant fs -> Workspace.endsWith (folder_uri folder) "/" = false ->
    Workspace.removeFolder folder fs = fs).
  { intros fs folder [Hall _] Hno. apply removeFolder_absent.
    intros Hin. apply list_elem_of_fmap in Hin as (g & Hu & Hg).
    rewrite Forall_forall in Hall. specialize (Hall g Hg). congruence. }
  intros fs folder Hinv Hno. split; [exact (Hgen fs folder Hinv Hno)|].
  apply Hgen; [|exact Hno]. apply addFolder_invariant, Hinv.
Qed.

Lemma removeFolder_without_slash_removes_nothing_witness :
  Workspace.removeFolder (mkFolder "file:///w" "w") [mkFolder "file:///w/" "w"]
  = [mkFolder "file:///w/" "w"]
  /\ Workspace.removeFolder (mkFolder "file:///w" "w")
       (Workspace.addFolder (mkFolder "file:///w" "w") [mkFolder "file:///w/" "w"])
     = Workspace.addFolder (mkFolder "file:///w" "w") [mkFolder "file:///w/" "w"].
Proof.
  apply removeFolder_without_slash_removes_nothing; [|reflexivity].
  split.
  - apply Forall_cons. split; [reflexivity | apply Forall_nil_2].
  - apply NoDup_singleton.
Defined.

(** X8.  [addFolder] stores the folder under its uri completed with a
    slash: afterwards that folder is in the table, every folder registered
    under another uri is still there, and registering the same folder again
    changes nothing. *)
Theorem addFolder_registers_once :
  forall (fs : Workspace.Folders) (folder : Folder),
    storedFolder folder ∈ Workspace.addFolder folder fs
    /\ (forall g, g ∈ fs -> folder_uri g <> folder_uri (storedFolder folder) ->
                  g ∈ Workspace.addFolder folder fs)
    /\ Workspace.addFolder folder (Workspace.addFolder folder fs)
       = Workspace.addFolder folder fs.
Proof.
  intros fs folder. rewrite !addFolder_assigns.
  generalize (storedFolder folder) as f. intros f. repeat split.
  - induction fs as [|g fs IH]; simpl; [left|].
    destruct (String.eqb (folder_uri g) (folder_uri f)); [left | right; exact IH].
  - intros g Hg Hne. induction fs as [|h fs IH]; simpl; [inversion Hg|].
    apply elem_of_cons in Hg as [->|Hg].
    + destruct (String.eqb_spec (folder_uri h) (folder_uri f)); [contradiction | left].
    + destruct (String.eqb (folder_uri h) (folder_uri f)); right; auto.
  - induction fs as [|g fs IH]; simpl.
    + rewrite String.eqb_refl. reflexivity.
    + destruct (String.eqb (folder_uri g) (folder_uri f)) eqn:Hg; simpl.
      * rewrite String.eqb_refl. reflexivity.
      * rewrite Hg, IH. reflexivity.
Qed.

(** ** Discovery: the guard set and what the wiring yields *)

Section GuardFacts.

Import FileSearchProvider.

Lemma claimPackages_spec (packages : list string) :
  forall guard kept guard',
    NoDup guard ->
    claimPackages packages guard = (kept, guard') ->
    NoDup kept
    /\ (forall v, v ∈ kept <-> v ∈ packages /\ v ∉ guard)
    /\ NoDup guard'
    /\ (forall v, v ∈ guard' <-> v ∈ guard \/ v ∈ packages).
Proof.
  induction packages as [|p packages IH]; intros guard kept guard' Hnd H; simpl in H.
  - injection H as <- <-.
    split; [apply NoDup_nil_2|]. split; [|split; [exact Hnd|]].
    + intros v. rewrite elem_of_nil. tauto.
    + intros v. rewrite elem_of_nil. tauto.
  - destruct (JsSet.has guard p) eqn:Hp.
    + apply has_true in Hp.
      destruct (IH _ _ _ Hnd H) as (Hk & Hkept & Hg & Hguard).
      split; [exact Hk|]. split; [|split; [exact Hg|]].
      * intros v. rewrite Hkept, elem_of_cons.
        split; [tauto|]. intros [[->|Hv] Hout]; [contradiction | tauto].
      * intros v. rewrite Hguard, elem_of_cons.
        split; [tauto|]. intros [Hv|[->|Hv]]; tauto.
    + apply has_false in Hp.
      destruct (FileSearchProvider.claimPackages packages (JsSet.add guard p))
        as [kept0 g0] eqn:Hrec.
      injection H as <- <-.
      destruct (IH _ _ _ (NoDup_add guard p Hnd) Hrec) as (Hk & Hkept & Hg & Hguard).
      assert (Hfresh : p ∉ kept0).
      { intros Hin. apply Hkept in Hin as [_ Hout]. apply Hout.
        apply elem_of_add. right. reflexivity. }
      split; [apply NoDup_cons; split; assumption|]. split; [|split; [exact Hg|]].
      * intros v. rewrite elem_of_cons, Hkept, elem_of_add, elem_of_cons.
        destruct (decide (v = p)) as [->|Hne]; [tauto|]. tauto.
      * intros v. rewrite Hguard, elem_of_add, elem_of_cons. tauto.
Qed.

Lemma claimPackages_claimed (packages : list string) :
  forall guard, (forall v, v ∈ packages -> v ∈ guard) -> claimPackages packages guard = ([], guard).
Proof.
  induction packages as [|p packages IH]; intros guard H; simpl; [reflexivity|].
  assert (Hp : JsSet.has guard p = true) by (apply has_true, H; left).
  rewrite Hp. apply IH. intros v Hv. apply H. right. exact Hv.
Qed.

Lemma vendorGlobs_unfold (packages associations : list string) (guard : Guard) :
  vendorGlobs packages associations guard
  = (Resolved (map (vendorGlob associations) (fst (claimPackages packages guard))),
     snd (claimPackages packages guard), []).
Proof.
  unfold vendorGlobs. destruct (claimPackages packages guard). reflexivity.
Qed.

End GuardFacts.

(** X9.  [vendorGlobs] builds one glob for each package name that is
    in the list and not yet in the guard set -- one per name, however often
    the list repeats it -- and leaves the guard set holding what it held
    plus every name of the list. *)
Theorem vendorGlobs_claims_each_package_once :
  forall (packages associations globs : list string)
         (guard guard' : FileSearchProvider.Guard) (evs : list IoEvent),
    NoDup guard ->
    FileSearchProvider.vendorGlobs packages associations guard = (Resolved globs, guard', evs) ->
    exists kept : list string,
      globs = map (vendorGlob associations) kept
      /\ NoDup kept
      /\ (forall v, v ∈ kept <-> v ∈ packages /\ v ∉ guard)
      /\ NoDup guard'
      /\ (forall v, v ∈ guard' <-> v ∈ guard \/ v ∈ packages).
Proof.
  intros packages associations globs guard guard' evs Hnd Hrun.
  destruct (FileSearchProvider.claimPackages packages guard) as [kept g] eqn:Hc.
  rewrite vendorGlobs_unfold, Hc in Hrun. simpl in Hrun. injection Hrun as <- <- _.
  exists kept. split; [reflexivity|].
  exact (claimPackages_spec packages guard kept g Hnd Hc).
Qed.

Lemma vendorGlobs_claims_each_package_once_witness :
  exists kept : list string,
    ["acme/log/**/{*.php,*.inc}"; "acme/db/**/{*.php,*.inc}"]
    = map (vendorGlob ["*.php"; "*.inc"; "lib/*.module"]) kept
    /\ NoDup kept
    /\ (forall v, v ∈ kept <->
                  v ∈ ["acme/log"; "acme/http"; "acme/log"; "acme/db"] /\ v ∉ ["acme/http"])
    /\ NoDup ["acme/http"; "acme/log"; "acme/db"]
    /\ (forall v, v ∈ ["acme/http"; "acme/log"; "acme/db"] <->
                  v ∈ ["acme/http"] \/ v ∈ ["acme/log"; "acme/http"; "acme/log"; "acme/db"]).
Proof.
  exact (vendorGlobs_claims_each_package_once
           ["acme/log"; "acme/http"; "acme/log"; "acme/db"]
           ["*.php"; "*.inc"; "lib/*.module"] _ ["acme/http"] _ _
           (NoDup_singleton _) eq_refl).
Defined.

(** X10.  Within one discovery pass a package is claimed once: after
    [vendorGlobs] ran over a list of packages, running it again -- for a
    later folder -- over names that were in that list or in the guard
    before yields no glob and leaves the guard set as it is. *)
Theorem vendorGlobs_skips_claimed_packages :
  forall (packages later associations : list string) (guard : FileSearchProvider.Guard),
    NoDup guard ->
    (forall v, v ∈ later -> v ∈ packages \/ v ∈ guard) ->
    let guard1 := snd (fst (FileSearchProvider.vendorGlobs packages associations guard)) in
    FileSearchProvider.vendorGlobs later associations guard1 = (Resolved [], guard1, []).
Proof.
  intros packages later associations guard Hnd Hsub guard1.
  destruct (FileSearchProvider.claimPackages packages guard) as [kept g] eqn:Hc.
  destruct (claimPackages_spec packages guard kept g Hnd Hc) as (_ & _ & _ & Hg).
  assert (Hg1 : guard1 = g).
  { subst guard1. rewrite vendorGlobs_unfold, Hc. reflexivity. }
  rewrite Hg1, vendorGlobs_unfold.
  rewrite (claimPackages_claimed later g); [reflexivity|].
  intros v Hv. apply Hg. destruct (Hsub v Hv); auto.
Qed.

Lemma vendorGlobs_skips_claimed_packages_witness :
  FileSearchProvider.vendorGlobs ["acme/log"; "acme/http"] ["*.php"]
    ["acme/http"; "acme/log"; "acme/db"]
  = (Resolved [], ["acme/http"; "acme/log"; "acme/db"], []).
Proof.
  exact (vendorGlobs_skips_claimed_packages ["acme/log"; "acme/http"; "acme/log"; "acme/db"]
           ["acme/log"; "acme/http"] ["*.php"] ["acme/http"] (NoDup_singleton _)
           ltac:(intros v Hv; left; apply elem_of_cons in Hv as [->|Hv];
                 [apply list_elem_of_here|];
                 apply list_elem_of_singleton in Hv as ->;
                 apply list_elem_of_further, list_elem_of_here)).
Defined.

Section DiscoveryOutcome.

Import FileSearchProvider.

Variable pf : Platform.

Lemma findFiles_from_outcome folders associations exclude useComposerJson :
  forall guard,
    findFiles_from pf folders associations exclude useComposerJson guard
    = (if existsb (fun f => String.eqb (uriScheme (folder_uri f)) "file") folders
       then Rejected noReceiver else Resolved [], guard, []).
Proof.
  induction folders as [|f rest IH]; intros guard; simpl; [reflexivity|].
  unfold bind. rewrite findFilesInFolder_plain_call.
  destruct (String.eqb (uriScheme (folder_uri f)) "file"); simpl; [reflexivity|].
  rewrite IH. destruct (existsb _ rest); reflexivity.
Qed.

End DiscoveryOutcome.

(** X12.  [findFiles] applies [findFilesInFolder] without a receiver, so
    it never gets to the file system: it rejects with the TypeError of
    [this.uri] as soon as one folder has the scheme "file", and resolves to
    the empty list otherwise.  It never resolves to a file. *)
Theorem findFiles_never_finds_a_file :
  forall (pf : Platform) (folders : list Folder) (associations exclude : list string)
         (useComposerJson : bool),
    FileSearchProvider.findFiles pf folders associations exclude useComposerJson
    = (if existsb (fun f => String.eqb (uriScheme (folder_uri f)) "file") folders
       then Rejected noReceiver else Resolved [], []).
Proof.
  intros pf folders associations exclude useComposerJson.
  unfold FileSearchProvider.findFiles, settle.
  rewrite findFiles_from_outcome. reflexivity.
Qed.

(** X13.  On a non-Windows platform, take an entry that the glob search
    reports under a path of ASCII characters that starts with exactly one
    slash and does not start with a slash, a letter and a colon.  The
    document read for it is the file at that very path: [getDocument] on
    the entry's uri asks the file system for the entry's path, and the
    document it builds carries the uri and the content read; a failed read
    yields no document and a warning.  (A path such as /c:/w/a.php is
    outside this: its uri leads back to c:/w/a.php.) *)
Theorem getDocument_reads_the_discovered_path :
  forall (pf : Platform) (entry : FastGlobEntry) (S : Type) (st : S),
    win32 pf = false ->
    allChars isAsciiChar (path entry) = true ->
    LocalFileSystem.startsWithSlash (path entry) = true ->
    LocalFileSystem.startsWithTwoSlashes (path entry) = false ->
    LocalFileSystem.SLASH_DRIVE_PATTERN (path entry) = false ->
    let u := uri (FileSearchProvider.findFilesTransform pf entry) in
    Workspace.getDocument pf u st
    = match fs_readFile pf (path entry) with
      | inl data => (Resolved (Some (mkDoc u "php" data 0)), st, [FsReadFile (path entry)])
      | inr code => (Resolved None, st, [FsReadFile (path entry); LogWarn (errorText code)])
      end.
Proof.
  intros pf entry S st Hwin Hascii Hs Hss Hd u.
  assert (Hu : u = LocalFileSystem.pathToUri false (path entry)).
  { subst u. unfold FileSearchProvider.findFilesTransform. simpl. rewrite Hwin. reflexivity. }
  assert (Hscheme : schemeFileSystemProvider (uriScheme u) = true).
  { rewrite Hu, (pathToUri_absolute _ Hs Hss). reflexivity. }
  assert (Hback : LocalFileSystem.uriToPath (win32 pf) u = Some (path entry)).
  { rewrite Hu, Hwin. exact (posix_round_trip_ascii _ Hascii Hs Hss Hd). }
  unfold Workspace.getDocument. rewrite Hscheme. simpl negb. cbv iota.
  unfold LocalFileSystem_readFile. rewrite Hback.
  unfold bind, emit, ret. destruct (fs_readFile pf (path entry)); reflexivity.
Qed.

Lemma getDocument_reads_the_discovered_path_witness :
  Workspace.getDocument Scenario.twoFilePlatform
    (uri (FileSearchProvider.findFilesTransform Scenario.twoFilePlatform
            (mkEntry "/w/a.php" 10 120))) tt
  = (Resolved (Some (mkDoc "file:///w/a.php" "php" "<?php a" 0)), tt,
     [FsReadFile "/w/a.php"]).
Proof.
  exact (getDocument_reads_the_discovered_path Scenario.twoFilePlatform
           (mkEntry "/w/a.php" 10 120) unit tt eq_refl eq_refl eq_refl eq_refl eq_refl).
Defined.

(** X14.  On a non-Windows platform, an entry that the glob search
    reports under a path that starts neither with a slash nor with a letter
    followed by a colon gets the empty string as its uri, and
    [getDocument] on that uri yields no document without touching the file
    system: such a file is listed and never read.  (A relative path such as
    c:a.php is outside this: it gets a uri and is read.) *)
Theorem relative_entry_is_never_read :
  forall (pf : Platform) (entry : FastGlobEntry) (S : Type) (st : S),
    win32 pf = false ->
    LocalFileSystem.startsWithSlash (path entry) = false ->
    LocalFileSystem.DRIVE_PATTERN (path entry) = false ->
    uri (FileSearchProvider.findFilesTransform pf entry) = ""
    /\ Workspace.getDocument pf (uri (FileSearchProvider.findFilesTransform pf entry)) st
       = (Resolved None, st, []).
Proof.
  intros pf entry S st Hwin Hs Hd.
  assert (Hu : uri (FileSearchProvider.findFilesTransform pf entry) = "").
  { unfold FileSearchProvider.findFilesTransform. simpl. rewrite Hwin.
    exact (pathToUri_relative _ Hs Hd). }
  split; [exact Hu|]. rewrite Hu. reflexivity.
Qed.

Lemma relative_entry_is_never_read_witness :
  uri (FileSearchProvider.findFilesTransform Scenario.twoFilePlatform
         (mkEntry "src/a.php" 10 120)) = ""
  /\ Workspace.getDocument Scenario.twoFilePlatform
       (uri (FileSearchProvider.findFilesTransform Scenario.twoFilePlatform
               (mkEntry "src/a.php" 10 120))) tt
     = (Resolved None, tt, []).
Proof.
  exact (relative_entry_is_never_read Scenario.twoFilePlatform (mkEntry "src/a.php" 10 120)
           unit tt eq_refl eq_refl eq_refl).
Defined.

(** ** The cache: entries *)

Section CacheEntries.

Import Fs Cache.

Lemma lookupFile_filter_other (l : list (string * string)) (p q : string) :
  q <> p ->
  lookupFile (List.filter (fun e => negb (String.eqb (fst e) p)) l) q = lookupFile l q.
Proof.
  intros Hne. induction l as [|[x d] l IH]; simpl; [reflexivity|].
  destruct (String.eqb x p) eqn:Hxp; simpl.
  - apply String.eqb_eq in Hxp. subst x.
    destruct (String.eqb p q) eqn:Hpq; [|exact IH].
    apply String.eqb_eq in Hpq. congruence.
  - rewrite IH. reflexivity.
Qed.

Lemma lookupFile_filter_same (l : list (string * string)) (p : string) :
  lookupFile (List.filter (fun e => negb (String.eqb (fst e) p)) l) p = None.
Proof.
  induction l as [|[x d] l IH]; simpl; [reflexivity|].
  destruct (String.eqb x p) eqn:Hxp; simpl; [exact IH|]. rewrite Hxp. exact IH.
Qed.

Lemma lookupFile_present (l : list (string * string)) (p : string) :
  existsb (fun e => String.eqb (fst e) p) l = true -> exists d, lookupFile l p = Some d.
Proof.
  induction l as [|[x d] l IH]; simpl; [discriminate|].
  destruct (String.eqb x p); simpl; eauto.
Qed.

(** A file just written is read back whole. *)
Lemma read_after_write (fs fs' : FsState) (p data : string) :
  writeFile fs p data = inr fs' -> createReadStream fs' p = ReadData data.
Proof.
  unfold writeFile. destruct (isDir fs p) eqn:Hd; [discriminate|].
  destruct (negb (dirExists fs (dirname p))); [discriminate|].
  intros [= <-]. unfold createReadStream, isDir in *. simpl. rewrite Hd.
  rewrite String.eqb_refl. reflexivity.
Qed.

(** Writing one file leaves what is read from any other path as it was. *)
Lemma read_other_after_write (fs fs' : FsState) (p q data : string) :
  q <> p -> writeFile fs p data = inr fs' -> createReadStream fs' q = createReadStream fs q.
Proof.
  intros Hne. unfold writeFile. destruct (isDir fs p); [discriminate|].
  destruct (negb (dirExists fs (dirname p))); [discriminate|].
  intros [= <-]. unfold createReadStream, isDir. simpl.
  destruct (String.eqb p q) eqn:Hpq; [apply String.eqb_eq in Hpq; congruence|].
  rewrite (lookupFile_filter_other _ _ _ Hne). reflexivity.
Qed.

Lemma read_after_unlink (fs fs' : FsState) (p : string) :
  unlink fs p = inr fs' -> createReadStream fs' p = ReadFail (Some "ENOENT").
Proof.
  unfold unlink. destruct (isDir fs p) eqn:Hd; [discriminate|].
  destruct (isFile fs p); [|discriminate].
  intros [= <-]. unfold createReadStream, isDir in *. simpl. rewrite Hd.
  rewrite lookupFile_filter_same. reflexivity.
Qed.

Lemma read_other_after_unlink (fs fs' : FsState) (p q : string) :
  q <> p -> unlink fs p = inr fs' -> createReadStream fs' q = createReadStream fs q.
Proof.
  intros Hne. unfold unlink. destruct (isDir fs p); [discriminate|].
  destruct (isFile fs p); [|discriminate].
  intros [= <-]. unfold createReadStream, isDir. simpl.
  rewrite (lookupFile_filter_other _ _ _ Hne). reflexivity.
Qed.

End CacheEntries.

(** X15.  What [put] stored under a key, [get] returns for that key,
    provided the JSON codec reads back what it writes; an entry already
    stored under the key is replaced. *)
Theorem put_then_get_returns_the_data :
  forall (js : Cache.JSONStream) (c : Cache.Cache) (key : string)
         (data : list Cache.Json) (fate : Fs.StreamFate) (fs fs1 : Fs.FsState),
    Cache.parse js (Cache.stringify js data) = (data, None) ->
    Cache.put js c key data fate fs = (Resolved tt, fs1) ->
    Cache.get js c key fs1 = Resolved data.
Proof.
  intros js c key data fate fs fs1 Hcodec Hput. unfold Cache.put in Hput.
  destruct fate as [|message written].
  2:{ destruct (Fs.writeFile fs (Cache.pathFromKey c key)
                  (take_str written (Cache.stringify js data)));
        discriminate Hput. }
  destruct (Fs.writeFile fs (Cache.pathFromKey c key) (Cache.stringify js data))
    as [code|fs'] eqn:Hw; [discriminate Hput|].
  injection Hput as <-. unfold Cache.get.
  rewrite (read_after_write _ _ _ _ Hw). simpl. rewrite Hcodec. reflexivity.
Qed.

Lemma put_then_get_returns_the_data_witness :
  Cache.stringify Cases.atomCodec
    [Cache.JNum 1; Cache.JBool true; Cache.JNull; Cache.JNum (-25)] = "[1,true,null,-25]"
  /\ Cache.get Cases.atomCodec Scenario.tmpCache "k"
       (snd (Cache.put Cases.atomCodec Scenario.tmpCache "k"
               [Cache.JNum 1; Cache.JBool true; Cache.JNull; Cache.JNum (-25)] Fs.Finishes
               (Fs.mkFs [("/tmp/c/k.json", "[7]")] ["/tmp"; "/tmp/c"])))
     = Resolved [Cache.JNum 1; Cache.JBool true; Cache.JNull; Cache.JNum (-25)].
Proof.
  split; [reflexivity|].
  apply (put_then_get_returns_the_data Cases.atomCodec Scenario.tmpCache "k"
           [Cache.JNum 1; Cache.JBool true; Cache.JNull; Cache.JNum (-25)] Fs.Finishes
           (Fs.mkFs [("/tmp/c/k.json", "[7]")] ["/tmp"; "/tmp/c"])); reflexivity.
Defined.

(** X16.  [put] touches one entry only: however it settles, what [get]
    returns for a key that names another file is the same before and
    after.  A [put] that is rejected did not necessarily leave its own
    entry alone: when the failure came after the file was opened, the
    entry holds what had been written by then and its former content is
    lost. *)
Theorem put_leaves_the_other_entries :
  forall (js : Cache.JSONStream) (c : Cache.Cache) (key other : string)
         (data : list Cache.Json) (fate : Fs.StreamFate) (fs : Fs.FsState),
    Cache.pathFromKey c other <> Cache.pathFromKey c key ->
    Cache.get js c other (snd (Cache.put js c key data fate fs)) = Cache.get js c other fs
    /\ (forall message written,
           fate = Fs.Fails message written ->
           Fs.isDir fs (Cache.pathFromKey c key) = false ->
           Fs.dirExists fs (Fs.dirname (Cache.pathFromKey c key)) = true ->
           fst (Cache.put js c key data fate fs) = Rejected (FsError message)
           /\ Fs.createReadStream (snd (Cache.put js c key data fate fs))
                (Cache.pathFromKey c key)
              = Fs.ReadData (take_str written (Cache.stringify js data))).
Proof.
  intros js c key other data fate fs Hne. split.
  - unfold Cache.put, Cache.get. destruct fate as [|message written].
    + destruct (Fs.writeFile fs (Cache.pathFromKey c key) (Cache.stringify js data))
        as [code|fs'] eqn:Hw; simpl; [reflexivity|].
      rewrite (read_other_after_write _ _ _ _ _ Hne Hw). reflexivity.
    + destruct (Fs.writeFile fs (Cache.pathFromKey c key)
                  (take_str written (Cache.stringify js data)))
        as [code|fs'] eqn:Hw; simpl; [reflexivity|].
      rewrite (read_other_after_write _ _ _ _ _ Hne Hw). reflexivity.
  - intros message written -> Hdir Hparent. unfold Cache.put.
    destruct (Fs.writeFile fs (Cache.pathFromKey c key)
                (take_str written (Cache.stringify js data)))
      as [code|fs'] eqn:Hw; simpl.
    + unfold Fs.writeFile in Hw. rewrite Hdir, Hparent in Hw. discriminate Hw.
    + split; [reflexivity|]. exact (read_after_write _ _ _ _ Hw).
Qed.

Lemma put_leaves_the_other_entries_witness :
  Cache.get Cases.atomCodec Scenario.tmpCache "other"
    (snd (Cache.put Cases.atomCodec Scenario.tmpCache "k" [Cache.JNum 1; Cache.JNum 2]
            (Fs.Fails "ENOSPC" 3)
            (Fs.mkFs [("/tmp/c/other.json", "[true]"); ("/tmp/c/k.json", "[7]")]
               ["/tmp"; "/tmp/c"])))
  = Resolved [Cache.JBool true]
  /\ Fs.createReadStream
       (snd (Cache.put Cases.atomCodec Scenario.tmpCache "k" [Cache.JNum 1; Cache.JNum 2]
               (Fs.Fails "ENOSPC" 3)
               (Fs.mkFs [("/tmp/c/other.json", "[true]"); ("/tmp/c/k.json", "[7]")]
                  ["/tmp"; "/tmp/c"])))
       "/tmp/c/k.json"
     = Fs.ReadData "[1,".
Proof.
  destruct (put_leaves_the_other_entries Cases.atomCodec Scenario.tmpCache "k" "other"
              [Cache.JNum 1; Cache.JNum 2] (Fs.Fails "ENOSPC" 3)
              (Fs.mkFs [("/tmp/c/other.json", "[true]"); ("/tmp/c/k.json", "[7]")]
                 ["/tmp"; "/tmp/c"])) as [Hother Hown].
  - vm_compute. intros Hbad. discriminate Hbad.
  - split; [exact Hother|].
    exact (proj2 (Hown "ENOSPC" 3%nat eq_refl eq_refl eq_refl)).
Defined.

(** X17.  [del] removes the entry and nothing else: on a key whose backing
    file exists it resolves, after which [get] returns the empty sequence
    for that key and what it returned before for every key that names
    another file. *)
Theorem del_removes_the_entry :
  forall (js : Cache.JSONStream) (c : Cache.Cache) (key : string) (fs : Fs.FsState),
    Fs.isFile fs (Cache.pathFromKey c key) = true ->
    Fs.isDir fs (Cache.pathFromKey c key) = false ->
    exists fs1 : Fs.FsState,
      Cache.del c key fs = (Resolved tt, fs1)
      /\ Cache.get js c key fs1 = Resolved []
      /\ forall other, Cache.pathFromKey c other <> Cache.pathFromKey c key ->
                       Cache.get js c other fs1 = Cache.get js c other fs.
Proof.
  intros js c key fs Hfile Hdir. unfold Cache.del.
  destruct (Fs.unlink fs (Cache.pathFromKey c key)) as [code|fs1] eqn:Hu.
  { unfold Fs.unlink in Hu. rewrite Hdir, Hfile in Hu. discriminate Hu. }
  exists fs1. split; [reflexivity|]. unfold Cache.get. split.
  - rewrite (read_after_unlink _ _ _ Hu). reflexivity.
  - intros other Hne. rewrite (read_other_after_unlink _ _ _ _ Hne Hu). reflexivity.
Qed.

Lemma del_removes_the_entry_witness :
  exists fs1 : Fs.FsState,
    Cache.del Scenario.tmpCache "k" (Fs.mkFs [("/tmp/c/k.json", "[]")] ["/tmp"; "/tmp/c"])
    = (Resolved tt, fs1)
    /\ Cache.get Scenario.emptyArrayCodec Scenario.tmpCache "k" fs1 = Resolved []
    /\ forall other,
         Cache.pathFromKey Scenario.tmpCache other <> Cache.pathFromKey Scenario.tmpCache "k" ->
         Cache.get Scenario.emptyArrayCodec Scenario.tmpCache other fs1
         = Cache.get Scenario.emptyArrayCodec Scenario.tmpCache other
             (Fs.mkFs [("/tmp/c/k.json", "[]")] ["/tmp"; "/tmp/c"]).
Proof.
  apply (del_removes_the_entry Scenario.emptyArrayCodec Scenario.tmpCache "k"
           (Fs.mkFs [("/tmp/c/k.json", "[]")] ["/tmp"; "/tmp/c"])); reflexivity.
Defined.

(** X18.  Where [get] is lenient [del] is not: on a key with no backing
    file [del] rejects with the code ENOENT and changes nothing, while
    [get] resolves to the empty sequence. *)
Theorem del_of_a_missing_entry_rejects :
  forall (js : Cache.JSONStream) (c : Cache.Cache) (key : string) (fs : Fs.FsState),
    Fs.isFile fs (Cache.pathFromKey c key) = false ->
    Fs.isDir fs (Cache.pathFromKey c key) = false ->
    Cache.del c key fs = (Rejected (FsError "ENOENT"), fs)
    /\ Cache.get js c key fs = Resolved [].
Proof.
  intros js c key fs Hfile Hdir. split.
  - unfold Cache.del, Fs.unlink. rewrite Hdir, Hfile. reflexivity.
  - unfold Cache.get. rewrite (createReadStream_missing _ _ Hfile Hdir). reflexivity.
Qed.

Lemma del_of_a_missing_entry_rejects_witness :
  Cache.del Scenario.tmpCache "never-written" Scenario.tmpFs
  = (Rejected (FsError "ENOENT"), Scenario.tmpFs)
  /\ Cache.get Scenario.emptyArrayCodec Scenario.tmpCache "never-written" Scenario.tmpFs
     = Resolved [].
Proof.
  apply (del_of_a_missing_entry_rejects Scenario.emptyArrayCodec Scenario.tmpCache
           "never-written" Scenario.tmpFs); reflexivity.
Defined.

(** ** server.ts: the name of the cache directory *)

Section HashFacts.

Import Server.

Lemma toInt32_range (x : Z) : - 2 ^ 31 <= toInt32 x < 2 ^ 31.
Proof.
  unfold toInt32. pose proof (Z.mod_pos_bound (x + 2 ^ 31) (2 ^ 32) ltac:(lia)). lia.
Qed.

Lemma toInt32_shift (x k : Z) : toInt32 (x + k * 2 ^ 32) = toInt32 x.
Proof.
  unfold toInt32. replace (x + k * 2 ^ 32 + 2 ^ 31) with (x + 2 ^ 31 + k * 2 ^ 32) by lia.
  rewrite Z.mod_add by lia. reflexivity.
Qed.

Lemma toInt32_multiple (x : Z) : exists k, toInt32 x = x + k * 2 ^ 32.
Proof.
  exists (- ((x + 2 ^ 31) / 2 ^ 32)). unfold toInt32.
  pose proof (Z.div_mod (x + 2 ^ 31) (2 ^ 32) ltac:(lia)). lia.
Qed.

Lemma toInt32_small (x : Z) : - 2 ^ 31 <= x < 2 ^ 31 -> toInt32 x = x.
Proof. intros H. unfold toInt32. rewrite Z.mod_small by lia. lia. Qed.

(** One round of the loop, up to a multiple of 2^32. *)
Lemma hash_step (hash h chr : Z) (k : Z) :
  hash = h + k * 2 ^ 32 ->
  exists k', toInt32 ((shl hash 5 - hash) + chr) = (31 * h + chr) + k' * 2 ^ 32.
Proof.
  intros ->. unfold shl.
  destruct (toInt32_multiple (h + k * 2 ^ 32)) as [k1 H1].
  rewrite Z.shiftl_mul_pow2 by lia.
  destruct (toInt32_multiple (toInt32 (h + k * 2 ^ 32) * 2 ^ 5)) as [k2 H2].
  destruct (toInt32_multiple
              (toInt32 (toInt32 (h + k * 2 ^ 32) * 2 ^ 5) - (h + k * 2 ^ 32) + chr))
    as [k3 H3].
  rewrite H3, H2, H1. exists (k3 + k2 + 32 * k1 + 31 * k). lia.
Qed.

Lemma hash32_loop_polynomial (units : list Z) :
  forall hash h k,
    - 2 ^ 31 <= hash < 2 ^ 31 ->
    hash = h + k * 2 ^ 32 ->
    hash32_loop hash units = toInt32 (fold_left (fun a chr => 31 * a + chr) units h).
Proof.
  induction units as [|chr rest IH]; intros hash h k Hrange Hk; simpl.
  - rewrite <- (toInt32_small hash Hrange), Hk. apply toInt32_shift.
  - destruct (hash_step hash h chr k Hk) as [k' Hstep].
    apply (IH _ _ k'); [apply toInt32_range | exact Hstep].
Qed.

Lemma append_cons (x : ascii) (a b : string) : String x a +:+ b = String x (a +:+ b).
Proof. reflexivity. Qed.

Lemma append_assoc3 (a b c : string) : (a +:+ b) +:+ c = a +:+ (b +:+ c).
Proof.
  induction a as [|x a IH]; [reflexivity|]. rewrite !append_cons, IH. reflexivity.
Qed.

Lemma append_empty_r (a : string) : a +:+ "" = a.
Proof. induction a as [|x a IH]; [reflexivity|]. rewrite append_cons, IH. reflexivity. Qed.

Lemma length_append (a b : string) :
  String.length (a +:+ b) = (String.length a + String.length b)%nat.
Proof.
  induction a as [|x a IH]; [reflexivity|]. rewrite append_cons. simpl. rewrite IH.
  reflexivity.
Qed.

Lemma hexLower_digit (d : Z) :
  0 <= d < 16 ->
  isLowerHexDigit (hexLower d) = true /\ hexValue (hexLower d) = Some (Z.to_nat d).
Proof.
  intros H.
  assert (Hd : d = 0 \/ d = 1 \/ d = 2 \/ d = 3 \/ d = 4 \/ d = 5 \/ d = 6 \/ d = 7 \/ d = 8
               \/ d = 9 \/ d = 10 \/ d = 11 \/ d = 12 \/ d = 13 \/ d = 14 \/ d = 15) by lia.
  repeat (destruct Hd as [-> | Hd]; [split; reflexivity|]). subst d. split; reflexivity.
Qed.

Lemma hexNumber_from_app (a b : string) :
  forall acc x, hexNumber_from acc a = Some x ->
                hexNumber_from acc (a +:+ b) = hexNumber_from x b.
Proof.
  induction a as [|c a IH]; intros acc x H; simpl in *.
  - injection H as <-. reflexivity.
  - destruct (hexValue c); [exact (IH _ _ H) | discriminate H].
Qed.

(** The digits [toString16_aux] puts in front of [acc]. *)
Lemma toString16_aux_spec (fuel : nat) :
  forall n acc,
    0 <= n < 16 ^ Z.of_nat (S fuel) ->
    exists digits,
      toString16_aux (S fuel) n acc = digits +:+ acc
      /\ (forall k : nat, (1 <= k)%nat -> n < 16 ^ Z.of_nat k ->
                          (1 <= String.length digits <= k)%nat)
      /\ allChars isLowerHexDigit digits = true
      /\ forall hi, hexNumber_from hi digits = Some (hi * 16 ^ Z.of_nat (String.length digits) + n).
Proof.
  assert (Hsmall : forall f n acc,
    0 <= n < 16 ->
    exists digits,
      toString16_aux (S f) n acc = digits +:+ acc
      /\ (forall k : nat, (1 <= k)%nat -> n < 16 ^ Z.of_nat k ->
                          (1 <= String.length digits <= k)%nat)
      /\ allChars isLowerHexDigit digits = true
      /\ forall hi, hexNumber_from hi digits
                    = Some (hi * 16 ^ Z.of_nat (String.length digits) + n)).
  { intros f n acc Hn. destruct (hexLower_digit n Hn) as [Hdig Hval].
    exists (String (hexLower n) ""). simpl toString16_aux.
    rewrite Z.mod_small by lia. rewrite (proj2 (Z.ltb_lt n 16)) by lia.
    split; [reflexivity|]. split; [intros k Hk _; simpl; lia|].
    split; [simpl; rewrite Hdig; reflexivity|].
    intros hi. simpl hexNumber_from. rewrite Hval.
    f_equal. rewrite Z2Nat.id by lia.
    change (Z.of_nat (String.length (String (hexLower n) ""))) with 1.
    rewrite Z.pow_1_r. lia. }
  induction fuel as [|fuel IH]; intros n acc Hn.
  - apply Hsmall. simpl in Hn. lia.
  - destruct (n <? 16) eqn:Hlow; [apply Hsmall; apply Z.ltb_lt in Hlow; lia|].
    change (toString16_aux (S (S fuel)) n acc)
      with (let acc' := String (hexLower (n mod 16)) acc in
            if n <? 16 then acc' else toString16_aux (S fuel) (n / 16) acc').
    cbv zeta. rewrite Hlow. rename Hlow into Hsmall'.
    pose proof (Z.mod_pos_bound n 16 ltac:(lia)) as Hmod.
    destruct (hexLower_digit (n mod 16) Hmod) as [Hdig Hval].
    apply Z.ltb_ge in Hsmall'.
    + assert (Hdiv : 0 <= n / 16 < 16 ^ Z.of_nat (S fuel)).
      { split; [apply Z.div_pos; lia|].
        apply Z.div_lt_upper_bound; [lia|].
        replace (Z.of_nat (S (S fuel))) with (Z.of_nat (S fuel) + 1) in Hn by lia.
        rewrite Z.pow_add_r in Hn by lia. lia. }
      destruct (IH (n / 16) (String (hexLower (n mod 16)) acc) Hdiv)
        as (digits & Heq & Hlen & Hall & Hnum).
      exists (digits +:+ String (hexLower (n mod 16)) "").
      split; [rewrite Heq, append_assoc3; reflexivity|].
      assert (Hlength : String.length (digits +:+ String (hexLower (n mod 16)) "")
                        = S (String.length digits)).
      { rewrite length_append. simpl. lia. }
      split.
      { intros k Hk Hnk. rewrite Hlength.
        destruct k as [|[|k]]; [lia | simpl in Hnk; lia |].
        assert (Hk' : n / 16 < 16 ^ Z.of_nat (S k)).
        { apply Z.div_lt_upper_bound; [lia|].
          replace (Z.of_nat (S (S k))) with (Z.of_nat (S k) + 1) in Hnk by lia.
          rewrite Z.pow_add_r in Hnk by lia. lia. }
        specialize (Hlen (S k) ltac:(lia) Hk'). lia. }
      split; [rewrite allChars_app, Hall; simpl; rewrite Hdig; reflexivity|].
      intros hi. rewrite (hexNumber_from_app _ _ _ _ (Hnum hi)). simpl. rewrite Hval.
      f_equal. rewrite Hlength, Z2Nat.id by lia.
      replace (Z.of_nat (S (String.length digits)))
        with (Z.of_nat (String.length digits) + 1) by lia.
      rewrite Z.pow_add_r by lia.
      pose proof (Z.div_mod n 16 ltac:(lia)). lia.
Qed.

Lemma toString16_spec (n : Z) :
  0 <= n ->
  (forall k : nat, (1 <= k)%nat -> n < 16 ^ Z.of_nat k ->
                   (1 <= String.length (toString16 n) <= k)%nat)
  /\ allChars isLowerHexDigit (toString16 n) = true
  /\ hexNumber (toString16 n) = Some n.
Proof.
  intros Hn. unfold toString16.
  assert (Hfuel : 0 <= n < 16 ^ Z.of_nat (S (Z.to_nat (Z.log2 n)))).
  { split; [exact Hn|].
    destruct (Z.eq_dec n 0) as [->|Hpos]; [simpl; lia|].
    pose proof (Z.log2_nonneg n) as Hlog.
    pose proof (Z.log2_spec n ltac:(lia)) as [_ Hup].
    eapply Z.lt_le_trans; [exact Hup|].
    rewrite Nat2Z.inj_succ, Z2Nat.id by lia.
    change 16 with (2 ^ 4). rewrite <- Z.pow_mul_r by lia.
    apply Z.pow_le_mono_r; lia. }
  destruct (toString16_aux_spec _ n "" Hfuel) as (digits & Heq & Hlen & Hall & Hnum).
  rewrite Heq, append_empty_r. split; [exact Hlen|]. split; [exact Hall|].
  unfold hexNumber. rewrite Hnum. f_equal; lia.
Qed.

End HashFacts.

(** X19.  [hash32] computes the polynomial of the code units with base 31,
    reduced to a signed 32-bit integer: reducing after every character, as
    the loop does, gives the same as reducing once at the end.  Its value
    therefore lies between -2^31 and 2^31 - 1. *)
Theorem hash32_is_the_base_31_polynomial :
  forall text : string,
    Server.hash32 text = Server.toInt32 (polynomial31 (Server.charCodes text))
    /\ - 2 ^ 31 <= Server.hash32 text < 2 ^ 31.
Proof.
  intros text.
  assert (H : Server.hash32 text = Server.toInt32 (polynomial31 (Server.charCodes text))).
  { unfold Server.hash32, polynomial31. apply (hash32_loop_polynomial _ 0 0 0); lia. }
  split; [exact H|]. rewrite H. apply toInt32_range.
Qed.

(** X20.  The directory name [cacheDir] derives from the workspace folders
    is never empty and never longer than eight characters, consists of
    hexadecimal digits in lower case, and denotes the absolute value of
    [hash32] applied to the folder uris joined in order. *)
Theorem cacheDir_is_a_short_hex_name :
  forall folders : list Folder,
    (1 <= String.length (Server.cacheDir folders) <= 8)%nat
    /\ allChars isLowerHexDigit (Server.cacheDir folders) = true
    /\ hexNumber (Server.cacheDir folders)
       = Some (Z.abs (Server.hash32 (String.concat "" (map folder_uri folders)))).
Proof.
  intros folders. unfold Server.cacheDir.
  assert (Hconcat : forall start,
    fold_left (fun last current => last +:+ folder_uri current) folders start
    = start +:+ String.concat "" (map folder_uri folders)).
  { induction folders as [|f rest IH]; intros start; simpl.
    - symmetry. apply append_empty_r.
    - rewrite IH, append_assoc3. f_equal.
      destruct rest as [|g rest']; simpl; [apply append_empty_r | reflexivity]. }
  rewrite (Hconcat ""). simpl.
  set (h := Server.hash32 (String.concat "" (map folder_uri folders))).
  assert (Hrange : - 2 ^ 31 <= h < 2 ^ 31).
  { unfold h, Server.hash32. 
    rewrite (hash32_loop_polynomial _ 0 0 0) by lia. apply toInt32_range. }
  destruct (toString16_spec (Z.abs h) ltac:(lia)) as (Hlen & Hall & Hnum).
  split; [|split; [exact Hall | exact Hnum]].
  apply Hlen; [lia|]. change (16 ^ Z.of_nat 8) with (2 ^ 32). lia.
Qed.

(** ** The indexer: a run, whatever its outcome *)

Section RunCases.

Import Indexer.

Variable ws : WorkspaceApi.
Variable eng : Engine.

Lemma await_cases {A} (p : Async Event State A) s r s' evs :
  await p s = (r, s', evs) ->
  exists s0, p s = (r, s0, evs)
             /\ match r with
                | Resolved _ => suspend s0 = (Resolved tt, s', [])
                | Rejected _ => s' = s0
                end.
Proof.
  unfold await, bind. destruct (p s) as [[[a|e] s0] e0].
  - destruct (suspend s0) as [[rs ss] es] eqn:Hs.
    destruct (suspend_inv _ _ _ _ Hs) as (-> & -> & _).
    unfold ret. intros [= <- <- <-]. exists s0. rewrite !app_nil_r. auto.
  - intros [= <- <- <-]. exists s0. auto.
Qed.

(** The forget pass reads nothing and submits nothing. *)
Lemma forget_pass_quiet (c : bool) (known : JsSet.t) s r s' evs :
  (if c then await (forgetFiles (JsSet.toArray known)) else ret tt) s = (r, s', evs) ->
  r = Resolved tt /\ documentsRead evs = [] /\ submitted evs = []
  /\ (c = false -> evs = [] /\ s' = s).
Proof.
  destruct c.
  - intros H. apply await_cases in H as (s0 & Hf & _).
    destruct (forgetFiles_events _ _ _ _ _ Hf) as [-> ->].
    rewrite documentsRead_forgets, submitted_forgets.
    repeat split; auto; discriminate.
  - unfold ret. intros [= <- <- <-]. auto.
Qed.

(** A run, taken apart, whatever its outcome: the discovery call, the
    loop, the forget pass. *)
Lemma run_cases (result : IndexResult) (s s' : State) (r : Outcome IndexResult)
      (evs : list Event) :
  run ws eng result s = (r, s', evs) ->
  exists head : list Event,
    documentsRead head = [] /\ submitted head = [] /\ forgotten head = []
    /\ ((exists e, fst (discovery ws (config s)) = Rejected e /\ r = Rejected e /\ evs = head)
        \/ exists (files : list FileInfo) (s0 sa sb : State)
                  (rw : Outcome (JsSet.t * IndexResult)) (ewalk : list Event),
             fst (discovery ws (config s)) = Resolved files
             /\ indexing s0 = Some (length (sources s))
             /\ sources s0 = sources s ++ [false]
             /\ interrupts s0 = interrupts s
             /\ s0 = stateAfter associationsWithPhp (stateAfter newTokenSource s)
             /\ suspend s0 = (Resolved tt, sa, [])
             /\ walk ws eng (length (sources s)) (timestamp (knownDocuments eng))
                  (getConfigValue files_maxSize 1000000 (config s)) files
                  (JsSet.ofArray (documents (knownDocuments eng))) result sa
                = (rw, sb, ewalk)
             /\ match rw with
                | Rejected e => r = Rejected e /\ evs = head ++ ewalk
                | Resolved (known', result') =>
                    let counted :=
                      mkResult (totalFileCount result') (indexedFileCount result')
                        (JsSet.size known') (symbolCount result') (wasCancelled result') in
                    exists eforget,
                      (if negb (isCancellationRequested (length (sources s)) sb)
                          && (0 <? JsSet.size known')%nat
                       then await (forgetFiles (JsSet.toArray known'))
                       else ret tt) sb = (Resolved tt, s', eforget)
                      /\ r = Resolved (if isCancellationRequested (length (sources s)) s'
                                       then markCancelled counted else counted)
                      /\ evs = head ++ ewalk ++ eforget
                end).
Proof.
  intros H. unfold run in H.
  apply bind_inv in H as [(token & s1 & e1 & e2 & Hnew & H & ->) | (e & Hnew & _)];
    [|discriminate Hnew].
  unfold newTokenSource in Hnew. injection Hnew as <- <- <-.
  apply bind_inv in H as [([] & s2 & x1 & e3 & Hemit & H & ->) | (e & Hemit & _)];
    [|discriminate Hemit].
  unfold emit in Hemit. injection Hemit as <- <-.
  apply bind_inv in H as [(s3 & s4 & x2 & e4 & Hget & H & ->) | (e & Hget & _)];
    [|discriminate Hget].
  unfold getState in Hget. injection Hget as <- <- <-.
  destruct (associationsWithPhp_spec
              (mkState (Some (length (sources s))) (sources s ++ [false]) (config s)
                 (interrupts s)))
    as (s5 & Hspec & Hsrc & Hidx & Hint & Hexcl & Huse & Hmax).
  apply bind_inv in H as [(assoc & s6 & x3 & e5 & Hassoc & H & ->) | (e & Hassoc & _)];
    [|rewrite Hspec in Hassoc; discriminate Hassoc].
  assert (Hafter : s5 = stateAfter associationsWithPhp (stateAfter newTokenSource s)).
  { unfold stateAfter at 1. change (stateAfter newTokenSource s)
      with (mkState (Some (length (sources s))) (sources s ++ [false]) (config s)
              (interrupts s)).
    rewrite Hspec. reflexivity. }
  rewrite Hspec in Hassoc. injection Hassoc as <- <- <-.
  simpl in Hexcl, Huse, Hmax, Hsrc, Hidx, Hint.
  apply bind_inv in H as [(s7 & s8 & x4 & e6 & Hget & H & ->) | (e & Hget & _)];
    [|discriminate Hget].
  unfold getState in Hget. injection Hget as <- <- <-.
  rewrite Hexcl, Huse in H.
  assert (Hcall : forall f a b st rc (sc : State) ec,
    (exec emit (WsFindFiles f a b) then stateless (ws_findFiles ws f a b)) st
    = (rc, sc, ec) ->
    rc = fst (ws_findFiles ws f a b) /\ sc = st
    /\ documentsRead ec = [] /\ submitted ec = [] /\ forgotten ec = []).
  { intros f a b st rc sc ec Hc. unfold bind, emit, stateless in Hc.
    injection Hc as <- <- <-.
    simpl. rewrite documentsRead_io, submitted_io, forgotten_io. auto. }
  apply bind_inv in H as [(files & sa & x5 & e7 & Hfind & H & ->) | (e & Hfind & ->)].
  - apply await_cases in Hfind as (s0 & Hfind & Hsusp).
    destruct (Hcall _ _ _ _ _ _ _ Hfind) as (Hfiles & -> & Hr1 & Hs1 & Hf1).
    fold (discovery ws (config s)) in Hfiles.
    exists (EngKnownDocuments :: x5).
    split; [exact Hr1|]. split; [exact Hs1|]. split; [exact Hf1|]. right.
    apply bind_inv in H as [([known' result'] & sb & x6 & e8 & Hwalk & H & ->) | (e & Hwalk & ->)].
    + exists files, s5, sa, sb, (Resolved (known', result')), x6.
      split; [symmetry; exact Hfiles|]. split; [exact Hidx|]. split; [exact Hsrc|].
      split; [exact Hint|]. split; [exact Hafter|]. split; [exact Hsusp|].
      split; [exact Hwalk|].
      apply bind_inv in H as [(s9 & s10 & x7 & e9 & Hget & H & ->) | (e & Hget & _)];
        [|discriminate Hget].
      unfold getState in Hget. injection Hget as <- <- <-.
      apply bind_inv in H as [([] & s11 & x8 & e10 & Hpass & H & ->) | (e & Hpass & _)].
      2:{ apply forget_pass_quiet in Hpass as [Hbad _]. discriminate Hbad. }
      unfold bind, getState, ret in H. injection H as <- <- <-.
      exists x8. simpl in Hpass. split; [exact Hpass|]. split; [reflexivity|].
      simpl. rewrite app_nil_r. reflexivity.
    + exists files, s5, sa, s', (Rejected e), e7.
      split; [symmetry; exact Hfiles|]. split; [exact Hidx|]. split; [exact Hsrc|].
      split; [exact Hint|]. split; [exact Hafter|]. split; [exact Hsusp|].
      split; [exact Hwalk|].
      split; reflexivity.
  - apply await_cases in Hfind as (s0 & Hfind & _).
    destruct (Hcall _ _ _ _ _ _ _ Hfind) as (Hfiles & _ & Hr1 & Hs1 & Hf1).
    fold (discovery ws (config s)) in Hfiles.
    exists (EngKnownDocuments :: e6).
    split; [exact Hr1|]. split; [exact Hs1|]. split; [exact Hf1|]. left.
    exists e. split; [symmetry; exact Hfiles|]. split; reflexivity.
Qed.

(** [indexWorkspace] either declines or starts a run. *)
Lemma indexWorkspace_cases (restart : bool) (s s' : State) (r : Outcome IndexResult)
      (evs : list Event) :
  indexWorkspace ws eng restart s = (r, s', evs) ->
  (isIndexing s = true /\ restart = false
   /\ r = Resolved (markCancelled emptyResult) /\ s' = s /\ evs = [])
  \/ exists s0, run ws eng emptyResult s0 = (r, s', evs)
                /\ config s0 = config s /\ interrupts s0 = interrupts s
                /\ length (sources s0) = length (sources s)
                /\ (forall t, isCancellationRequested t s = true ->
                              isCancellationRequested t s0 = true)
                /\ (forall old, indexing s = Some old -> (old < length (sources s))%nat ->
                                isCancellationRequested old s0 = true).
Proof.
  intros H. unfold indexWorkspace in H.
  apply bind_inv in H as [(s0 & s1 & x1 & e1 & Hget & H & ->) | (e & Hget & _)];
    [|discriminate Hget].
  unfold getState in Hget. injection Hget as <- <- <-.
  destruct (isIndexing s) eqn:Hidx.
  - destruct restart; simpl in H.
    + right.
      apply bind_inv in H as [([] & s2 & x2 & e2 & Hc & H & ->) | (e & Hc & _)];
        [|discriminate Hc].
      unfold cancelIndexing, modify in Hc. injection Hc as <- <-.
      exists (cancelIndexing_now s). split; [exact H|].
      unfold cancelIndexing_now. destruct (indexing s) as [src|] eqn:Hsrc.
      * simpl. split; [reflexivity|]. split; [reflexivity|].
        split; [apply length_insert|]. split.
        -- intros t Ht. pose proof (cancelIndexing_now_keeps t s Ht) as Hk.
           unfold cancelIndexing_now in Hk. rewrite Hsrc in Hk. exact Hk.
        -- intros old [= <-] Hlt. unfold isCancellationRequested. simpl.
           rewrite list_lookup_insert_eq by exact Hlt. reflexivity.
      * repeat split; auto. intros old Hold. discriminate Hold.
    + left. unfold ret in H. injection H as <- <- <-. auto.
  - right. exists s. split; [exact H|]. repeat split; auto.
    intros old Hold. unfold isIndexing in Hidx. rewrite Hold in Hidx. discriminate Hidx.
Qed.

(** Once the token is cancelled the loop stops at its next test. *)
Lemma walk_cancelled token timestamp maxFileSize files known result s :
  isCancellationRequested token s = true ->
  walk ws eng token timestamp maxFileSize files known result s
  = (Resolved (known, result), s, []).
Proof.
  intros H. destruct files; simpl; [reflexivity|].
  unfold bind, getState. rewrite H. reflexivity.
Qed.

Lemma readAndDiscover_counts file result s r s' evs :
  readAndDiscover ws eng file result s = (Resolved r, s', evs) ->
  indexedFileCount r = (indexedFileCount result + length (submitted evs))%nat
  /\ symbolCount r = symbolCount result + symbolsOf eng (submitted evs)
  /\ Forall (fun d => d <> None) (submitted evs)
  /\ (length (submitted evs) <= length (documentsRead evs))%nat.
Proof.
  intros H. destruct (readAndDiscover_inv ws eng _ _ _ _ _ _ H) as (doc & eg & _ & -> & ->).
  repeat first [rewrite documentsRead_app | rewrite submitted_app
               | rewrite documentsRead_io | rewrite submitted_io | progress simpl].
  destruct doc as [d|]; simpl.
  - split; [lia|]. split; [lia|]. split; [|lia].
    constructor; [discriminate | constructor].
  - split; [lia|]. split; [lia|]. split; [constructor | lia].
Qed.

Lemma symbolsOf_app (a b : list (option TextDocumentItem)) :
  symbolsOf eng (a ++ b) = symbolsOf eng a + symbolsOf eng b.
Proof. induction a as [|d a IH]; simpl; [reflexivity|]. rewrite IH. lia. Qed.

(** The counters of the loop are the counts of what it submitted. *)
Lemma walk_counts token timestamp maxFileSize files :
  forall known result s known' result' s' evs,
    walk ws eng token timestamp maxFileSize files known result s
      = (Resolved (known', result'), s', evs) ->
    indexedFileCount result' = (indexedFileCount result + length (submitted evs))%nat
    /\ symbolCount result' = symbolCount result + symbolsOf eng (submitted evs)
    /\ Forall (fun d => d <> None) (submitted evs)
    /\ (length (submitted evs) <= length (documentsRead evs))%nat.
Proof.
  induction files as [|file rest IH];
    intros known result s known' result' s' evs Hw; simpl in Hw.
  - unfold ret in Hw. injection Hw as _ <- _ <-. simpl.
    split; [lia|]. split; [lia|]. split; [constructor | lia].
  - apply bind_resolved in Hw as (s0 & s1 & e1 & e2 & Hg & Hk & ->).
    unfold getState in Hg. injection Hg as <- <- <-. simpl.
    destruct (isCancellationRequested token s).
    { unfold ret in Hk. injection Hk as _ <- _ <-. simpl.
      split; [lia|]. split; [lia|]. split; [constructor | lia]. }
    assert (Hread :
      forall kn,
        (let* result0 := readAndDiscover ws eng file result
         in walk ws eng token timestamp maxFileSize rest kn result0) s
          = (Resolved (known', result'), s', e2) ->
        indexedFileCount result' = (indexedFileCount result + length (submitted e2))%nat
        /\ symbolCount result' = symbolCount result + symbolsOf eng (submitted e2)
        /\ Forall (fun d => d <> None) (submitted e2)
        /\ (length (submitted e2) <= length (documentsRead e2))%nat).
    { intros kn Hb.
      apply bind_resolved in Hb as (r1 & s2 & e3 & e4 & Hr & Hb & ->).
      destruct (readAndDiscover_counts _ _ _ _ _ _ Hr) as (Hi1 & Hs1 & Hf1 & Hl1).
      destruct (IH _ _ _ _ _ _ _ Hb) as (Hi2 & Hs2 & Hf2 & Hl2).
      rewrite submitted_app, documentsRead_app, symbolsOf_app, !length_app.
      split; [lia|]. split; [lia|]. split; [|lia].
      apply Forall_app. auto. }
    destruct (JsSet.has known (uri file)).
    + destruct (modified file <? timestamp); [exact (IH _ _ _ _ _ _ _ Hk)|].
      exact (Hread _ Hk).
    + destruct (size file >? maxFileSize); [|exact (Hread _ Hk)].
      apply bind_resolved in Hk as ([] & s2 & e3 & e4 & Hemit & Hk & ->).
      unfold emit in Hemit. injection Hemit as _ <-. simpl.
      exact (IH _ _ _ _ _ _ _ Hk).
Qed.

Lemma admittedAt_later maxFileSize timestamp file rest (known known' : JsSet.t) u :
  (forall x, x ∈ known' -> x ∈ known) ->
  admittedAt maxFileSize timestamp rest known' u ->
  admittedAt maxFileSize timestamp (file :: rest) known u.
Proof.
  intros Hsub (f & Hin & Hu & Hok). exists f. split; [right; exact Hin|].
  split; [exact Hu|]. destruct Hok as [?|[? ?]]; auto.
Qed.

(** The loop reads a file only within the ceiling, or when the engine
    knew it and it is not older than the snapshot. *)
Lemma walk_reads_admittedAt token timestamp maxFileSize files :
  forall known result,
    respects (readsOnly (admittedAt maxFileSize timestamp files known))
      (walk ws eng token timestamp maxFileSize files known result).
Proof.
  induction files as [|file rest IH]; intros known result; simpl.
  - apply respects_ret. apply readsOnly_refl.
  - apply respects_bind; [apply readsOnly_trans | | intros s0].
    { apply respects_getState. apply readsOnly_refl. }
    destruct (isCancellationRequested token s0).
    { apply respects_ret. apply readsOnly_refl. }
    assert (Hdel : forall x, x ∈ JsSet.delete known (uri file) -> x ∈ known).
    { intros x [Hx _]%elem_of_delete. exact Hx. }
    destruct (JsSet.has known (uri file)) eqn:Hhas.
    + apply has_true in Hhas.
      assert (Hrest : forall r1,
        respects (readsOnly (admittedAt maxFileSize timestamp (file :: rest) known))
          (walk ws eng token timestamp maxFileSize rest
             (JsSet.delete known (uri file)) r1)).
      { intros r1. eapply readsOnly_weaken; [|apply IH].
        intros u. apply admittedAt_later. exact Hdel. }
      destruct (modified file <? timestamp) eqn:Hmod; [apply Hrest|].
      apply respects_bind; [apply readsOnly_trans | | intros r1; apply Hrest].
      apply readAndDiscover_readsOnly. exists file.
      split; [left|]. split; [reflexivity|]. right. split; [exact Hhas|].
      apply Z.ltb_ge in Hmod. exact Hmod.
    + assert (Hrest : forall r1,
        respects (readsOnly (admittedAt maxFileSize timestamp (file :: rest) known))
          (walk ws eng token timestamp maxFileSize rest known r1)).
      { intros r1. eapply readsOnly_weaken; [|apply IH].
        intros u. apply admittedAt_later. auto. }
      destruct (size file >? maxFileSize) eqn:Hsize.
      * apply respects_bind; [apply readsOnly_trans | | intros ?; apply Hrest].
        apply readsOnly_silent. intros s r s' evs H.
        unfold emit in H. injection H as _ _ <-. reflexivity.
      * apply respects_bind; [apply readsOnly_trans | | intros r1; apply Hrest].
        apply readAndDiscover_readsOnly. exists file.
        split; [left|]. split; [reflexivity|]. left.
        rewrite Z.gtb_ltb in Hsize. apply Z.ltb_ge in Hsize. exact Hsize.
Qed.

(** Over files the engine knows and that are older than its snapshot the
    loop does nothing but strike them off. *)
Lemma walk_unchanged token timestamp maxFileSize files :
  forall known result s r s' evs,
    NoDup (map uri files) ->
    (forall f, f ∈ files -> uri f ∈ known /\ modified f < timestamp) ->
    walk ws eng token timestamp maxFileSize files known result s = (r, s', evs) ->
    evs = [] /\ s' = s
    /\ exists known',
         r = Resolved (known', result)
         /\ (isCancellationRequested token s = false ->
             known' = fold_left JsSet.delete (map uri files) known).
Proof.
  induction files as [|file rest IH]; intros known result s r s' evs Hnd Hall Hw;
    simpl in Hw.
  - unfold ret in Hw. injection Hw as <- <- <-. eauto.
  - unfold bind at 1 in Hw. unfold getState at 1 in Hw.
    destruct (isCancellationRequested token s) eqn:Hc.
    { unfold ret in Hw. simpl in Hw. injection Hw as <- <- <-.
      split; [reflexivity|]. split; [reflexivity|]. eexists. split; [reflexivity|].
      intros Hbad. discriminate Hbad. }
    destruct (Hall file) as [Hin Hold]; [left|].
    apply has_true in Hin. rewrite Hin in Hw.
    apply Z.ltb_lt in Hold. rewrite Hold in Hw.
    destruct (walk ws eng token timestamp maxFileSize rest
                (JsSet.delete known (uri file)) result s) as [[r2 s2] e2] eqn:Hrest.
    simpl in Hw. injection Hw as <- <- <-.
    apply NoDup_cons in Hnd as [Hfresh Hnd].
    assert (Hall' : forall f, f ∈ rest ->
                      uri f ∈ JsSet.delete known (uri file) /\ modified f < timestamp).
    { intros f Hf. destruct (Hall f) as [Hfk Hfo]; [right; exact Hf|].
      split; [|exact Hfo]. apply elem_of_delete. split; [exact Hfk|].
      intros Heq. apply Hfresh. rewrite <- Heq. apply list_elem_of_fmap_2. exact Hf. }
    destruct (IH _ _ _ _ _ _ Hnd Hall' Hrest) as (-> & -> & known' & -> & Hk).
    split; [reflexivity|]. split; [reflexivity|]. exists known'. split; [reflexivity|].
    intros _. simpl. apply Hk. exact Hc.
Qed.

Lemma kept_refl s : cancellationsKept s s [].
Proof. intros t H. exact H. Qed.

Lemma kept_trans s s1 s2 e1 e2 :
  cancellationsKept s s1 e1 -> cancellationsKept s1 s2 e2 ->
  cancellationsKept s s2 (e1 ++ e2).
Proof. intros H1 H2 t H. apply H2, H1, H. Qed.

Lemma persistent_kept {A} (m : Async Event State A) :
  respects persistent m -> respects cancellationsKept m.
Proof. intros H s r s' evs Hm. exact (proj1 (H s r s' evs Hm)). Qed.

Lemma calm_kept {A} (m : Async Event State A) :
  respects calm m -> respects cancellationsKept m.
Proof. intros H. apply persistent_kept, calm_persistent, H. Qed.

(** No step of a run withdraws a cancellation request. *)
Lemma run_kept (result : IndexResult) : respects cancellationsKept (run ws eng result).
Proof.
  unfold run.
  apply respects_bind; [exact kept_trans | | intros token].
  { intros s r s' evs H t Ht. unfold newTokenSource in H. injection H as _ <- _.
    apply (newTokenSource_keeps t s Ht). }
  apply respects_bind; [exact kept_trans | | intros ?].
  { intros s r s' evs H. unfold emit in H. injection H as _ <- _. apply kept_refl. }
  apply respects_bind; [exact kept_trans | | intros s1].
  { apply respects_getState. exact kept_refl. }
  apply respects_bind; [exact kept_trans | | intros assoc].
  { intros s r s' evs H t Ht.
    pose proof (associationsWithPhp_keeps t s) as Hk.
    unfold stateAfter in Hk. rewrite H in Hk. simpl in Hk. rewrite Hk. exact Ht. }
  apply respects_bind; [exact kept_trans | | intros s2].
  { apply respects_getState. exact kept_refl. }
  apply respects_bind; [exact kept_trans | | intros files].
  { apply calm_kept, await_calm.
    apply respects_bind; [exact calm_trans | | intros ?].
    - apply emit_calm. reflexivity.
    - apply stateless_calm. }
  apply respects_bind; [exact kept_trans | | intros [known result']].
  { apply calm_kept, walk_calm. }
  apply respects_bind; [exact kept_trans | | intros s3].
  { apply respects_getState. exact kept_refl. }
  apply respects_bind; [exact kept_trans | | intros ?].
  { destruct (negb _ && _).
    - apply persistent_kept. unfold await.
      apply respects_bind; [exact persistent_trans | apply forgetFiles_persistent | intros ?].
      apply respects_bind;
        [exact persistent_trans | apply calm_persistent, suspend_calm | intros ?].
      apply respects_ret. exact persistent_refl.
    - apply respects_ret. exact kept_refl. }
  apply respects_bind; [exact kept_trans | | intros s4].
  { apply respects_getState. exact kept_refl. }
  apply respects_ret. exact kept_refl.
Qed.

End RunCases.

(** ** The indexer: [indexFiles] *)

Section IndexFilesTrace.

Import Indexer.

Variable ws : WorkspaceApi.
Variable eng : Engine.

Lemma awaited_getDocument u s r s' evs :
  await (getDocument ws u) s = (r, s', evs) ->
  r = fst (ws_getDocument ws u)
  /\ evs = WsGetDocument u :: map Io (snd (ws_getDocument ws u)).
Proof.
  intros H. apply await_cases in H as (s0 & H & _).
  unfold getDocument, bind, emit, stateless in H. injection H as <- _ <-. auto.
Qed.

Lemma awaited_discover doc s r s' evs :
  await (discover eng doc) s = (r, s', evs) ->
  r = Resolved (discoverSymbols eng doc) /\ evs = [EngDiscoverSymbols doc].
Proof.
  intros H. apply await_cases in H as (s0 & H & _).
  unfold discover, bind, emit, ret in H. injection H as <- _ <-. auto.
Qed.

(** The loop of [indexFiles], when every document can be fetched. *)
Lemma indexEach_trace maxFileSize files :
  (forall u, exists d, fst (ws_getDocument ws u) = Resolved d) ->
  forall s r s' evs,
    indexEach ws eng maxFileSize files s = (r, s', evs) ->
    r = Resolved tt
    /\ documentsRead evs = map uri (withinCeiling maxFileSize files)
    /\ submitted evs
       = map (fun f => documentAt ws (uri f)) (withinCeiling maxFileSize files)
    /\ forgotten evs = [].
Proof.
  intros Hdoc. induction files as [|file rest IH]; intros s r s' evs H; simpl in H.
  - unfold ret in H. injection H as <- _ <-. auto.
  - unfold withinCeiling. simpl. fold (withinCeiling maxFileSize rest).
    destruct (size file <=? maxFileSize).
    + apply bind_inv in H as [([] & s1 & e1 & e2 & Hone & H & ->) | (e & Hone & _)].
      * destruct (IH _ _ _ _ H) as (-> & Hr & Hs & Hf).
        apply bind_inv in Hone as [(doc & s2 & e3 & e4 & Hget & Hone & ->) | (e & Hget & Hbad)];
          [|discriminate Hbad].
        destruct (awaited_getDocument _ _ _ _ _ Hget) as [Hd ->].
        apply bind_inv in Hone as [(n & s3 & e5 & e6 & Hdis & Hone & ->) | (e & Hdis & Hbad)];
          [|discriminate Hbad].
        destruct (awaited_discover _ _ _ _ _ Hdis) as [_ ->].
        unfold ret in Hone. injection Hone as _ <-.
        split; [reflexivity|].
        repeat first [rewrite documentsRead_app | rewrite submitted_app | rewrite forgotten_app
                     | rewrite documentsRead_io | rewrite submitted_io | rewrite forgotten_io
                     | progress simpl].
        rewrite Hr, Hs, Hf. unfold documentAt. rewrite <- Hd. auto.
      * exfalso.
        apply bind_inv in Hone as [(doc & s2 & e3 & e4 & Hget & Hone & ->) | (e' & Hget & _)].
        -- apply bind_inv in Hone as [(n & s3 & e5 & e6 & Hdis & Hone & ->) | (e' & Hdis & _)].
           ++ discriminate Hone.
           ++ destruct (awaited_discover _ _ _ _ _ Hdis) as [Hbad _]. discriminate Hbad.
        -- destruct (awaited_getDocument _ _ _ _ _ Hget) as [Hbad _].
           destruct (Hdoc (uri file)) as [d Hd]. rewrite Hd in Hbad. discriminate Hbad.
    + apply bind_inv in H as [([] & s1 & e1 & e2 & Hone & H & ->) | (e & Hone & _)];
        [|discriminate Hone].
      unfold ret in Hone. injection Hone as _ <-. simpl. exact (IH _ _ _ _ H).
Qed.

(** [indexFiles], taken apart: the filter call, then the loop. *)
Lemma indexFiles_cases uriArray s r s' evs :
  indexFiles ws eng uriArray s = (r, s', evs) ->
  let filtered :=
    ws_filterFiles ws uriArray (getConfigValue files_associations ["*.php"] (config s))
      (getConfigValue files_exclude [] (config s))
      (getConfigValue indexer_useComposerJson true (config s)) in
  exists head : list Event,
    documentsRead head = [] /\ submitted head = [] /\ forgotten head = []
    /\ ((exists e, fst filtered = Rejected e /\ r = Rejected e /\ evs = head)
        \/ exists files sa eloop,
             fst filtered = Resolved files
             /\ indexEach ws eng (getConfigValue files_maxSize 1000000 (config s)) files sa
                = (r, s', eloop)
             /\ evs = head ++ eloop).
Proof.
  intros H filtered. unfold indexFiles in H.
  apply bind_inv in H as [(s0 & s1 & x1 & e1 & Hget & H & ->) | (e & Hget & _)];
    [|discriminate Hget].
  unfold getState in Hget. injection Hget as <- <- <-.
  assert (Hcall : forall st rc (sc : State) ec,
    (exec emit (WsFilterFiles uriArray
                  (getConfigValue files_associations ["*.php"] (config s))
                  (getConfigValue files_exclude [] (config s))
                  (getConfigValue indexer_useComposerJson true (config s)))
     then stateless filtered) st = (rc, sc, ec) ->
    rc = fst filtered
    /\ documentsRead ec = [] /\ submitted ec = [] /\ forgotten ec = []).
  { intros st rc sc ec Hc. unfold bind, emit, stateless in Hc.
    injection Hc as <- _ <-.
    simpl. rewrite documentsRead_io, submitted_io, forgotten_io. auto. }
  apply bind_inv in H as [(files & sa & x2 & e2 & Hfil & H & ->) | (e & Hfil & ->)].
  - apply await_cases in Hfil as (sx & Hfil & _).
    destruct (Hcall _ _ _ _ Hfil) as (Hfiles & Hr & Hs & Hf).
    exists x2. split; [exact Hr|]. split; [exact Hs|]. split; [exact Hf|]. right.
    exists files, sa, e2. split; [symmetry; exact Hfiles|]. split; [exact H | reflexivity].
  - apply await_cases in Hfil as (sx & Hfil & _).
    destruct (Hcall _ _ _ _ Hfil) as (Hfiles & Hr & Hs & Hf).
    exists e1. split; [exact Hr|]. split; [exact Hs|]. split; [exact Hf|]. left.
    exists e. split; [symmetry; exact Hfiles|]. split; reflexivity.
Qed.

End IndexFilesTrace.

(** X21.  Whatever the workspace layer, the engine and the other handlers
    do, [indexWorkspace] reads a document only if discovery returned it,
    and then only if the file is within the size ceiling or the engine knew
    it at the start and it is not older than the engine's snapshot. *)
Theorem indexWorkspace_reads_only_admitted_files :
  forall (ws : WorkspaceApi) (eng : Engine) (restartIfInProgress : bool)
         (s s' : Indexer.State) (r : Outcome IndexResult) (evs : list Event) (u : string),
    Indexer.indexWorkspace ws eng restartIfInProgress s = (r, s', evs) ->
    u ∈ documentsRead evs ->
    exists (files : list FileInfo) (file : FileInfo),
      fst (discovery ws (Indexer.config s)) = Resolved files
      /\ file ∈ files /\ uri file = u
      /\ (size file <= Indexer.getConfigValue files_maxSize 1000000 (Indexer.config s)
          \/ (u ∈ documents (knownDocuments eng)
              /\ timestamp (knownDocuments eng) <= modified file)).
Proof.
  intros ws eng restart s s' r evs u H Hu.
  apply indexWorkspace_cases in H
    as [(_ & _ & _ & _ & ->) | (s0 & H & Hcfg & _)]; [inversion Hu|].
  apply run_cases in H as (head & Hhead & _ & _ & Hrun). rewrite Hcfg in Hrun.
  destruct Hrun as [(e & _ & _ & ->) |
                    (files & sx & sa & sb & rw & ewalk & Hfiles & _ & _ & _ & _ & _ & Hwalk & Hrw)].
  { rewrite Hhead in Hu. inversion Hu. }
  assert (Hin : u ∈ documentsRead ewalk).
  { destruct rw as [[known' result']|e].
    - destruct Hrw as (eforget & Hpass & _ & ->).
      apply forget_pass_quiet in Hpass as (_ & Hquiet & _).
      rewrite !documentsRead_app, Hhead, Hquiet, app_nil_r in Hu. exact Hu.
    - destruct Hrw as [_ ->]. rewrite documentsRead_app, Hhead in Hu. exact Hu. }
  pose proof (walk_reads_admittedAt ws eng _ _ _ _ _ _ _ _ _ _ Hwalk) as Hall.
  unfold readsOnly in Hall. rewrite Forall_forall in Hall.
  destruct (Hall u Hin) as (file & Hfile & Huri & Hok).
  exists files, file. split; [exact Hfiles|]. split; [exact Hfile|]. split; [exact Huri|].
  destruct Hok as [Hsize | [Hknown Hnew]]; [left; exact Hsize | right].
  split; [|exact Hnew]. apply elem_of_ofArray. exact Hknown.
Qed.

Lemma indexWorkspace_reads_only_admitted_files_witness :
  exists (files : list FileInfo) (file : FileInfo),
    fst (discovery Scenario.bigWorkspace None) = Resolved files
    /\ file ∈ files /\ uri file = "file:///w/big.php"
    /\ (size file <= 1000000
        \/ ("file:///w/big.php" ∈ documents (knownDocuments Scenario.bigEngine)
            /\ timestamp (knownDocuments Scenario.bigEngine) <= modified file)).
Proof.
  apply (indexWorkspace_reads_only_admitted_files Scenario.bigWorkspace Scenario.bigEngine
           false Scenario.idle
           (snd (fst (Indexer.indexWorkspace Scenario.bigWorkspace Scenario.bigEngine false
                        Scenario.idle)))
           (fst (fst (Indexer.indexWorkspace Scenario.bigWorkspace Scenario.bigEngine false
                        Scenario.idle)))
           (snd (Indexer.indexWorkspace Scenario.bigWorkspace Scenario.bigEngine false
                   Scenario.idle))).
  - reflexivity.
  - vm_compute. apply list_elem_of_here.
Defined.

(** X22.  The counters of a result [indexWorkspace] returns agree with what
    it did: [indexedFileCount] is the number of documents it submitted to
    the engine and [symbolCount] the sum of the counts the engine returned
    for them; no missing document is ever submitted, and no document is
    submitted that was not read first. *)
Theorem indexWorkspace_counts_what_it_submits :
  forall (ws : WorkspaceApi) (eng : Engine) (restartIfInProgress : bool)
         (s s' : Indexer.State) (res : IndexResult) (evs : list Event),
    Indexer.indexWorkspace ws eng restartIfInProgress s = (Resolved res, s', evs) ->
    indexedFileCount res = length (submitted evs)
    /\ symbolCount res = symbolsOf eng (submitted evs)
    /\ Forall (fun d => d <> None) (submitted evs)
    /\ (length (submitted evs) <= length (documentsRead evs))%nat.
Proof.
  intros ws eng restart s s' res evs H.
  apply indexWorkspace_cases in H
    as [(_ & _ & [= ->] & _ & ->) | (s0 & H & _)].
  { simpl. split; [reflexivity|]. split; [reflexivity|]. split; [constructor | lia]. }
  apply run_cases in H as (head & Hr & Hs & _ & Hrun).
  destruct Hrun as [(e & _ & Hbad & _) |
                    (files & sx & sa & sb & rw & ewalk & _ & _ & _ & _ & _ & _ & Hwalk & Hrw)];
    [discriminate Hbad|].
  destruct rw as [[known' result']|e]; [|destruct Hrw as [Hbad _]; discriminate Hbad].
  destruct Hrw as (eforget & Hpass & Hres & ->).
  apply forget_pass_quiet in Hpass as (_ & Hr2 & Hs2 & _).
  destruct (walk_counts ws eng _ _ _ _ _ _ _ _ _ _ _ Hwalk) as (Hi & Hsym & Hsome & Hle).
  rewrite !submitted_app, !documentsRead_app, Hr, Hs, Hr2, Hs2, !app_nil_r.
  simpl in *. injection Hres as ->.
  destruct (Indexer.isCancellationRequested _ s'); simpl; auto.
Qed.

Lemma indexWorkspace_counts_what_it_submits_witness :
  indexedFileCount (mkResult 0 1 2 3 false) = 1%nat
  /\ symbolCount (mkResult 0 1 2 3 false) = 3.
Proof.
  destruct (indexWorkspace_counts_what_it_submits Scenario.diffWorkspace Scenario.diffEngine
              false Scenario.idle
              (Indexer.mkState (Some 0%nat) [false] None [])
              (mkResult 0 1 2 3 false)
              [EngKnownDocuments; WsFindFiles ["*.php"] [] true;
               WsGetDocument "file:///w/a.php";
               EngDiscoverSymbols (Some (mkDoc "file:///w/a.php" "php" "<?php" 0));
               EngForget "file:///w/gone.php"; EngForget "file:///w/old.php"]
              eq_refl) as (Hi & Hs & _).
  split; [exact Hi | exact Hs].
Defined.

(** X23.  A workspace in which nothing changed is left alone: when
    discovery returns, each once, exactly the files the engine knows, all
    older than its snapshot, then [indexWorkspace] -- unless it declines --
    reads nothing, submits nothing and forgets nothing, whatever the other
    handlers do meanwhile, and returns a result that counts no indexed
    file. *)
Theorem unchanged_workspace_is_left_alone :
  forall (ws : WorkspaceApi) (eng : Engine) (restartIfInProgress : bool)
         (s s' : Indexer.State) (r : Outcome IndexResult) (evs : list Event)
         (files : list FileInfo),
    fst (discovery ws (Indexer.config s)) = Resolved files ->
    NoDup (map uri files) ->
    (forall f, f ∈ files ->
               uri f ∈ documents (knownDocuments eng)
               /\ modified f < timestamp (knownDocuments eng)) ->
    (forall u, u ∈ documents (knownDocuments eng) -> u ∈ map uri files) ->
    Indexer.indexWorkspace ws eng restartIfInProgress s = (r, s', evs) ->
    documentsRead evs = [] /\ submitted evs = [] /\ forgotten evs = []
    /\ exists res, r = Resolved res
                   /\ indexedFileCount res = 0%nat /\ symbolCount res = 0
                   /\ (wasCancelled res = false -> forgottenFileCount res = 0%nat).
Proof.
  intros ws eng restart s s' r evs files Hfiles Hnd Hold Hcover H.
  apply indexWorkspace_cases in H
    as [(_ & _ & -> & _ & ->) | (s0 & H & Hcfg & _)].
  { split; [reflexivity|]. split; [reflexivity|]. split; [reflexivity|].
    eexists. split; [reflexivity|]. simpl. split; [reflexivity|]. split; [reflexivity|].
    intros Hbad. discriminate Hbad. }
  apply run_cases in H as (head & Hr & Hs & Hf & Hrun). rewrite Hcfg in Hrun.
  destruct Hrun as [(e & Hbad & _) |
                    (files' & sx & sa & sb & rw & ewalk & Hfiles' & _ & _ & _ & _ & _ & Hwalk & Hrw)].
  { rewrite Hfiles in Hbad. discriminate Hbad. }
  rewrite Hfiles in Hfiles'. injection Hfiles' as <-.
  apply walk_unchanged in Hwalk as (-> & -> & known' & -> & Hknown); [|exact Hnd|].
  2:{ intros f Hin. destruct (Hold f Hin) as [Hk Ho]. split; [|exact Ho].
      apply elem_of_ofArray. exact Hk. }
  destruct Hrw as (eforget & Hpass & -> & ->).
  destruct (Indexer.isCancellationRequested (length (Indexer.sources s0)) sa) eqn:Hc.
  - simpl in Hpass. unfold ret in Hpass. injection Hpass as <- <-.
    rewrite Hc. rewrite !app_nil_r. split; [exact Hr|]. split; [exact Hs|]. split; [exact Hf|].
    eexists. split; [reflexivity|]. simpl. split; [reflexivity|]. split; [reflexivity|].
    intros Hbad. discriminate Hbad.
  - specialize (Hknown eq_refl).
    assert (Hempty : known' = []).
    { destruct known' as [|y l]; [reflexivity|]. exfalso.
      destruct (fold_delete_spec (map uri files)
                  (JsSet.ofArray (documents (knownDocuments eng)))
                  (NoDup_ofArray _)) as [_ Hel].
      rewrite <- Hknown in Hel. destruct (proj1 (Hel y)) as [Hy Hny]; [left|].
      apply Hny, Hcover. apply elem_of_ofArray. exact Hy. }
    clear Hknown. subst known'. simpl in Hpass.
    unfold ret in Hpass. injection Hpass as <- <-.
    rewrite Hc. rewrite !app_nil_r. split; [exact Hr|]. split; [exact Hs|]. split; [exact Hf|].
    eexists. split; [reflexivity|]. simpl. split; [reflexivity|]. split; [reflexivity|].
    intros _. reflexivity.
Qed.

Lemma unchanged_workspace_is_left_alone_witness :
  documentsRead
    (snd (Indexer.indexWorkspace Cases.settledWorkspace Cases.settledEngine false
            Scenario.idle)) = []
  /\ forgotten
       (snd (Indexer.indexWorkspace Cases.settledWorkspace Cases.settledEngine false
               Scenario.idle)) = [].
Proof.
  destruct (unchanged_workspace_is_left_alone Cases.settledWorkspace Cases.settledEngine
              false Scenario.idle
              (snd (fst (Indexer.indexWorkspace Cases.settledWorkspace Cases.settledEngine
                           false Scenario.idle)))
              (fst (fst (Indexer.indexWorkspace Cases.settledWorkspace Cases.settledEngine
                           false Scenario.idle)))
              (snd (Indexer.indexWorkspace Cases.settledWorkspace Cases.settledEngine
                      false Scenario.idle))
              [mkFileInfo "file:///w/a.php" 10 10; mkFileInfo "file:///w/b.php" 20 10])
    as (Hr & _ & Hf & _).
  - reflexivity.
  - simpl. apply NoDup_cons. split.
    + intros Hin. apply list_elem_of_singleton in Hin. discriminate Hin.
    + apply NoDup_cons. split; [intros Hin; inversion Hin | apply NoDup_nil; exact I].
  - intros f Hin. apply elem_of_cons in Hin as [-> | Hin].
    + simpl. split; [apply list_elem_of_further, list_elem_of_here | lia].
    + apply list_elem_of_singleton in Hin as ->.
      simpl. split; [apply list_elem_of_here | lia].
  - intros u Hin. simpl in Hin. apply elem_of_cons in Hin as [-> | Hin].
    + simpl. apply list_elem_of_further, list_elem_of_here.
    + apply list_elem_of_singleton in Hin as ->. simpl. apply list_elem_of_here.
  - reflexivity.
  - split; [exact Hr | exact Hf].
Defined.

(** X24.  A call of [cancelIndexing] that arrives while discovery is
    awaited stops the run before its first file: nothing is read,
    submitted or forgotten, and a result, if one is returned, carries the
    cancellation flag and counts no indexed file. *)
Theorem cancel_during_discovery_stops_the_run :
  forall (ws : WorkspaceApi) (eng : Engine) (restartIfInProgress : bool)
         (s s' : Indexer.State) (r : Outcome IndexResult) (evs : list Event)
         (later : list Indexer.Interruption),
    Indexer.interrupts s = Indexer.CancelIndexingCalled :: later ->
    Indexer.indexWorkspace ws eng restartIfInProgress s = (r, s', evs) ->
    documentsRead evs = [] /\ submitted evs = [] /\ forgotten evs = []
    /\ forall res, r = Resolved res ->
                   wasCancelled res = true /\ indexedFileCount res = 0%nat
                   /\ symbolCount res = 0.
Proof.
  intros ws eng restart s s' r evs later Hint H.
  apply indexWorkspace_cases in H
    as [(_ & _ & -> & _ & ->) | (s0 & H & _ & Hint0 & _)].
  { repeat split; injection H as <-; reflexivity. }
  rewrite Hint in Hint0.
  apply run_cases in H as (head & Hr & Hs & Hf & Hrun).
  destruct Hrun as [(e & _ & -> & ->) |
                    (files & sx & sa & sb & rw & ewalk & _ & Hidx & Hsrc & Hintx
                     & _ & Hsusp & Hwalk & Hrw)].
  { split; [exact Hr|]. split; [exact Hs|]. split; [exact Hf|]. intros res Hbad.
    discriminate Hbad. }
  rewrite Hint0 in Hintx.
  assert (Hc : Indexer.isCancellationRequested (length (Indexer.sources s0)) sa = true).
  { unfold Indexer.suspend in Hsusp. rewrite Hintx in Hsusp. injection Hsusp as <-.
    simpl. unfold Indexer.cancelIndexing_now. simpl. rewrite Hidx.
    unfold Indexer.isCancellationRequested. simpl.
    rewrite list_lookup_insert_eq; [reflexivity|]. rewrite Hsrc, length_app. simpl. lia. }
  rewrite (walk_cancelled ws eng _ _ _ _ _ _ _ Hc) in Hwalk. injection Hwalk as <- <- <-.
  destruct Hrw as (eforget & Hpass & -> & ->). rewrite Hc in Hpass. simpl in Hpass.
  unfold ret in Hpass. injection Hpass as <- <-. rewrite Hc, !app_nil_r.
  split; [exact Hr|]. split; [exact Hs|]. split; [exact Hf|].
  intros res [= <-]. simpl. auto.
Qed.

Lemma cancel_during_discovery_stops_the_run_witness :
  documentsRead
    (snd (Indexer.indexWorkspace Scenario.diffWorkspace Scenario.diffEngine false
            Cases.cancelledEarly)) = []
  /\ forgotten
       (snd (Indexer.indexWorkspace Scenario.diffWorkspace Scenario.diffEngine false
               Cases.cancelledEarly)) = [].
Proof.
  destruct (cancel_during_discovery_stops_the_run Scenario.diffWorkspace Scenario.diffEngine
              false Cases.cancelledEarly
              (snd (fst (Indexer.indexWorkspace Scenario.diffWorkspace Scenario.diffEngine
                           false Cases.cancelledEarly)))
              (fst (fst (Indexer.indexWorkspace Scenario.diffWorkspace Scenario.diffEngine
                           false Cases.cancelledEarly)))
              (snd (Indexer.indexWorkspace Scenario.diffWorkspace Scenario.diffEngine
                      false Cases.cancelledEarly))
              [] eq_refl eq_refl) as (Hr & _ & Hf & _).
  split; [exact Hr | exact Hf].
Defined.

(** X25.  [indexWorkspace] never withdraws a cancellation request: a token
    cancelled before the call is still cancelled after it.  Called with
    [restartIfInProgress] while a run is active, it leaves the token of
    that run cancelled, so the older run stops at its next test. *)
Theorem restart_cancels_the_running_token :
  forall (ws : WorkspaceApi) (eng : Engine) (restartIfInProgress : bool)
         (s s' : Indexer.State) (r : Outcome IndexResult) (evs : list Event),
    Indexer.indexWorkspace ws eng restartIfInProgress s = (r, s', evs) ->
    (forall t, Indexer.isCancellationRequested t s = true ->
               Indexer.isCancellationRequested t s' = true)
    /\ forall old, restartIfInProgress = true ->
                   Indexer.indexing s = Some old ->
                   (old < length (Indexer.sources s))%nat ->
                   Indexer.isCancellationRequested old s' = true.
Proof.
  intros ws eng restart s s' r evs H.
  apply indexWorkspace_cases in H
    as [(_ & -> & _ & -> & _) | (s0 & H & _ & _ & _ & Hkeep & Hold)].
  { split; [auto|]. intros old Hbad. discriminate Hbad. }
  pose proof (run_kept ws eng _ _ _ _ _ H) as Hrun.
  split.
  - intros t Ht. apply Hrun, Hkeep, Ht.
  - intros old _ Hidx Hlt. apply Hrun, (Hold old Hidx Hlt).
Qed.

Lemma restart_cancels_the_running_token_witness :
  Indexer.isCancellationRequested 0
    (snd (fst (Indexer.indexWorkspace Scenario.diffWorkspace Scenario.diffEngine true
                 Cases.busy))) = true.
Proof.
  refine (proj2 (restart_cancels_the_running_token Scenario.diffWorkspace Scenario.diffEngine
                   true Cases.busy
                   (snd (fst (Indexer.indexWorkspace Scenario.diffWorkspace
                                Scenario.diffEngine true Cases.busy)))
                   (fst (fst (Indexer.indexWorkspace Scenario.diffWorkspace
                                Scenario.diffEngine true Cases.busy)))
                   (snd (Indexer.indexWorkspace Scenario.diffWorkspace
                           Scenario.diffEngine true Cases.busy))
                   eq_refl) 0%nat eq_refl eq_refl _).
  simpl. lia.
Defined.

(** X26.  [forgetFiles] cannot be cancelled and cannot fail: whatever the
    other handlers do between its steps, it tells the engine to forget
    every uri it was given, in the given order, does nothing else, and
    resolves. *)
Theorem forgetFiles_forgets_every_uri_in_order :
  forall (uriArray : list string) (s : Indexer.State),
    exists s' : Indexer.State,
      Indexer.forgetFiles uriArray s = (Resolved tt, s', map EngForget uriArray)
      /\ forgotten (map EngForget uriArray) = uriArray.
Proof.
  intros uriArray s.
  destruct (Indexer.forgetFiles uriArray s) as [[r s'] evs] eqn:H.
  destruct (forgetFiles_events _ _ _ _ _ H) as [-> ->].
  exists s'. split; [reflexivity | apply forgotten_forgets].
Qed.

(** X27.  [indexFiles] reads no file above the size ceiling in force when
    it was called: every document it reads belongs to a file the filter
    returned whose size is within that ceiling -- whatever the outcome of
    the call and whatever the configuration becomes meanwhile. *)
Theorem indexFiles_reads_nothing_above_the_ceiling :
  forall (ws : WorkspaceApi) (eng : Engine) (uriArray : list string)
         (s s' : Indexer.State) (r : Outcome unit) (evs : list Event) (u : string),
    Indexer.indexFiles ws eng uriArray s = (r, s', evs) ->
    u ∈ documentsRead evs ->
    exists (files : list FileInfo) (file : FileInfo),
      fst (ws_filterFiles ws uriArray
             (Indexer.getConfigValue files_associations ["*.php"] (Indexer.config s))
             (Indexer.getConfigValue files_exclude [] (Indexer.config s))
             (Indexer.getConfigValue indexer_useComposerJson true (Indexer.config s)))
      = Resolved files
      /\ file ∈ files /\ uri file = u
      /\ size file <= Indexer.getConfigValue files_maxSize 1000000 (Indexer.config s).
Proof.
  intros ws eng uriArray s s' r evs u H Hu.
  apply indexFiles_cases in H as (head & Hr & _ & _ & Hrun).
  destruct Hrun as [(e & _ & _ & ->) | (files & sa & eloop & Hfiles & Hloop & ->)].
  { rewrite Hr in Hu. inversion Hu. }
  rewrite documentsRead_app, Hr in Hu. simpl in Hu.
  pose proof (indexEach_reads_within_ceiling ws eng _ _ _ _ _ _ Hloop) as Hall.
  unfold readsOnly in Hall. rewrite Forall_forall in Hall.
  destruct (Hall u Hu) as (file & Hin & Huri & Hsize).
  exists files, file. auto.
Qed.

Lemma indexFiles_reads_nothing_above_the_ceiling_witness :
  exists (files : list FileInfo) (file : FileInfo),
    fst (ws_filterFiles Cases.watchedWorkspace ["file:///w/a.php"] ["*.php"] [] true)
    = Resolved files
    /\ file ∈ files /\ uri file = "file:///w/a.php" /\ size file <= 1000000.
Proof.
  apply (indexFiles_reads_nothing_above_the_ceiling Cases.watchedWorkspace
           Scenario.freshEngine ["file:///w/a.php"] Scenario.idle
           (snd (fst (Indexer.indexFiles Cases.watchedWorkspace Scenario.freshEngine
                        ["file:///w/a.php"] Scenario.idle)))
           (fst (fst (Indexer.indexFiles Cases.watchedWorkspace Scenario.freshEngine
                        ["file:///w/a.php"] Scenario.idle)))
           (snd (Indexer.indexFiles Cases.watchedWorkspace Scenario.freshEngine
                   ["file:///w/a.php"] Scenario.idle))).
  - reflexivity.
  - vm_compute. apply list_elem_of_here.
Defined.

(** X28.  When the filter resolves and every document can be fetched,
    [indexFiles] resolves, having read exactly the filtered files within
    the ceiling, in order, and submitted to the engine what each read gave
    -- also when it gave no document -- and forgotten nothing.  It tests no
    cancellation token: no other handler can stop it. *)
Theorem indexFiles_submits_every_read :
  forall (ws : WorkspaceApi) (eng : Engine) (uriArray : list string)
         (s s' : Indexer.State) (r : Outcome unit) (evs : list Event)
         (files : list FileInfo),
    fst (ws_filterFiles ws uriArray
           (Indexer.getConfigValue files_associations ["*.php"] (Indexer.config s))
           (Indexer.getConfigValue files_exclude [] (Indexer.config s))
           (Indexer.getConfigValue indexer_useComposerJson true (Indexer.config s)))
    = Resolved files ->
    (forall u, exists d, fst (ws_getDocument ws u) = Resolved d) ->
    Indexer.indexFiles ws eng uriArray s = (r, s', evs) ->
    let read :=
      withinCeiling (Indexer.getConfigValue files_maxSize 1000000 (Indexer.config s)) files in
    r = Resolved tt
    /\ documentsRead evs = map uri read
    /\ submitted evs = map (fun f => documentAt ws (uri f)) read
    /\ forgotten evs = [].
Proof.
  intros ws eng uriArray s s' r evs files Hfiles Hdoc H read.
  apply indexFiles_cases in H as (head & Hr & Hs & Hf & Hrun).
  destruct Hrun as [(e & Hbad & _) | (files' & sa & eloop & Hfiles' & Hloop & ->)].
  { rewrite Hfiles in Hbad. discriminate Hbad. }
  rewrite Hfiles in Hfiles'. injection Hfiles' as <-.
  destruct (indexEach_trace ws eng _ _ Hdoc _ _ _ _ Hloop) as (-> & Hr2 & Hs2 & Hf2).
  rewrite documentsRead_app, submitted_app, forgotten_app, Hr, Hs, Hf, Hr2, Hs2, Hf2.
  auto.
Qed.

Lemma indexFiles_submits_every_read_witness :
  documentsRead
    (snd (Indexer.indexFiles Cases.watchedWorkspace Scenario.freshEngine [] Scenario.idle))
  = ["file:///w/a.php"; "file:///w/gone.php"]
  /\ submitted
       (snd (Indexer.indexFiles Cases.watchedWorkspace Scenario.freshEngine [] Scenario.idle))
     = [Some (mkDoc "file:///w/a.php" "php" "<?php" 0); None].
Proof.
  destruct (indexFiles_submits_every_read Cases.watchedWorkspace Scenario.freshEngine []
              Scenario.idle
              (snd (fst (Indexer.indexFiles Cases.watchedWorkspace Scenario.freshEngine []
                           Scenario.idle)))
              (fst (fst (Indexer.indexFiles Cases.watchedWorkspace Scenario.freshEngine []
                           Scenario.idle)))
              (snd (Indexer.indexFiles Cases.watchedWorkspace Scenario.freshEngine []
                      Scenario.idle))
              Cases.changedFiles eq_refl) as (_ & Hr & Hs & _).
  - intros u. simpl. destruct (String.eqb u "file:///w/a.php"); eexists; reflexivity.
  - reflexivity.
  - split; [exact Hr | exact Hs].
Defined.

(** X29.  Wired to [Workspace.findFiles] as server.ts wires it,
    [indexWorkspace] never reads a document and never submits one to the
    engine, whatever the folders, the file system, the engine and the other
    handlers do.  A result it returns counts no indexed file and no symbol;
    and unless it declined, it returns one only when no registered folder
    has the scheme "file". *)
Theorem server_indexWorkspace_never_reads :
  forall (pf : Platform) (folders : Workspace.Folders)
         (filterFiles : list string -> list string -> list string -> bool ->
                        Outcome (list FileInfo) * list IoEvent)
         (eng : Engine) (restartIfInProgress : bool) (s s' : Indexer.State)
         (r : Outcome IndexResult) (evs : list Event),
    Indexer.indexWorkspace (serverWorkspace pf folders filterFiles) eng
      restartIfInProgress s = (r, s', evs) ->
    documentsRead evs = [] /\ submitted evs = []
    /\ forall res, r = Resolved res ->
                   indexedFileCount res = 0%nat /\ symbolCount res = 0
                   /\ (Indexer.isIndexing s = false \/ restartIfInProgress = true ->
                       existsb (fun f => String.eqb (uriScheme (folder_uri f)) "file")
                         (Workspace.folderArray folders) = false).
Proof.
  intros pf folders filterFiles eng restart s s' r evs H.
  assert (Hdisc : forall cfg,
    fst (discovery (serverWorkspace pf folders filterFiles) cfg)
    = if existsb (fun f => String.eqb (uriScheme (folder_uri f)) "file")
           (Workspace.folderArray folders)
      then Rejected noReceiver else Resolved []).
  { intros cfg. unfold discovery, serverWorkspace. simpl ws_findFiles.
    unfold Workspace.findFiles, FileSearchProvider.findFiles, settle.
    rewrite findFiles_from_outcome. destruct (existsb _ _); reflexivity. }
  apply indexWorkspace_cases in H
    as [(Hbusy & -> & -> & _ & ->) | (s0 & H & _)].
  { split; [reflexivity|]. split; [reflexivity|]. intros res [= <-].
    split; [reflexivity|]. split; [reflexivity|].
    rewrite Hbusy. intros [Hbad|Hbad]; discriminate Hbad. }
  apply run_cases in H as (head & Hr & Hs & _ & Hrun).
  rewrite Hdisc in Hrun.
  destruct Hrun as [(e & _ & -> & ->) |
                    (files & sx & sa & sb & rw & ewalk & Hfiles & _ & _ & _ & _ & _ & Hwalk & Hrw)].
  { split; [exact Hr|]. split; [exact Hs|]. intros res Hbad. discriminate Hbad. }
  destruct (existsb _ _) eqn:Hlocal; [discriminate Hfiles|].
  injection Hfiles as <-. simpl in Hwalk. unfold ret in Hwalk. injection Hwalk as <- <- <-.
  destruct Hrw as (eforget & Hpass & -> & ->).
  apply forget_pass_quiet in Hpass as (_ & Hr2 & Hs2 & _).
  rewrite !documentsRead_app, !submitted_app, Hr, Hs, Hr2, Hs2.
  split; [reflexivity|]. split; [reflexivity|]. intros res [= <-].
  destruct (Indexer.isCancellationRequested _ s'); simpl; auto.
Qed.

Lemma server_indexWorkspace_never_reads_witness :
  documentsRead
    (snd (Indexer.indexWorkspace
            (serverWorkspace Scenario.twoFilePlatform [] Scenario.noFilter)
            Scenario.freshEngine false Scenario.idle)) = []
  /\ fst (fst (Indexer.indexWorkspace
                 (serverWorkspace Scenario.twoFilePlatform [] Scenario.noFilter)
                 Scenario.freshEngine false Scenario.idle))
     = Resolved (mkResult 0 0 0 0 false).
Proof.
  split; [|reflexivity].
  destruct (Indexer.indexWorkspace
              (serverWorkspace Scenario.twoFilePlatform [] Scenario.noFilter)
              Scenario.freshEngine false Scenario.idle) as [[r s'] evs] eqn:H.
  exact (proj1 (server_indexWorkspace_never_reads _ _ _ _ _ _ _ _ _ H)).
Defined.

(** X30.  A run leaves its mark on the configuration: when the client
    configured [files.associations], a run of [indexWorkspace] that
    returns undisturbed has appended the pattern "*.php" to that very
    array, so the configuration read afterwards holds one more entry;
    the other settings are as they were. *)
Theorem run_extends_the_configured_associations :
  forall (ws : WorkspaceApi) (eng : Engine) (restartIfInProgress : bool)
         (s s' : Indexer.State) (res : IndexResult) (evs : list Event)
         (c : ServerConfig) (l : list string),
    Indexer.interrupts s = [] ->
    Indexer.config s = Some c ->
    files_associations c = Some l ->
    Indexer.isIndexing s = false \/ restartIfInProgress = true ->
    Indexer.indexWorkspace ws eng restartIfInProgress s = (Resolved res, s', evs) ->
    Indexer.config s'
    = Some (mkConfig (files_maxSize c) (Some (l ++ ["*.php"])) (files_exclude c)
              (indexer_useComposerJson c)).
Proof.
  intros ws eng restart s s' res evs c l Hquiet Hcfg Hassoc Hstart H.
  apply indexWorkspace_cases in H
    as [(Hbusy & -> & _) | (s0 & H & Hcfg0 & Hint0 & _)].
  { rewrite Hbusy in Hstart. destruct Hstart as [Hbad|Hbad]; discriminate Hbad. }
  rewrite Hquiet in Hint0. rewrite Hcfg in Hcfg0.
  apply run_cases in H as (head & _ & _ & _ & Hrun).
  destruct Hrun as [(e & _ & Hbad & _) |
                    (files & sx & sa & sb & rw & ewalk & _ & _ & _ & Hintx & Hsx & Hsusp
                     & Hwalk & Hrw)];
    [discriminate Hbad|].
  rewrite Hint0 in Hintx.
  destruct (suspend_inv _ _ _ _ Hsusp) as (_ & _ & Hsame). specialize (Hsame Hintx).
  subst sa.
  destruct (walk_calm ws eng _ _ _ _ _ _ _ _ _ _ Hwalk) as [[_ Hstill] _].
  specialize (Hstill Hintx). subst sb.
  destruct rw as [[known' result']|e]; [|destruct Hrw as [Hbad _]; discriminate Hbad].
  destruct Hrw as (eforget & Hpass & _ & _).
  assert (Hs' : s' = sx).
  { destruct (negb _ && _) in Hpass.
    - assert (Hp : respects persistent
                     (Indexer.await (Indexer.forgetFiles (JsSet.toArray known')))).
      { unfold Indexer.await.
        apply respects_bind; [exact persistent_trans | apply forgetFiles_persistent | intros ?].
        apply respects_bind;
          [exact persistent_trans | apply calm_persistent, suspend_calm | intros ?].
        apply respects_ret. exact persistent_refl. }
      exact (proj2 (Hp _ _ _ _ Hpass) Hintx).
    - unfold ret in Hpass. injection Hpass as <- _. reflexivity. }
  rewrite Hs', Hsx.
  unfold Indexer.stateAfter, Indexer.newTokenSource, Indexer.associationsWithPhp. simpl.
  rewrite Hcfg0, Hassoc. reflexivity.
Qed.

Lemma run_extends_the_configured_associations_witness :
  Indexer.config
    (snd (fst (Indexer.indexWorkspace Scenario.emptyWorkspace Scenario.freshEngine false
                 Cases.configured)))
  = Some (mkConfig None (Some ["*.inc"; "*.php"]) None None).
Proof.
  apply (run_extends_the_configured_associations Scenario.emptyWorkspace
           Scenario.freshEngine false Cases.configured
           (snd (fst (Indexer.indexWorkspace Scenario.emptyWorkspace Scenario.freshEngine
                        false Cases.configured)))
           (mkResult 0 0 0 0 false)
           (snd (Indexer.indexWorkspace Scenario.emptyWorkspace Scenario.freshEngine
                   false Cases.configured))
           (mkConfig None (Some ["*.inc"]) None None) ["*.inc"]);
    [reflexivity | reflexivity | reflexivity | left; reflexivity | reflexivity].
Defined.

(** ** The indexer as the server wires it: what the claims say of discovery *)

Section WiredRuns.

Import Indexer.

Variable ws : WorkspaceApi.
Variable eng : Engine.


End WiredRuns.

Section WiredDiscovery.

Variable pf : Platform.
Variable folders : Workspace.Folders.
Variable filterFiles :
  list string -> list string -> list string -> bool -> Outcome (list FileInfo) * list IoEvent.



End WiredDiscovery.





